(** * otak-aws: the diagram interchange subsystem

    A shallow embedding of
      - [src/utils/compression.ts]: the optimize / restore pair and the
        URL codec built on it;
      - [src/App.tsx]: the containment and hierarchy helpers, the
        Eraser-style DSL parser and the two text emitters.

    Conventions of the embedding.
      - JavaScript [null] and [undefined] are both the Rocq [None]: an
        optional field is an [option].
      - Numbers are integers ([Z]): canvas coordinates are rounded or
        grid-snapped before they are stored, time stamps come from
        [Date.now()], the zoom level is a percentage. The source
        computes in doubles: the containment test and the comparison
        of areas, which are stated for all numbers, round their sums
        and products as doubles do; the other arithmetic is exact, and
        the properties that depend on it are stated for numbers up to
        [2^40] in magnitude, where the doubles are exact too.
      - Strings are [string]s of 8-bit characters.
      - Exceptions are explicit: a function that can [throw] returns a
        [result]; [try ... catch] is [try_catch].
      - A recursion that the source does not bound takes a [fuel]
        argument and returns [None] when the fuel runs out; the
        properties say how much fuel is enough.
      - What is not code of the repository (lz-string, [JSON], [atob],
        the clock, the random source) is a parameter. *)

From Stdlib Require Import ZArith Lia Ascii String.
From stdpp Require Import base option list strings pretty gmap.

Local Open Scope Z_scope.

(** ** JavaScript primitives used by the sources *)

Module Js.

(** [s] in a boolean position: only the empty string is falsy. *)
Definition truthy_string (s : string) : bool :=
  match s with
  | EmptyString => false
  | String _ _ => true
  end.

(** [o] in a boolean position, for a value that is [null], [undefined]
    or a string. *)
Definition truthy (o : option string) : bool :=
  match o with
  | None => false
  | Some s => truthy_string s
  end.

(** A number in a boolean position: [0] is falsy. *)
Definition truthy_number (o : option Z) : bool :=
  match o with
  | None => false
  | Some z => negb (Z.eqb z 0)
  end.

(** [a || b] on an optional string. *)
Definition or_else (o : option string) (d : option string) : option string :=
  if truthy o then o else d.

(** White space of [String.prototype.trim], in the 8-bit range: TAB, LF,
    VT, FF, CR, SPACE and NBSP. *)
Definition is_space (c : ascii) : bool :=
  match c with
  | "009" | "010" | "011" | "012" | "013" | " " | "160" => true
  | _ => false
  end%char.

Fixpoint trim_start (s : string) : string :=
  match s with
  | EmptyString => EmptyString
  | String c r => if is_space c then trim_start r else s
  end.

(** [trim_end s] drops the trailing white space: a character is kept when
    it is not white space or when something is kept after it. *)
Fixpoint trim_end (s : string) : string :=
  match s with
  | EmptyString => EmptyString
  | String c r =>
      match trim_end r with
      | EmptyString => if is_space c then EmptyString else String c EmptyString
      | r' => String c r'
      end
  end.

Definition trim (s : string) : string := trim_end (trim_start s).

Fixpoint all_space (s : string) : bool :=
  match s with
  | EmptyString => true
  | String c r => is_space c && all_space r
  end.

(** [s.startsWith(p)] *)
Fixpoint startsWith (s p : string) {struct p} : bool :=
  match p, s with
  | EmptyString, _ => true
  | String _ _, EmptyString => false
  | String a p', String b s' => if Ascii.eqb a b then startsWith s' p' else false
  end.

(** [s.includes(p)] *)
Fixpoint includes (s p : string) : bool :=
  startsWith s p ||
  match s with
  | EmptyString => false
  | String _ s' => includes s' p
  end.

(** Exceptions. [ErrInvalidData], [ErrCompressFailed] and
    [ErrCompressWrapped] are the three [new Error(...)] of
    [compressData]; [ErrExternal] is anything thrown by a built-in
    ([JSON.parse], [atob]) or by reading a property of a value of the
    wrong shape. *)
Inductive exn : Type :=
| ErrInvalidData
| ErrCompressFailed
| ErrCompressWrapped
| ErrExternal.

Inductive result (A : Type) : Type :=
| Ok (a : A)
| Throw (e : exn).

Arguments Ok {A} a.
Arguments Throw {A} e.

Global Instance result_ret : MRet result := fun A a => Ok a.

Global Instance result_bind : MBind result := fun A B k r =>
  match r with
  | Ok a => k a
  | Throw e => Throw e
  end.

(** [try { body } catch (e) { handler e }] *)
Definition try_catch {A} (body : result A) (handler : exn -> result A) : result A :=
  match body with
  | Ok a => Ok a
  | Throw e => handler e
  end.

(** *** Double-precision arithmetic on integers

    The numbers of the source are IEEE 754 doubles. The model holds
    integers: every integer below [2^53] in magnitude is a double, and
    the sum or the product of two doubles is the exact result rounded
    to the nearest double, a tie to the even mantissa, or an infinity
    from [2^1024] on. *)
Inductive double : Type :=
| Finite (z : Z)
| PlusInfinity
| MinusInfinity.

(** The double nearest to the natural number [a]: from [2^53] on only
    the 53 leading bits are kept. *)
Definition nearest_double (a : Z) : Z :=
  if a <? 2 ^ 53 then a
  else
    let e := Z.log2 a - 52 in
    let q := a / 2 ^ e in
    let r := a mod 2 ^ e in
    let half := 2 ^ (e - 1) in
    let up := if r <? half then false
              else if half <? r then true
              else Z.odd q in
    (if up then q + 1 else q) * 2 ^ e.

Definition to_double (z : Z) : double :=
  let m := nearest_double (Z.abs z) in
  if 2 ^ 1024 <=? m then (if 0 <? z then PlusInfinity else MinusInfinity)
  else Finite (Z.sgn z * m).

(** [a + b] and [a * b] *)
Definition js_add (a b : Z) : double := to_double (a + b).

Definition js_mul (a b : Z) : double := to_double (a * b).

(** [a <= b] *)
Definition double_leb (a b : double) : bool :=
  match a, b with
  | Finite x, Finite y => x <=? y
  | MinusInfinity, _ | _, PlusInfinity => true
  | _, _ => false
  end.

(** The sign of [a - b] as [Array.prototype.sort] reads it from a
    comparator: the difference of two doubles is rounded again, which
    keeps its sign; [Infinity - Infinity] is [NaN], which the sort
    takes for [0]. *)
Definition js_sub_sign (a b : double) : Z :=
  match a, b with
  | Finite x, Finite y => Z.sgn (x - y)
  | PlusInfinity, PlusInfinity | MinusInfinity, MinusInfinity => 0
  | PlusInfinity, _ | _, MinusInfinity => 1
  | _, _ => -1
  end.

End Js.

(** ** The graph model ([ServiceItem], [ContainerItem], [Connection]) *)

Record ServiceItem : Type := mkServiceItem {
  item_id : string;
  item_name : string;
  item_customName : option string;
  item_color : string;
  item_category : string;
  item_x : Z;
  item_y : Z;
  item_parentContainerId : option string;
  item_type : string
}.

Record ContainerItem : Type := mkContainerItem {
  cont_id : string;
  cont_name : string;
  cont_color : string;
  cont_borderStyle : option string;
  cont_x : Z;
  cont_y : Z;
  cont_width : Z;
  cont_height : Z;
  cont_parentContainerId : option string;
  cont_type : string
}.

Record Connection : Type := mkConnection {
  conn_id : string;
  conn_from : string;
  conn_to : string;
  conn_label : option string
}.

Record Settings : Type := mkSettings {
  zoomLevel : option Z
}.

Record ArchitectureData : Type := mkArchitectureData {
  version : string;
  timestamp : Z;
  boardItems : list ServiceItem;
  containers : list ContainerItem;
  connections : list Connection;
  settings : option Settings
}.

(** [data.settings?.zoomLevel] *)
Definition settings_zoomLevel (s : option Settings) : option Z :=
  match s with
  | None => None
  | Some st => zoomLevel st
  end.

Global Instance ServiceItem_eq_dec : EqDecision ServiceItem.
Proof. solve_decision. Defined.

Global Instance ContainerItem_eq_dec : EqDecision ContainerItem.
Proof. solve_decision. Defined.

Global Instance Connection_eq_dec : EqDecision Connection.
Proof. solve_decision. Defined.

Global Instance Settings_eq_dec : EqDecision Settings.
Proof. solve_decision. Defined.

Global Instance ArchitectureData_eq_dec : EqDecision ArchitectureData.
Proof. solve_decision. Defined.

(** ** [src/utils/compression.ts] *)

Module Compression.
Import Js.

Definition optimizeItem (item : ServiceItem) : ServiceItem :=
  {| item_id := item_id item;
     item_name := item_name item;
     item_customName :=
       if truthy (item_customName item)
          && negb (bool_decide (item_customName item = Some (item_name item)))
       then item_customName item else None;
     item_color := item_color item;
     item_category := item_category item;
     item_x := item_x item;
     item_y := item_y item;
     item_parentContainerId :=
       if truthy (item_parentContainerId item)
       then item_parentContainerId item else None;
     item_type := item_type item |}.

Definition optimizeContainer (container : ContainerItem) : ContainerItem :=
  {| cont_id := cont_id container;
     cont_name := cont_name container;
     cont_color := cont_color container;
     cont_borderStyle :=
       if truthy (cont_borderStyle container)
          && negb (bool_decide (cont_borderStyle container = Some "solid"))
       then cont_borderStyle container else None;
     cont_x := cont_x container;
     cont_y := cont_y container;
     cont_width := cont_width container;
     cont_height := cont_height container;
     cont_parentContainerId :=
       if truthy (cont_parentContainerId container)
       then cont_parentContainerId container else None;
     cont_type := cont_type container |}.

(** [connection.label && connection.label.trim()] *)
Definition label_present (label : option string) : bool :=
  match label with
  | None => false
  | Some l => truthy_string l && truthy_string (trim l)
  end.

Definition optimizeConnection (connection : Connection) : Connection :=
  {| conn_id := conn_id connection;
     conn_from := conn_from connection;
     conn_to := conn_to connection;
     conn_label :=
       if label_present (conn_label connection)
       then conn_label connection else None |}.

Definition optimizeDataForCompression (data : ArchitectureData) : ArchitectureData :=
  {| version := version data;
     timestamp := timestamp data;
     boardItems := map optimizeItem (boardItems data);
     containers := map optimizeContainer (containers data);
     connections := map optimizeConnection (connections data);
     settings :=
       if truthy_number (settings_zoomLevel (settings data))
          && negb (bool_decide (settings_zoomLevel (settings data) = Some 100))
       then Some {| zoomLevel := settings_zoomLevel (settings data) |}
       else None |}.

Definition restoreItem (item : ServiceItem) : ServiceItem :=
  {| item_id := item_id item;
     item_name := item_name item;
     item_customName := or_else (item_customName item) None;
     item_color := item_color item;
     item_category := item_category item;
     item_x := item_x item;
     item_y := item_y item;
     item_parentContainerId := or_else (item_parentContainerId item) None;
     item_type := item_type item |}.

Definition restoreContainer (container : ContainerItem) : ContainerItem :=
  {| cont_id := cont_id container;
     cont_name := cont_name container;
     cont_color := cont_color container;
     cont_borderStyle := or_else (cont_borderStyle container) (Some "solid");
     cont_x := cont_x container;
     cont_y := cont_y container;
     cont_width := cont_width container;
     cont_height := cont_height container;
     cont_parentContainerId := or_else (cont_parentContainerId container) None;
     cont_type := cont_type container |}.

Definition restoreConnection (connection : Connection) : Connection :=
  {| conn_id := conn_id connection;
     conn_from := conn_from connection;
     conn_to := conn_to connection;
     conn_label := or_else (conn_label connection) (Some "") |}.

Definition restoreDataFromOptimized (optimizedData : ArchitectureData) : ArchitectureData :=
  {| version := version optimizedData;
     timestamp := timestamp optimizedData;
     boardItems := map restoreItem (boardItems optimizedData);
     containers := map restoreContainer (containers optimizedData);
     connections := map restoreConnection (connections optimizedData);
     settings :=
       Some {| zoomLevel :=
                 if truthy_number (settings_zoomLevel (settings optimizedData))
                 then settings_zoomLevel (settings optimizedData)
                 else Some 100 |} |}.

(** The text layer the codec is built on. None of it is code of this
    repository: [lz-string]'s URI-safe compressor and its inverse, the
    built-in [JSON] object and [atob]. [JSON_parse] stands for
    [JSON.parse(s) as ArchitectureData]: it throws on text that is not
    JSON, and a parsed value that has not the shape of an
    [ArchitectureData] (on which [restoreDataFromOptimized] throws a
    [TypeError] in the same [try] block) counts as a throw too.
    [LZ_decompress] returns [null] or a string. *)
Class TextLayer : Type := {
  LZ_compressToEncodedURIComponent : string -> string;
  LZ_decompressFromEncodedURIComponent : string -> option string;
  JSON_stringify : ArchitectureData -> string;
  JSON_parse : string -> result ArchitectureData;
  atob : string -> result string
}.

Section Codec.
Context `{TextLayer}.

Definition compressData (data : option ArchitectureData) : result string :=
  match data with
  | None => Throw ErrInvalidData
  | Some data =>
      try_catch
        (let optimizedData := optimizeDataForCompression data in
         let jsonString := JSON_stringify optimizedData in
         let compressed := LZ_compressToEncodedURIComponent jsonString in
         if negb (truthy_string compressed) then Throw ErrCompressFailed
         else Ok compressed)
        (fun _ => Throw ErrCompressWrapped)
  end.

(** The inner [try] of [decompressData]: [Some v] is its [return v],
    [None] is falling out of the [catch] to the final [return null]. *)
Definition base64Fallback (compressedData : string) : result (option ArchitectureData) :=
  try_catch
    (base64Decoded ← atob compressedData;
     parsed ← JSON_parse base64Decoded;
     Ok (Some (restoreDataFromOptimized parsed)))
    (fun _ => Ok None).

Definition decompressData (compressedData : string) (fallbackToBase64 : bool)
  : result (option ArchitectureData) :=
  if negb (truthy_string compressedData) || bool_decide (trim compressedData = "")
  then Ok None
  else
    try_catch
      (let decompressed := LZ_decompressFromEncodedURIComponent compressedData in
       if truthy decompressed then
         parsed ← JSON_parse (default "" decompressed);
         Ok (Some (restoreDataFromOptimized parsed))
       else if fallbackToBase64 then
         r ← base64Fallback compressedData;
         match r with
         | Some v => Ok (Some v)
         | None => Ok None
         end
       else Ok None)
      (fun _ => Ok None).

End Codec.

(** *** Default normalisation *)

(** The normalisation as the specification words it: an override equal to
    the base name is no override, an absent border style is ["solid"], an
    absent label is the empty label, an absent zoom level is 100; a
    [null] parent stays [null]. *)
Definition spec_normalizeItem (item : ServiceItem) : ServiceItem :=
  {| item_id := item_id item;
     item_name := item_name item;
     item_customName :=
       if bool_decide (item_customName item = Some (item_name item))
       then None else item_customName item;
     item_color := item_color item;
     item_category := item_category item;
     item_x := item_x item;
     item_y := item_y item;
     item_parentContainerId := item_parentContainerId item;
     item_type := item_type item |}.

Definition spec_normalizeContainer (container : ContainerItem) : ContainerItem :=
  {| cont_id := cont_id container;
     cont_name := cont_name container;
     cont_color := cont_color container;
     cont_borderStyle := Some (default "solid" (cont_borderStyle container));
     cont_x := cont_x container;
     cont_y := cont_y container;
     cont_width := cont_width container;
     cont_height := cont_height container;
     cont_parentContainerId := cont_parentContainerId container;
     cont_type := cont_type container |}.

Definition spec_normalizeConnection (connection : Connection) : Connection :=
  {| conn_id := conn_id connection;
     conn_from := conn_from connection;
     conn_to := conn_to connection;
     conn_label := Some (default "" (conn_label connection)) |}.

Definition spec_normalize (d : ArchitectureData) : ArchitectureData :=
  {| version := version d;
     timestamp := timestamp d;
     boardItems := map spec_normalizeItem (boardItems d);
     containers := map spec_normalizeContainer (containers d);
     connections := map spec_normalizeConnection (connections d);
     settings := Some {| zoomLevel := Some (default 100 (settings_zoomLevel (settings d))) |} |}.

(** The normalisation the round trip really performs. On top of the
    above, every falsy value counts as absent: an empty override, an
    empty parent id, an empty border style, a zoom level of 0; and a
    label of white space only counts as the empty label. *)
Definition absent_if_empty (o : option string) : option string :=
  match o with
  | Some "" => None
  | _ => o
  end.

Definition normalizeItem (item : ServiceItem) : ServiceItem :=
  {| item_id := item_id item;
     item_name := item_name item;
     item_customName :=
       if bool_decide (item_customName item = Some (item_name item))
       then None else absent_if_empty (item_customName item);
     item_color := item_color item;
     item_category := item_category item;
     item_x := item_x item;
     item_y := item_y item;
     item_parentContainerId := absent_if_empty (item_parentContainerId item);
     item_type := item_type item |}.

Definition normalizeContainer (container : ContainerItem) : ContainerItem :=
  {| cont_id := cont_id container;
     cont_name := cont_name container;
     cont_color := cont_color container;
     cont_borderStyle :=
       Some (default "solid" (absent_if_empty (cont_borderStyle container)));
     cont_x := cont_x container;
     cont_y := cont_y container;
     cont_width := cont_width container;
     cont_height := cont_height container;
     cont_parentContainerId := absent_if_empty (cont_parentContainerId container);
     cont_type := cont_type container |}.

Definition normalizeConnection (connection : Connection) : Connection :=
  {| conn_id := conn_id connection;
     conn_from := conn_from connection;
     conn_to := conn_to connection;
     conn_label :=
       match conn_label connection with
       | Some l => if all_space l then Some "" else Some l
       | None => Some ""
       end |}.

Definition normalize (d : ArchitectureData) : ArchitectureData :=
  {| version := version d;
     timestamp := timestamp d;
     boardItems := map normalizeItem (boardItems d);
     containers := map normalizeContainer (containers d);
     connections := map normalizeConnection (connections d);
     settings :=
       Some {| zoomLevel :=
                 match settings_zoomLevel (settings d) with
                 | Some 0 | None => Some 100
                 | Some z => Some z
                 end |} |}.

(** *** A text layer to run the codec on examples

    A finite stand-in for the external text layer: JSON text is known
    for the documents of a table only, the compressor prefixes its input
    with a marker and the decompressor strips it, and [atob] accepts the
    texts of the table. *)
Definition example_document : ArchitectureData :=
  {| version := "1.0";
     timestamp := 1700000000000;
     boardItems :=
       [ {| item_id := "ec2-1"; item_name := "EC2"; item_customName := None;
            item_color := "#FF9900"; item_category := "Compute";
            item_x := 100; item_y := 100; item_parentContainerId := None;
            item_type := "service" |} ];
     containers := [];
     connections := [];
     settings := None |}.

Definition example_json : string :=
  "{'version':'1.0','timestamp':1700000000000,'boardItems':[{'id':'ec2-1','name':'EC2','color':'#FF9900','category':'Compute','x':100,'y':100,'type':'service'}],'containers':[],'connections':[]}".

Definition example_table : list (string * ArchitectureData) :=
  [ (example_json, example_document) ].

Definition example_stringify (o : ArchitectureData) : string :=
  match filter (fun e => bool_decide (e.2 = o)) example_table with
  | e :: _ => e.1
  | [] => "{}"
  end.

Definition example_parse (s : string) : result ArchitectureData :=
  match filter (fun e => bool_decide (e.1 = s)) example_table with
  | e :: _ => Ok e.2
  | [] => Throw ErrExternal
  end.

Definition example_layer : TextLayer :=
  {| LZ_compressToEncodedURIComponent := fun s => String "N" s;
     LZ_decompressFromEncodedURIComponent := fun s =>
       match s with
       | String "N" r => Some r
       | _ => None
       end;
     JSON_stringify := example_stringify;
     JSON_parse := example_parse;
     atob := fun s =>
       if bool_decide (s = "e30=") then Ok "{}" else Throw ErrExternal |}.

End Compression.

(** ** [src/App.tsx]: containment and hierarchy *)

Module Hierarchy.
Import Js.

(** The two sums of each of the last two comparisons are sums of
    doubles. *)
Definition isItemInContainer (itemX itemY itemWidth itemHeight : Z)
    (container : ContainerItem) : bool :=
  (cont_x container <=? itemX)
  && (cont_y container <=? itemY)
  && double_leb (js_add itemX itemWidth)
                (js_add (cont_x container) (cont_width container))
  && double_leb (js_add itemY itemHeight)
                (js_add (cont_y container) (cont_height container)).

(** [Array.prototype.sort] with a comparator. The sort of the language
    is stable; on a comparator that is a total preorder every stable
    sort returns the same array, here by insertion from the right: an
    element goes before the first one it does not exceed. *)
Fixpoint sort_insert {A} (cmp : A -> A -> Z) (a : A) (l : list A) : list A :=
  match l with
  | [] => [a]
  | b :: r => if cmp a b <=? 0 then a :: b :: r else b :: sort_insert cmp a r
  end.

Fixpoint sort {A} (cmp : A -> A -> Z) (l : list A) : list A :=
  match l with
  | [] => []
  | a :: r => sort_insert cmp a (sort cmp r)
  end.


Definition double_area (c : ContainerItem) : double :=
  js_mul (cont_width c) (cont_height c).

(** The comparator is [(a.width * a.height) - (b.width * b.height)], in
    doubles. *)
Definition findParentContainer (containers : list ContainerItem)
    (itemX itemY itemWidth itemHeight : Z) (excludeContainerId : option string)
  : option ContainerItem :=
  head
    (sort (fun a b => js_sub_sign (js_mul (cont_width a) (cont_height a))
                                  (js_mul (cont_width b) (cont_height b)))
       (filter
          (fun container =>
             negb (bool_decide (Some (cont_id container) = excludeContainerId))
             && isItemInContainer itemX itemY itemWidth itemHeight container)
          containers)).

(** [containers.find(c => c.id === id)] *)
Definition find_container (containers : list ContainerItem) (id : string)
  : option ContainerItem :=
  List.find (fun c => bool_decide (cont_id c = id)) containers.

(** The inner [checkParent] of [wouldCreateCircularReference]. The
    recursion of the source is not bounded: [fuel] bounds it here, and
    [None] is a walk that has not ended within [fuel] calls. *)
Fixpoint checkParent (fuel : nat) (containers : list ContainerItem)
    (childContainerId : string) (currentParentId : option string) : option bool :=
  match fuel with
  | O => None
  | S fuel' =>
      match currentParentId with
      | None => Some false
      | Some "" => Some false
      | Some current =>
          if bool_decide (current = childContainerId) then Some true
          else
            match find_container containers current with
            | Some parent =>
                checkParent fuel' containers childContainerId
                  (cont_parentContainerId parent)
            | None => Some false
            end
      end
  end.

Definition wouldCreateCircularReference (fuel : nat) (containers : list ContainerItem)
    (childContainerId parentContainerId : string) : option bool :=
  if bool_decide (childContainerId = parentContainerId) then Some true
  else checkParent fuel containers childContainerId (Some parentContainerId).

(** *** Well-formed hierarchies

    The invariants of the data model on the Group collection: ids are
    unique and not empty, and the walk from any Group through
    [parentContainerId] finds every parent and ends at a root Group (no
    dangling parent, no cycle). [rootDistance] is that walk; it needs at
    most as many steps as there are Groups. *)
Fixpoint rootDistance (fuel : nat) (containers : list ContainerItem)
    (id : string) : option nat :=
  match fuel with
  | O => None
  | S fuel' =>
      match find_container containers id with
      | None => None
      | Some container =>
          match cont_parentContainerId container with
          | None => Some O
          | Some p => S <$> rootDistance fuel' containers p
          end
      end
  end.

Definition well_formed (containers : list ContainerItem) : Prop :=
  NoDup (map cont_id containers)
  /\ Forall (fun c => cont_id c <> "") containers
  /\ Forall (fun c => is_Some (rootDistance (length containers) containers (cont_id c)))
            containers.

Global Instance well_formed_dec containers : Decision (well_formed containers).
Proof. unfold well_formed. apply _. Defined.

(** The ancestor chain as a relation: [reaches cs target cur] when the
    walk that starts at the id [cur] and follows [parentContainerId]
    arrives at the id [target]. *)
Inductive reaches (containers : list ContainerItem) (target : string)
  : string -> Prop :=
| reaches_here : reaches containers target target
| reaches_up cur c p :
    find_container containers cur = Some c ->
    cont_parentContainerId c = Some p ->
    reaches containers target p ->
    reaches containers target cur.

End Hierarchy.

(** ** Regular expressions of the parser

    [String.prototype.match] with a pattern without flags: the leftmost
    match, by backtracking, greedy quantifiers first. The patterns of
    the parser repeat single characters only, so [Star] and [Plus] take
    a character class. *)

Module Regex.

Inductive regex : Type :=
| Eps
| Lit (c : ascii)
| Star (p : ascii -> bool)
| Plus (p : ascii -> bool)
| Opt (r : regex)
| Seq (r1 r2 : regex)
| Group (n : nat) (r : regex).

(** [\w] *)
Definition word (c : ascii) : bool :=
  let n := nat_of_ascii c in
  ((48 <=? n) && (n <=? 57) || (65 <=? n) && (n <=? 90)
   || (97 <=? n) && (n <=? 122) || (n =? 95))%nat.

(** [\s] *)
Definition space (c : ascii) : bool := Js.is_space c.

(** [[^c]] *)
Definition other_than (c : ascii) (a : ascii) : bool := negb (Ascii.eqb a c).

Fixpoint lits (s : string) : regex :=
  match s with
  | EmptyString => Eps
  | String c r => Seq (Lit c) (lits r)
  end.

(** The prefix of [s] that was consumed to arrive at its suffix [rest]. *)
Definition consumed (s rest : string) : string :=
  String.substring 0 (String.length s - String.length rest) s.

Fixpoint star_match {R} (p : ascii -> bool) (s : string)
    (k : string -> option R) : option R :=
  match s with
  | String c s' =>
      if p c then
        match star_match p s' k with
        | Some r => Some r
        | None => k s
        end
      else k s
  | EmptyString => k s
  end.

Fixpoint rmatch {R} (r : regex) (s : string) (caps : gmap nat string)
    (k : string -> gmap nat string -> option R) : option R :=
  match r with
  | Eps => k s caps
  | Lit c =>
      match s with
      | String c' s' => if Ascii.eqb c c' then k s' caps else None
      | EmptyString => None
      end
  | Star p => star_match p s (fun s' => k s' caps)
  | Plus p =>
      match s with
      | String c s' => if p c then star_match p s' (fun s'' => k s'' caps) else None
      | EmptyString => None
      end
  | Opt r' =>
      match rmatch r' s caps k with
      | Some x => Some x
      | None => k s caps
      end
  | Seq r1 r2 => rmatch r1 s caps (fun s' caps' => rmatch r2 s' caps' k)
  | Group n r' =>
      rmatch r' s caps (fun s' caps' => k s' (<[n := consumed s s']> caps'))
  end.

(** [s.match(r)]: the captures of the leftmost match, or [None]. *)
Fixpoint search (r : regex) (s : string) : option (gmap nat string) :=
  match rmatch r s ∅ (fun _ caps => Some caps) with
  | Some caps => Some caps
  | None =>
      match s with
      | String _ s' => search r s'
      | EmptyString => None
      end
  end.

Fixpoint seqs (rs : list regex) : regex :=
  match rs with
  | [] => Eps
  | r :: rs' => Seq r (seqs rs')
  end.

End Regex.

(** ** [src/App.tsx]: the DSL parser *)

Module Parser.
Import Js Regex.

Record ServiceInfo : Type := mkServiceInfo {
  svc_id : string;
  svc_name : string;
  svc_color : string;
  svc_category : string
}.

(** [table[key]] on an object literal used as a table; of two entries
    with one key the later one counts. Keys that name a property of
    [Object.prototype] are outside the model. *)
Fixpoint lookup_table {V} (table : list (string * V)) (key : string) : option V :=
  match table with
  | [] => None
  | (k, v) :: rest =>
      match lookup_table rest key with
      | Some v' => Some v'
      | None => if bool_decide (k = key) then Some v else None
      end
  end.

Definition labelServiceMap : list (string * ServiceInfo) :=
  [
    ("User", mkServiceInfo "user" "User" "#4F46E5" "Actors");
    ("Developer", mkServiceInfo "developer" "Developer" "#7C3AED" "Actors");
    ("EC2", mkServiceInfo "ec2" "EC2" "#FF9900" "Compute");
    ("Lambda", mkServiceInfo "lambda" "Lambda" "#FF9900" "Compute");
    ("ECS Fargate", mkServiceInfo "ecs-fargate" "ECS Fargate" "#FF9900" "Compute");
    ("ECR", mkServiceInfo "ecr" "ECR" "#569A31" "Storage");
    ("RDS", mkServiceInfo "rds" "RDS" "#527FFF" "Database");
    ("DynamoDB", mkServiceInfo "dynamodb" "DynamoDB" "#527FFF" "Database");
    ("Aurora", mkServiceInfo "aurora" "Aurora" "#527FFF" "Database");
    ("ElastiCache", mkServiceInfo "elasticache" "ElastiCache" "#527FFF" "Database");
    ("S3", mkServiceInfo "s3" "S3" "#569A31" "Storage");
    ("VPC", mkServiceInfo "vpc" "VPC" "#FF6B6B" "Networking");
    ("VPC (staging)", mkServiceInfo "vpc" "VPC" "#FF6B6B" "Networking");
    ("ALB", mkServiceInfo "alb" "ALB" "#FF6B6B" "Networking");
    ("Direct Connect", mkServiceInfo "direct-connect" "Direct Connect" "#FF6B6B" "Networking");
    ("Transit Gateway", mkServiceInfo "transit-gateway" "Transit Gateway" "#FF6B6B" "Networking");
    ("VPC Peering", mkServiceInfo "vpc-peering" "VPC Peering" "#FF6B6B" "Networking");
    ("NAT Gateway", mkServiceInfo "nat-gateway" "NAT Gateway" "#FF6B6B" "Networking");
    ("Internet Gateway", mkServiceInfo "internet-gateway" "Internet Gateway" "#FF6B6B" "Networking");
    ("VPN Gateway", mkServiceInfo "vpn-gateway" "VPN Gateway" "#FF6B6B" "Networking");
    ("Customer Gateway", mkServiceInfo "customer-gateway" "Customer Gateway" "#FF6B6B" "Networking");
    ("On-Premises", mkServiceInfo "on-premises" "On-Premises" "#6B7280" "Infrastructure");
    ("Data Center", mkServiceInfo "data-center" "Data Center" "#374151" "Infrastructure");
    ("Corporate Network", mkServiceInfo "corporate-network" "Corporate Network" "#4B5563" "Infrastructure");
    ("API Gateway", mkServiceInfo "api-gateway" "API Gateway" "#A855F7" "Integration");
    ("CloudWatch", mkServiceInfo "cloudwatch" "CloudWatch" "#10B981" "Management");
    ("CodeBuild", mkServiceInfo "codebuild" "CodeBuild" "#6B7280" "DevOps");
    ("CodePipeline", mkServiceInfo "codepipeline" "CodePipeline" "#6B7280" "DevOps");
    ("CodeConnection", mkServiceInfo "codeconnection" "CodeConnection" "#6B7280" "DevOps");
    ("GitHub", mkServiceInfo "github" "GitHub" "#374151" "DevOps");
    ("Repository", mkServiceInfo "repository" "Repository" "#374151" "DevOps");
    ("Branch", mkServiceInfo "branch" "Branch" "#22C55E" "DevOps");
    ("Pull Request", mkServiceInfo "pull-request" "Pull Request" "#3B82F6" "DevOps");
    ("Commit", mkServiceInfo "commit" "Commit" "#8B5CF6" "DevOps");
    ("main", mkServiceInfo "branch" "Branch" "#22C55E" "DevOps");
    ("develop", mkServiceInfo "branch" "Branch" "#22C55E" "DevOps");
    ("master", mkServiceInfo "branch" "Branch" "#22C55E" "DevOps");
    ("feature", mkServiceInfo "branch" "Branch" "#22C55E" "DevOps");
    ("AWS", mkServiceInfo "aws" "AWS Cloud" "#FF9900" "Cloud") ].

Definition iconMap : list (string * ServiceInfo) :=
  [
    ("user", mkServiceInfo "user" "User" "#4F46E5" "Actors");
    ("on-premises-server", mkServiceInfo "on-premises" "On-Premises" "#6B7280" "Infrastructure");
    ("data-center", mkServiceInfo "data-center" "Data Center" "#374151" "Infrastructure");
    ("corporate-network", mkServiceInfo "corporate-network" "Corporate Network" "#4B5563" "Infrastructure");
    ("aws-cloud", mkServiceInfo "aws" "AWS Cloud" "#FF9900" "Cloud");
    ("aws-ec2", mkServiceInfo "ec2" "EC2" "#FF9900" "Compute");
    ("aws-lambda", mkServiceInfo "lambda" "Lambda" "#FF9900" "Compute");
    ("aws-fargate", mkServiceInfo "ecs-fargate" "ECS Fargate" "#FF9900" "Compute");
    ("aws-ecs", mkServiceInfo "ecs" "ECS" "#FF9900" "Compute");
    ("aws-eks", mkServiceInfo "eks" "EKS" "#FF9900" "Compute");
    ("aws-batch", mkServiceInfo "batch" "Batch" "#FF9900" "Compute");
    ("aws-rds", mkServiceInfo "rds" "RDS" "#527FFF" "Database");
    ("aws-aurora", mkServiceInfo "aurora" "Aurora" "#527FFF" "Database");
    ("aws-elasticache", mkServiceInfo "elasticache" "ElastiCache" "#527FFF" "Database");
    ("aws-dynamodb", mkServiceInfo "dynamodb" "DynamoDB" "#527FFF" "Database");
    ("aws-redshift", mkServiceInfo "redshift" "Redshift" "#527FFF" "Database");
    ("aws-documentdb", mkServiceInfo "documentdb" "DocumentDB" "#527FFF" "Database");
    ("aws-simple-storage-service", mkServiceInfo "s3" "S3" "#569A31" "Storage");
    ("aws-elastic-container-registry", mkServiceInfo "ecr" "ECR" "#569A31" "Storage");
    ("aws-efs", mkServiceInfo "efs" "EFS" "#569A31" "Storage");
    ("aws-fsx", mkServiceInfo "fsx" "FSx" "#569A31" "Storage");
    ("aws-glacier", mkServiceInfo "glacier" "Glacier" "#569A31" "Storage");
    ("aws-vpc", mkServiceInfo "vpc" "VPC" "#FF6B6B" "Networking");
    ("aws-elb-application-load-balancer", mkServiceInfo "alb" "ALB" "#FF6B6B" "Networking");
    ("aws-elastic-load-balancing", mkServiceInfo "elb" "ELB" "#FF6B6B" "Networking");
    ("aws-cloudfront", mkServiceInfo "cloudfront" "CloudFront" "#FF6B6B" "Networking");
    ("aws-route-53", mkServiceInfo "route53" "Route 53" "#FF6B6B" "Networking");
    ("aws-direct-connect", mkServiceInfo "direct-connect" "Direct Connect" "#FF6B6B" "Networking");
    ("aws-transit-gateway", mkServiceInfo "transit-gateway" "Transit Gateway" "#FF6B6B" "Networking");
    ("aws-vpc-peering", mkServiceInfo "vpc-peering" "VPC Peering" "#FF6B6B" "Networking");
    ("aws-nat-gateway", mkServiceInfo "nat-gateway" "NAT Gateway" "#FF6B6B" "Networking");
    ("aws-internet-gateway", mkServiceInfo "internet-gateway" "Internet Gateway" "#FF6B6B" "Networking");
    ("aws-vpn-gateway", mkServiceInfo "vpn-gateway" "VPN Gateway" "#FF6B6B" "Networking");
    ("aws-customer-gateway", mkServiceInfo "customer-gateway" "Customer Gateway" "#FF6B6B" "Networking");
    ("aws-api-gateway", mkServiceInfo "api-gateway" "API Gateway" "#A855F7" "Integration");
    ("aws-simple-notification-service", mkServiceInfo "sns" "SNS" "#A855F7" "Integration");
    ("aws-simple-queue-service", mkServiceInfo "sqs" "SQS" "#A855F7" "Integration");
    ("aws-step-functions", mkServiceInfo "step-functions" "Step Functions" "#A855F7" "Integration");
    ("aws-eventbridge", mkServiceInfo "eventbridge" "EventBridge" "#A855F7" "Integration");
    ("aws-appsync", mkServiceInfo "app-sync" "AppSync" "#A855F7" "Integration");
    ("aws-cloudwatch", mkServiceInfo "cloudwatch" "CloudWatch" "#10B981" "Management");
    ("aws-cloudformation", mkServiceInfo "cloudformation" "CloudFormation" "#10B981" "Management");
    ("aws-systems-manager", mkServiceInfo "systems-manager" "Systems Manager" "#10B981" "Management");
    ("aws-codebuild", mkServiceInfo "codebuild" "CodeBuild" "#6B7280" "DevOps");
    ("aws-codepipeline", mkServiceInfo "codepipeline" "CodePipeline" "#6B7280" "DevOps");
    ("aws-codestar", mkServiceInfo "codeconnection" "CodeConnection" "#6B7280" "DevOps");
    ("github", mkServiceInfo "github" "GitHub" "#374151" "DevOps");
    ("git-repository", mkServiceInfo "repository" "Repository" "#374151" "DevOps");
    ("git-branch", mkServiceInfo "branch" "Branch" "#22C55E" "DevOps");
    ("git-pull-request", mkServiceInfo "pull-request" "Pull Request" "#3B82F6" "DevOps");
    ("git-commit", mkServiceInfo "commit" "Commit" "#8B5CF6" "DevOps") ].

Definition getServiceFromIcon (iconName labelName : string) : ServiceInfo :=
  match (if truthy_string labelName then lookup_table labelServiceMap labelName else None) with
  | Some info => info
  | None =>
      match lookup_table iconMap iconName with
      | Some info => info
      | None =>
          {| svc_id := "unknown";
             svc_name := if truthy_string labelName then labelName else "Unknown Service";
             svc_color := "#6B7280";
             svc_category := "Other" |}
      end
  end.

(** [s.toLowerCase()], on 8-bit characters. *)
Definition lower_char (c : ascii) : ascii :=
  let n := nat_of_ascii c in
  if ((65 <=? n) && (n <=? 90)
      || (192 <=? n) && (n <=? 222) && negb (n =? 215))%nat
  then ascii_of_nat (n + 32) else c.

Fixpoint toLowerCase (s : string) : string :=
  match s with
  | EmptyString => EmptyString
  | String c r => String (lower_char c) (toLowerCase r)
  end.

(** [text.split('\n')] *)
Fixpoint split_lines (text : string) : list string :=
  match text with
  | EmptyString => [EmptyString]
  | String c r =>
      if Ascii.eqb c "010"%char then EmptyString :: split_lines r
      else
        match split_lines r with
        | l :: ls => String c l :: ls
        | [] => [String c EmptyString]
        end
  end.

Definition quote : ascii := "034"%char.

(** The pattern of a Node line, with [\x22] for the double quote:
    [/(\w+)\s*\[label:\s*\x22([^\x22]+)\x22,?\s*icon:\s*([^\]]+)\]/] *)
Definition itemRegex : regex :=
  seqs [ Group 1 (Plus word); Star space; lits "[label:"; Star space;
         Lit quote; Group 2 (Plus (other_than quote)); Lit quote;
         Opt (Lit ","%char); Star space; lits "icon:"; Star space;
         Group 3 (Plus (other_than "]"%char)); Lit "]"%char ].

(** The pattern of a Group line: that of a Node line followed by
    [\s*\{]. *)
Definition groupRegex : regex :=
  seqs [ itemRegex; Star space; Lit "{"%char ].

(** The pattern of an Edge line:
    [/(\w+)\s*>\s*(\w+)(?:\s*:\s*\x22([^\x22]+)\x22)?/] *)
Definition connectionRegex : regex :=
  seqs [ Group 1 (Plus word); Star space; Lit ">"%char; Star space;
         Group 2 (Plus word);
         Opt (seqs [ Star space; Lit ":"%char; Star space; Lit quote;
                     Group 3 (Plus (other_than quote)); Lit quote ]) ].

(** The border style and the colour of a new Group, from its label; the
    first keyword found decides. *)
Definition classifyGroup (groupName : string) : string * string :=
  let n := toLowerCase groupName in
  if includes n "vpc" then ("solid", "#FF6B6B")
  else if includes n "subnet" then ("dashed", "#94A3B8")
  else if includes n "aws" || includes n "cloud" then ("solid", "#FF9900")
  else if includes n "github" then ("solid", "#374151")
  else if includes n "on-premises" || includes n "on premises" then ("solid", "#6B7280")
  else if includes n "data center" || includes n "datacenter" then ("solid", "#374151")
  else if includes n "corporate" || includes n "corp" then ("dashed", "#4B5563")
  else if includes n "rack" then ("dotted", "#6B7280")
  else if includes n "network zone" || includes n "zone" then ("dashed", "#9CA3AF")
  else ("solid", "#FF6B6B").

(** The variables of one call of [parseEraserFormat]. [ps_groupStack]
    has the innermost open Group last. *)
Record ParseState : Type := mkParseState {
  ps_items : list ServiceItem;
  ps_containers : list ContainerItem;
  ps_connections : list Connection;
  ps_groupStack : list ContainerItem;
  ps_itemCounter : nat;
  ps_containerCounter : nat;
  ps_itemIdMap : gmap string ServiceItem;
  ps_containerIdMap : gmap string ContainerItem
}.

Definition initialState : ParseState :=
  {| ps_items := []; ps_containers := []; ps_connections := [];
     ps_groupStack := []; ps_itemCounter := 0; ps_containerCounter := 0;
     ps_itemIdMap := ∅; ps_containerIdMap := ∅ |}.

(** The branch of the loop body that a line takes. *)
Inductive LineKind : Type :=
| Skipped
| GroupStart
| GroupEnd
| ItemDef
| ConnectionDef
| Ignored.

Definition lineKind (line : string) : LineKind :=
  if startsWith line "//" || startsWith line "direction" then Skipped
  else if includes line "[" && includes line "icon:" && includes line "{" then GroupStart
  else if bool_decide (line = "}") then GroupEnd
  else if includes line "[label:" && includes line "icon:" && negb (includes line "{")
  then ItemDef
  else if includes line " > " then ConnectionDef
  else Ignored.

(** [group?.id || null] for the top of the stack. *)
Definition topId (groupStack : list ContainerItem) : option string :=
  match last groupStack with
  | Some g => or_else (Some (cont_id g)) None
  | None => None
  end.

Section Parse.
(** The clock and the random source: [now i] is what [Date.now()]
    returns while line [i] is processed, [random36 i] what
    [Math.random().toString(36).substr(2, 9)] returns there. *)
Variables (now : nat -> Z) (random36 : nat -> string).

Definition newContainer (i : nat) (st : ParseState) (groupName : string)
  : ContainerItem :=
  let depth := Z.of_nat (length (ps_groupStack st)) in
  {| cont_id := "container-" +:+ pretty (ps_containerCounter st) +:+ "-" +:+ pretty (now i);
     cont_name := groupName;
     cont_color := (classifyGroup groupName).2;
     cont_borderStyle := Some (classifyGroup groupName).1;
     cont_x := 100 + depth * 60;
     cont_y := 100 + depth * 60;
     cont_width := Z.max (400 - depth * 40) 240;
     cont_height := Z.max (320 - depth * 40) 180;
     cont_parentContainerId := topId (ps_groupStack st);
     cont_type := "container" |}.

(** The new Node. The counter is read for the id and incremented there
    ([itemCounter++] inside the id template); the position is computed
    afterwards, from the incremented counter. *)
Definition newItem (i : nat) (st : ParseState) (itemName iconName : string)
  : ServiceItem :=
  let serviceInfo := getServiceFromIcon (trim iconName) itemName in
  let uniqueId :=
    svc_id serviceInfo +:+ "-" +:+ pretty (ps_itemCounter st) +:+ "-" +:+ pretty (now i) in
  let itemCounter := Z.of_nat (S (ps_itemCounter st)) in
  let depth := Z.of_nat (length (ps_groupStack st)) in
  {| item_id := uniqueId;
     item_name := svc_name serviceInfo;
     item_customName :=
       if bool_decide (itemName = svc_name serviceInfo) then None else Some itemName;
     item_color := svc_color serviceInfo;
     item_category := svc_category serviceInfo;
     item_x := 180 + (itemCounter mod 4) * 100 + depth * 30;
     item_y := 180 + (itemCounter / 4) * 100 + depth * 30;
     item_parentContainerId := topId (ps_groupStack st);
     item_type := "service" |}.

Definition newConnection (i : nat) (fromItem toItem : ServiceItem)
    (label : option string) : Connection :=
  {| conn_id := "conn-" +:+ pretty (now i) +:+ "-" +:+ random36 i;
     conn_from := item_id fromItem;
     conn_to := item_id toItem;
     conn_label := or_else label (Some "") |}.

Definition cap (caps : gmap nat string) (n : nat) : string :=
  default "" (caps !! n).

(** The body of the loop over the lines, for line number [i]. *)
Definition parse_line (i : nat) (st : ParseState) (line : string) : ParseState :=
  match lineKind line with
  | Skipped => st
  | GroupStart =>
      match search groupRegex line with
      | Some caps =>
          let container := newContainer i st (cap caps 2) in
          {| ps_items := ps_items st;
             ps_containers := ps_containers st ++ [container];
             ps_connections := ps_connections st;
             ps_groupStack := ps_groupStack st ++ [container];
             ps_itemCounter := ps_itemCounter st;
             ps_containerCounter := S (ps_containerCounter st);
             ps_itemIdMap := ps_itemIdMap st;
             ps_containerIdMap := <[cap caps 1 := container]> (ps_containerIdMap st) |}
      | None => st
      end
  | GroupEnd =>
      {| ps_items := ps_items st;
         ps_containers := ps_containers st;
         ps_connections := ps_connections st;
         ps_groupStack := removelast (ps_groupStack st);
         ps_itemCounter := ps_itemCounter st;
         ps_containerCounter := ps_containerCounter st;
         ps_itemIdMap := ps_itemIdMap st;
         ps_containerIdMap := ps_containerIdMap st |}
  | ItemDef =>
      match search itemRegex line with
      | Some caps =>
          let item := newItem i st (cap caps 2) (cap caps 3) in
          {| ps_items := ps_items st ++ [item];
             ps_containers := ps_containers st;
             ps_connections := ps_connections st;
             ps_groupStack := ps_groupStack st;
             ps_itemCounter := S (ps_itemCounter st);
             ps_containerCounter := ps_containerCounter st;
             ps_itemIdMap := <[cap caps 1 := item]> (ps_itemIdMap st);
             ps_containerIdMap := ps_containerIdMap st |}
      | None => st
      end
  | ConnectionDef =>
      match search connectionRegex line with
      | Some caps =>
          match ps_itemIdMap st !! cap caps 1, ps_itemIdMap st !! cap caps 2 with
          | Some fromItem, Some toItem =>
              {| ps_items := ps_items st;
                 ps_containers := ps_containers st;
                 ps_connections :=
                   ps_connections st ++ [newConnection i fromItem toItem (caps !! 3%nat)];
                 ps_groupStack := ps_groupStack st;
                 ps_itemCounter := ps_itemCounter st;
                 ps_containerCounter := ps_containerCounter st;
                 ps_itemIdMap := ps_itemIdMap st;
                 ps_containerIdMap := ps_containerIdMap st |}
          | _, _ => st
          end
      | None => st
      end
  | Ignored => st
  end.

Fixpoint parse_lines (i : nat) (st : ParseState) (lines : list string) : ParseState :=
  match lines with
  | [] => st
  | line :: rest => parse_lines (S i) (parse_line i st line) rest
  end.

(** [text.split('\n').map(line => line.trim()).filter(line => line.length > 0)] *)
Definition linesOf (mermaidText : string) : list string :=
  filter (fun line => bool_decide (line <> "")) (map trim (split_lines mermaidText)).

Record ParseResult : Type := mkParseResult {
  res_items : list ServiceItem;
  res_containers : list ContainerItem;
  res_connections : list Connection
}.

Definition resultOf (st : ParseState) : ParseResult :=
  {| res_items := ps_items st;
     res_containers := ps_containers st;
     res_connections := ps_connections st |}.

Definition parseEraserFormat (mermaidText : string) : ParseResult :=
  resultOf (parse_lines 0 initialState (linesOf mermaidText)).

End Parse.

(** A clock and a random source for examples. *)
Definition example_now : nat -> Z := fun _ => 1700000000000.

Definition example_random36 : nat -> string := fun _ => "k3x9q2mzp".

(** Writing DSL text in examples: an apostrophe stands for a double
    quote. *)
Fixpoint dsl (s : string) : string :=
  match s with
  | EmptyString => EmptyString
  | String c r => String (if Ascii.eqb c "'"%char then quote else c) (dsl r)
  end.

End Parser.

(** ** [src/App.tsx]: the two emitters *)

Module Emitters.
Import Js Hierarchy Parser.

Definition logoMap : list (string * string) :=
  [
    ("User", "user");
    ("Developer", "user");
    ("EC2", "aws-ec2");
    ("Lambda", "aws-lambda");
    ("ECS", "aws-elastic-container-service");
    ("ECS Fargate", "aws-fargate");
    ("ECR", "aws-elastic-container-registry");
    ("EKS", "aws-elastic-kubernetes-service");
    ("Batch", "aws-batch");
    ("RDS", "aws-rds");
    ("DynamoDB", "aws-dynamodb");
    ("Aurora", "aws-aurora");
    ("ElastiCache", "aws-elasticache");
    ("Redshift", "aws-redshift");
    ("DocumentDB", "aws-documentdb");
    ("S3", "aws-simple-storage-service");
    ("ECR", "aws-elastic-container-registry");
    ("EFS", "aws-efs");
    ("FSx", "aws-fsx");
    ("Glacier", "aws-simple-storage-service-glacier");
    ("On-Premises", "on-premises-server");
    ("Data Center", "data-center");
    ("Corporate Network", "corporate-network");
    ("CloudFront", "aws-cloudfront");
    ("VPC", "aws-vpc");
    ("ELB", "aws-elastic-load-balancing");
    ("ALB", "aws-elb-application-load-balancer");
    ("Route 53", "aws-route-53");
    ("Direct Connect", "aws-direct-connect");
    ("Transit Gateway", "aws-transit-gateway");
    ("VPC Peering", "aws-vpc-peering");
    ("NAT Gateway", "aws-nat-gateway");
    ("Internet Gateway", "aws-internet-gateway");
    ("VPN Gateway", "aws-vpn-gateway");
    ("Customer Gateway", "aws-customer-gateway");
    ("API Gateway", "aws-api-gateway");
    ("SNS", "aws-simple-notification-service");
    ("SQS", "aws-simple-queue-service");
    ("Step Functions", "aws-step-functions");
    ("EventBridge", "aws-eventbridge");
    ("AppSync", "aws-appsync");
    ("CloudWatch", "aws-cloudwatch");
    ("CloudFormation", "aws-cloudformation");
    ("CloudTrail", "aws-cloudtrail");
    ("Config", "aws-config");
    ("Systems Manager", "aws-systems-manager");
    ("X-Ray", "aws-x-ray");
    ("Organizations", "aws-organizations");
    ("Cognito", "aws-cognito");
    ("ACM", "aws-certificate-manager");
    ("IAM", "aws-identity-and-access-management");
    ("KMS", "aws-key-management-service");
    ("Secrets Manager", "aws-secrets-manager");
    ("WAF", "aws-waf");
    ("Shield", "aws-shield");
    ("Inspector", "aws-inspector");
    ("GuardDuty", "aws-guardduty");
    ("Verified Access", "aws-verified-access");
    ("Kinesis", "aws-kinesis");
    ("Kinesis Firehose", "aws-kinesis-firehose");
    ("Kinesis Analytics", "aws-kinesis-data-analytics");
    ("Glue", "aws-glue");
    ("Athena", "aws-athena");
    ("EMR", "aws-emr");
    ("OpenSearch", "aws-opensearch-service");
    ("QuickSight", "aws-quicksight");
    ("SageMaker", "aws-sagemaker");
    ("Comprehend", "aws-comprehend");
    ("Rekognition", "aws-rekognition");
    ("Textract", "aws-textract");
    ("Translate", "aws-translate");
    ("Polly", "aws-polly");
    ("Lex", "aws-lex");
    ("Bedrock", "aws-bedrock");
    ("IoT Core", "aws-iot-core");
    ("IoT Device Management", "aws-iot-device-management");
    ("IoT Analytics", "aws-iot-analytics");
    ("IoT Greengrass", "aws-iot-greengrass");
    ("IoT SiteWise", "aws-iot-sitewise");
    ("CodeBuild", "aws-codebuild");
    ("CodePipeline", "aws-codepipeline");
    ("CodeDeploy", "aws-codedeploy");
    ("CodeCommit", "aws-codecommit");
    ("CodeArtifact", "aws-codeartifact");
    ("CodeConnection", "aws-codestar");
    ("GitHub", "github") ].

(** [logoMap[serviceName] || 'aws-ec2'] *)
Definition getEraserIconName (serviceName : string) : string :=
  match lookup_table logoMap serviceName with
  | Some icon => if truthy_string icon then icon else "aws-ec2"
  | None => "aws-ec2"
  end.

Definition alnum (c : ascii) : bool :=
  let n := nat_of_ascii c in
  ((48 <=? n) && (n <=? 57) || (65 <=? n) && (n <=? 90)
   || (97 <=? n) && (n <=? 122))%nat.

(** [id.replace(/[^a-zA-Z0-9]/g, '_')] *)
Fixpoint sanitize (id : string) : string :=
  match id with
  | EmptyString => EmptyString
  | String c r => String (if alnum c then c else "_"%char) (sanitize r)
  end.

(** [s.repeat(n)] *)
Fixpoint repeat_string (s : string) (n : nat) : string :=
  match n with
  | O => EmptyString
  | S n' => s +:+ repeat_string s n'
  end.

Definition nl : string := String "010"%char EmptyString.

Definition dq : string := String quote EmptyString.

(** [item.customName || item.name] *)
Definition nodeName (item : ServiceItem) : string :=
  match item_customName item with
  | Some n => if truthy_string n then n else item_name item
  | None => item_name item
  end.

(** The source builds its output by appending pieces of text. A
    [Piece] is one such append, with a tag that tells which statement
    of the source appended it: the opening line of a Group, the line of
    a Node, the closing line of a Group, the line of an Edge, the style
    directive of a Node, or other text (headers, separators). The tag
    takes no part in the text. *)
Inductive Tag : Type :=
| OpenGroup (g : ContainerItem)
| NodeLine (item : ServiceItem)
| CloseGroup (g : ContainerItem)
| EdgeLine (c : Connection)
| StyleLine (item : ServiceItem)
| Other.

Record Piece : Type := mkPiece {
  tag : Tag;
  text : string
}.

Global Instance Tag_eq_dec : EqDecision Tag.
Proof. solve_decision. Defined.

(** [boardItems.filter(item => item.parentContainerId === container.id)] *)
Definition itemsInContainer (boardItems : list ServiceItem) (container : ContainerItem)
  : list ServiceItem :=
  filter (fun item => bool_decide (item_parentContainerId item = Some (cont_id container)))
         boardItems.

(** [containers.filter(c => c.parentContainerId === container.id)] *)
Definition childContainers (containers : list ContainerItem) (container : ContainerItem)
  : list ContainerItem :=
  filter (fun c => bool_decide (cont_parentContainerId c = Some (cont_id container)))
         containers.

(** [boardItems.filter(item => !item.parentContainerId)] *)
Definition itemsNotInContainer (boardItems : list ServiceItem) : list ServiceItem :=
  filter (fun item => negb (truthy (item_parentContainerId item))) boardItems.

(** [containers.filter(container => !container.parentContainerId)] *)
Definition rootContainers (containers : list ContainerItem) : list ContainerItem :=
  filter (fun container => negb (truthy (cont_parentContainerId container))) containers.

Section Mermaid.
Variables (boardItems : list ServiceItem) (containers : list ContainerItem)
          (connections : list Connection).

(** *** The eraser.io format *)

Definition eraserNode (indent : string) (item : ServiceItem) : Piece :=
  {| tag := NodeLine item;
     text := indent +:+ sanitize (item_id item) +:+ " [label: " +:+ dq +:+ nodeName item
             +:+ dq +:+ ", icon: " +:+ getEraserIconName (item_name item) +:+ "]" +:+ nl |}.

Definition groupIcon (container : ContainerItem) : string :=
  let n := toLowerCase (cont_name container) in
  if includes n "aws" || includes n "cloud" then "aws-cloud"
  else if includes n "github" then "github"
  else
    match itemsInContainer boardItems container with
    | first :: _ => getEraserIconName (item_name first)
    | [] => "aws-vpc"
    end.

(** The recursion of the source is not bounded; [fuel] bounds it here,
    and [None] is a traversal that has not ended within [fuel] nested
    calls. *)
Fixpoint exportContainerRecursive (fuel : nat) (containerId : string) (depth : nat)
  : option (list Piece) :=
  match fuel with
  | O => None
  | S fuel' =>
      match find_container containers containerId with
      | None => Some []
      | Some container =>
          children ← mapM (fun childContainer =>
                             exportContainerRecursive fuel' (cont_id childContainer) (S depth))
                          (childContainers containers container);
          Some
            ([ {| tag := OpenGroup container;
                  text := repeat_string "  " depth +:+ sanitize (cont_id container)
                          +:+ " [label: " +:+ dq +:+ cont_name container +:+ dq
                          +:+ ", icon: " +:+ groupIcon container +:+ "] {" +:+ nl |} ]
             ++ map (eraserNode (repeat_string "  " (S depth)))
                    (itemsInContainer boardItems container)
             ++ concat children
             ++ [ {| tag := CloseGroup container;
                     text := repeat_string "  " depth +:+ "}" +:+ nl |} ])
      end
  end.

(** [connection.label && connection.label.trim()] *)
Definition labelled (c : Connection) : option string :=
  match conn_label c with
  | Some l => if truthy_string l && truthy_string (trim l) then Some l else None
  | None => None
  end.

Definition eraserEdge (c : Connection) : Piece :=
  {| tag := EdgeLine c;
     text :=
       match labelled c with
       | Some l => sanitize (conn_from c) +:+ " > " +:+ sanitize (conn_to c)
                   +:+ " : " +:+ dq +:+ l +:+ dq +:+ nl
       | None => sanitize (conn_from c) +:+ " > " +:+ sanitize (conn_to c) +:+ nl
       end |}.

Definition exportEraser (fuel : nat) : option (list Piece) :=
  groups ← mapM (fun container =>
                   code ← exportContainerRecursive fuel (cont_id container) 0;
                   Some (code ++ [ {| tag := Other; text := nl |} ]))
                (rootContainers containers);
  Some
    ([ {| tag := Other; text := "direction right" +:+ nl +:+ nl |} ]
     ++ map (eraserNode "") (itemsNotInContainer boardItems)
     ++ (if bool_decide (itemsNotInContainer boardItems = []) then []
         else [ {| tag := Other; text := nl |} ])
     ++ concat groups
     ++ (if bool_decide (connections = []) then []
         else {| tag := Other; text := "// Connections" +:+ nl |}
              :: map eraserEdge connections)).

(** *** The flowchart format *)

Definition flowchartNode (indent : string) (item : ServiceItem) : Piece :=
  {| tag := NodeLine item;
     text := indent +:+ sanitize (item_id item) +:+ "[" +:+ dq +:+ nodeName item
             +:+ dq +:+ "]" +:+ nl |}.

Fixpoint exportFlowchartContainerRecursive (fuel : nat) (containerId : string)
    (depth : nat) : option (list Piece) :=
  match fuel with
  | O => None
  | S fuel' =>
      match find_container containers containerId with
      | None => Some []
      | Some container =>
          let indent := repeat_string "    " depth in
          children ← mapM (fun childContainer =>
                             exportFlowchartContainerRecursive fuel'
                               (cont_id childContainer) (S depth))
                          (childContainers containers container);
          Some
            ([ {| tag := OpenGroup container;
                  text := nl +:+ indent +:+ "subgraph " +:+ sanitize (cont_id container)
                          +:+ "[" +:+ dq +:+ cont_name container +:+ dq +:+ "]" +:+ nl |} ]
             ++ map (flowchartNode (indent +:+ "    "))
                    (itemsInContainer boardItems container)
             ++ concat children
             ++ [ {| tag := CloseGroup container; text := indent +:+ "end" +:+ nl |} ])
      end
  end.

Definition flowchartEdge (c : Connection) : Piece :=
  {| tag := EdgeLine c;
     text :=
       match labelled c with
       | Some l => "    " +:+ sanitize (conn_from c) +:+ " -->|" +:+ dq +:+ l +:+ dq
                   +:+ "| " +:+ sanitize (conn_to c) +:+ nl
       | None => "    " +:+ sanitize (conn_from c) +:+ " --> " +:+ sanitize (conn_to c) +:+ nl
       end |}.

Definition flowchartStyle (item : ServiceItem) : Piece :=
  {| tag := StyleLine item;
     text := "    style " +:+ sanitize (item_id item) +:+ " fill:" +:+ item_color item
             +:+ ",stroke:#333,stroke-width:2px,color:#fff" +:+ nl |}.

Definition exportFlowchart (fuel : nat) : option (list Piece) :=
  groups ← mapM (fun container =>
                   exportFlowchartContainerRecursive fuel (cont_id container) 1)
                (rootContainers containers);
  Some
    ([ {| tag := Other; text := "flowchart TD" +:+ nl |} ]
     ++ map (flowchartNode "    ") (itemsNotInContainer boardItems)
     ++ concat groups
     ++ (if bool_decide (connections = []) then []
         else {| tag := Other; text := nl +:+ "    %% Connections" +:+ nl |}
              :: map flowchartEdge connections)
     ++ [ {| tag := Other; text := nl +:+ "    %% Styling" +:+ nl |} ]
     ++ map flowchartStyle boardItems).

(** [mermaidCode], the text that goes to the clipboard. *)
Definition mermaidCode (exportFormat : string) (fuel : nat) : option string :=
  pieces ← (if bool_decide (exportFormat = "eraser") then exportEraser fuel
            else exportFlowchart fuel);
  Some (foldr (fun p s => text p +:+ s) "" pieces).

End Mermaid.

End Emitters.

(** ** [src/utils/compression.ts]: share links *)

Module Share.
Import Js Compression.

(** The [new Error(...)] of [generateShareUrl]. *)
Inductive share_exn : Type :=
| ErrShareUrl.

Inductive outcome (A : Type) : Type :=
| Returned (a : A)
| Thrown (e : share_exn).

Arguments Returned {A} a.
Arguments Thrown {A} e.

(** The browser objects the share links are built on, none of them code
    of this repository: [window.location] and the [URL] class.
    [URL_searchParams_get url name] is
    [new URL(url).searchParams.get(name)]; [new URL] throws on text that
    is not a URL, and [get] returns [null] for a parameter that is not
    there. *)
Class UrlLayer : Type := {
  location_origin : string;
  location_pathname : string;
  URL_searchParams_get : string -> string -> result (option string)
}.

Section Links.
Context `{TextLayer} `{UrlLayer}.

Definition generateShareUrl (data : option ArchitectureData) : outcome string :=
  match compressData data with
  | Ok compressed =>
      let baseUrl := location_origin +:+ location_pathname in
      Returned (baseUrl +:+ "?data=" +:+ compressed)
  | Throw _ => Thrown ErrShareUrl
  end.

Definition parseSharedUrl (url : string) : result (option ArchitectureData) :=
  try_catch
    (dataParam ← URL_searchParams_get url "data";
     if negb (truthy dataParam) then Ok None
     else decompressData (default "" dataParam) true)
    (fun _ => Ok None).

End Links.

(** *** Browser objects to run the links on examples

    [example_url_layer] reads a parameter as the text after the first
    [?name=]; [legacy_layer] is a text layer whose [atob] knows the
    base64 text of [example_json]. *)
Fixpoint after_marker (marker s : string) : option string :=
  if startsWith s marker then Some (String.substring (String.length marker) (String.length s) s)
  else
    match s with
    | EmptyString => None
    | String _ r => after_marker marker r
    end.

Definition example_url_layer : UrlLayer :=
  {| location_origin := "https://example.com";
     location_pathname := "/otak-aws";
     URL_searchParams_get := fun url name =>
       if startsWith url "https://" then Ok (after_marker ("?" +:+ name +:+ "=") url)
       else Throw ErrExternal |}.

Definition legacy_layer : TextLayer :=
  {| LZ_compressToEncodedURIComponent := fun s => String "N" s;
     LZ_decompressFromEncodedURIComponent := fun s =>
       match s with
       | String "N" r => Some r
       | _ => None
       end;
     JSON_stringify := example_stringify;
     JSON_parse := example_parse;
     atob := fun s =>
       if bool_decide (s = "bGVnYWN5") then Ok example_json else Throw ErrExternal |}.

End Share.

(** ** [src/App.tsx]: the board and its handlers *)

Module Board.
Import Js Hierarchy.

(** Object spreads with overrides: [{...item, parentContainerId: p}]
    and the like. *)
Definition withItemParent (item : ServiceItem) (p : option string) : ServiceItem :=
  {| item_id := item_id item; item_name := item_name item;
     item_customName := item_customName item; item_color := item_color item;
     item_category := item_category item; item_x := item_x item; item_y := item_y item;
     item_parentContainerId := p; item_type := item_type item |}.

Definition withItemPosition (item : ServiceItem) (x y : Z) : ServiceItem :=
  {| item_id := item_id item; item_name := item_name item;
     item_customName := item_customName item; item_color := item_color item;
     item_category := item_category item; item_x := x; item_y := y;
     item_parentContainerId := item_parentContainerId item; item_type := item_type item |}.

Definition withItemCustomName (item : ServiceItem) (n : option string) : ServiceItem :=
  {| item_id := item_id item; item_name := item_name item;
     item_customName := n; item_color := item_color item;
     item_category := item_category item; item_x := item_x item; item_y := item_y item;
     item_parentContainerId := item_parentContainerId item; item_type := item_type item |}.

Definition withGeometry (c : ContainerItem) (x y w h : Z) : ContainerItem :=
  {| cont_id := cont_id c; cont_name := cont_name c; cont_color := cont_color c;
     cont_borderStyle := cont_borderStyle c; cont_x := x; cont_y := y;
     cont_width := w; cont_height := h;
     cont_parentContainerId := cont_parentContainerId c; cont_type := cont_type c |}.

Definition withContainerParent (c : ContainerItem) (p : option string) : ContainerItem :=
  {| cont_id := cont_id c; cont_name := cont_name c; cont_color := cont_color c;
     cont_borderStyle := cont_borderStyle c; cont_x := cont_x c; cont_y := cont_y c;
     cont_width := cont_width c; cont_height := cont_height c;
     cont_parentContainerId := p; cont_type := cont_type c |}.

Definition withLabel (c : Connection) (l : option string) : Connection :=
  {| conn_id := conn_id c; conn_from := conn_from c; conn_to := conn_to c;
     conn_label := l |}.

(** [parentContainer?.id || null] *)
Definition idOrNull (parentContainer : option ContainerItem) : option string :=
  match parentContainer with
  | Some g => or_else (Some (cont_id g)) None
  | None => None
  end.

(** [item.customName || item.name] *)
Definition displayName (item : ServiceItem) : string :=
  match item_customName item with
  | Some n => if truthy_string n then n else item_name item
  | None => item_name item
  end.

(** *** Descendants and depth *)

Section Canvas.
Variables (boardItems : list ServiceItem) (containers : list ContainerItem).

(** The recursion of the source is not bounded; [fuel] bounds it here.
    The [forEach] runs over the direct child Groups and appends what
    each recursive call returns. *)
Fixpoint getAllChildrenOfContainer (fuel : nat) (containerId : string)
  : option (list ServiceItem * list ContainerItem) :=
  match fuel with
  | O => None
  | S fuel' =>
      let services :=
        filter (fun item => bool_decide (item_parentContainerId item = Some containerId))
               boardItems in
      let direct :=
        filter (fun container =>
                  bool_decide (cont_parentContainerId container = Some containerId))
               containers in
      grandChildren ← mapM (fun childContainer =>
                              getAllChildrenOfContainer fuel' (cont_id childContainer))
                           direct;
      Some (services ++ concat (map fst grandChildren),
            direct ++ concat (map snd grandChildren))
  end.

(** [getContainerDepth] of the render block; unbounded in the source. *)
Fixpoint getContainerDepth (fuel : nat) (containerId : string) : option nat :=
  match fuel with
  | O => None
  | S fuel' =>
      match find_container containers containerId with
      | None => Some O
      | Some container =>
          if truthy (cont_parentContainerId container)
          then S <$> getContainerDepth fuel' (default "" (cont_parentContainerId container))
          else Some O
      end
  end.

(** The Groups in the order they are rendered, each with the depth the
    render block computes for it:
    [[...containers].sort((a, b) => getContainerDepth(a.id) - getContainerDepth(b.id))]
    followed by the [map] that calls [getContainerDepth] on every
    Group. The block returns only if every one of these calls does. *)
Definition sortedContainers (fuel : nat) : option (list (ContainerItem * nat)) :=
  let depth c := Z.of_nat (default O (getContainerDepth fuel (cont_id c))) in
  mapM (fun container =>
          d ← getContainerDepth fuel (cont_id container);
          Some (container, d))
       (sort (fun a b => depth a - depth b) containers).

End Canvas.

(** *** The grid *)

Section Grid.
Variables (snapToGrid : bool) (gridSize serviceSize : Z).

(** [Math.round(a / b)] for integers [a] and [b > 0]: the quotient
    rounded to the nearest integer, a half upwards. *)
Definition round_div (a b : Z) : Z := (2 * a + b) / (2 * b).


Definition snapToGridPosition (x y : Z) : Z * Z :=
  if snapToGrid
  then (round_div x gridSize * gridSize, round_div y gridSize * gridSize)
  else (x, y).

(** The arithmetic of the grid and of the handlers is written on
    integers. It is the arithmetic of the source, in doubles, for a
    positive grid size and numbers up to [2^40] in magnitude: no sum,
    difference or product on the way reaches [2^53], and the quotients
    that [Math.round] and [Math.ceil] read are rounded to the same
    integer as in the exact division. *)
Definition small (z : Z) : Prop := Z.abs z <= 2 ^ 40.


(** The callback that [adjustContainerSize] schedules; [containers] is
    the collection its closure holds. *)
Definition reparentOutside (boardItems : list ServiceItem)
    (containers : list ContainerItem) (containerId : string) : list ServiceItem :=
  map (fun item =>
         if bool_decide (item_parentContainerId item = Some containerId) then item
         else withItemParent item
                (idOrNull (findParentContainer containers (item_x item) (item_y item)
                             serviceSize serviceSize None)))
      boardItems.

End Grid.

(** *** The board state and the undo history

    Of the state of the component, the three collections, the undo
    history and the flag that suspends it. *)
Record HistoryState : Type := mkHistoryState {
  hist_boardItems : list ServiceItem;
  hist_containers : list ContainerItem;
  hist_connections : list Connection;
  hist_timestamp : Z
}.

Record AppState : Type := mkAppState {
  app_boardItems : list ServiceItem;
  app_containers : list ContainerItem;
  app_connections : list Connection;
  app_undoHistory : list HistoryState;
  app_isUndoing : bool
}.

Definition maxHistorySize : nat := 50.

(** [now] is what [Date.now()] returns in the call. *)
Definition saveToHistory (now : Z) (st : AppState) : AppState :=
  if app_isUndoing st then st
  else
    let currentState :=
      {| hist_boardItems := app_boardItems st;
         hist_containers := app_containers st;
         hist_connections := app_connections st;
         hist_timestamp := now |} in
    let newHistory := app_undoHistory st ++ [currentState] in
    {| app_boardItems := app_boardItems st;
       app_containers := app_containers st;
       app_connections := app_connections st;
       app_undoHistory :=
         if bool_decide (maxHistorySize < length newHistory)%nat
         then drop (length newHistory - maxHistorySize) newHistory
         else newHistory;
       app_isUndoing := app_isUndoing st |}.

Definition executeUndo (st : AppState) : AppState :=
  match last (app_undoHistory st) with
  | None => st
  | Some previousState =>
      {| app_boardItems := hist_boardItems previousState;
         app_containers := hist_containers previousState;
         app_connections := hist_connections previousState;
         app_undoHistory := take (length (app_undoHistory st) - 1) (app_undoHistory st);
         app_isUndoing := true |}
  end.

(** The timer that [executeUndo] sets: [setIsUndoing(false)]. *)
Definition undoTimerElapsed (st : AppState) : AppState :=
  {| app_boardItems := app_boardItems st;
     app_containers := app_containers st;
     app_connections := app_connections st;
     app_undoHistory := app_undoHistory st;
     app_isUndoing := false |}.

(** The state after the setters of a handler have run. *)
Definition withCollections (st : AppState) (items : list ServiceItem)
    (groups : list ContainerItem) (edges : list Connection) : AppState :=
  {| app_boardItems := items;
     app_containers := groups;
     app_connections := edges;
     app_undoHistory := app_undoHistory st;
     app_isUndoing := app_isUndoing st |}.

(** *** Removing *)

Definition removeItem (now : Z) (st : AppState) (itemId : string) : AppState :=
  let st := saveToHistory now st in
  withCollections st
    (filter (fun item => negb (bool_decide (item_id item = itemId))) (app_boardItems st))
    (app_containers st)
    (filter (fun conn => negb (bool_decide (conn_from conn = itemId))
                         && negb (bool_decide (conn_to conn = itemId)))
            (app_connections st)).

Definition removeContainer (fuel : nat) (now : Z) (st : AppState) (containerId : string)
  : option AppState :=
  let saved := saveToHistory now st in
  allChildren ← getAllChildrenOfContainer (app_boardItems st) (app_containers st)
                  fuel containerId;
  let containerIdsToRemove := containerId :: map cont_id allChildren.2 in
  Some
    (withCollections saved
       (map (fun item =>
               withItemParent item
                 (if existsb (fun s => bool_decide (item_id s = item_id item)) allChildren.1
                  then None else item_parentContainerId item))
            (app_boardItems saved))
       (filter (fun container => negb (bool_decide (cont_id container ∈ containerIdsToRemove)))
               (app_containers saved))
       (app_connections saved)).

Definition removeConnection (now : Z) (st : AppState) (connectionId : string) : AppState :=
  let st := saveToHistory now st in
  withCollections st (app_boardItems st) (app_containers st)
    (filter (fun conn => negb (bool_decide (conn_id conn = connectionId)))
            (app_connections st)).

(** [clearBoard] calls [saveToHistory] first and ends on
    [setUndoHistory([])]: the updater that [saveToHistory] has queued
    runs before it, so the history is empty after the handler. *)
Definition clearBoard (now : Z) (st : AppState) : AppState :=
  let saved := saveToHistory now st in
  {| app_boardItems := [];
     app_containers := [];
     app_connections := [];
     app_undoHistory := [];
     app_isUndoing := app_isUndoing saved |}.

(** *** Editing labels *)

Definition handleLabelSubmit (now : Z) (st : AppState) (serviceId editingText : string)
  : AppState :=
  let currentItem :=
    List.find (fun item => bool_decide (item_id item = serviceId)) (app_boardItems st) in
  let newName :=
    if truthy_string (trim editingText) then Some (trim editingText)
    else item_name <$> currentItem in
  let saved :=
    match currentItem with
    | Some cur =>
        if bool_decide (newName = Some (displayName cur)) then st
        else saveToHistory now st
    | None => st
    end in
  withCollections saved
    (map (fun item => if bool_decide (item_id item = serviceId)
                      then withItemCustomName item newName else item)
         (app_boardItems saved))
    (app_containers saved) (app_connections saved).

Definition handleConnectionLabelSubmit (now : Z) (st : AppState)
    (connectionId editingConnectionText : string) : AppState :=
  let currentConnection :=
    List.find (fun conn => bool_decide (conn_id conn = connectionId)) (app_connections st) in
  let newLabel := trim editingConnectionText in
  let saved :=
    match currentConnection with
    | Some cur =>
        if bool_decide (Some newLabel = or_else (conn_label cur) (Some "")) then st
        else saveToHistory now st
    | None => st
    end in
  withCollections saved (app_boardItems saved) (app_containers saved)
    (map (fun conn => if bool_decide (conn_id conn = connectionId)
                      then withLabel conn (Some newLabel) else conn)
         (app_connections saved)).

(** *** Dropping

    [handleUnifiedDrop], by the type of the dragged object. [x] and [y]
    are the position computed from the pointer, [boardWidth] and
    [boardHeight] the size of the board's rectangle. A dragged object
    is a copy of a Node or Group of the board, or an entry of the
    palette; an entry of the palette has no position and no size, which
    are [0] here (the source reads them through [||] only, or not at
    all). The source tells the two cases apart by
    [draggedItem.type || 'service']; here a dragged Node and a dragged
    Group are values of two types, and each branch is a function. The
    state is the one the handler leaves: [adjustContainerSize], which
    the handler schedules with [setTimeout] for a moved Group, runs
    later ([adjustAfterDrop] below). *)
Section Drop.
Variables (snapToGrid : bool) (gridSize serviceSize boardWidth boardHeight : Z).

Definition dropService (now : Z) (st : AppState) (draggedItem : ServiceItem) (x y : Z)
  : AppState :=
  let finalX := Z.max 0 (Z.min x (boardWidth - serviceSize)) in
  let finalY := Z.max 0 (Z.min y (boardHeight - serviceSize)) in
  let snapped := snapToGridPosition snapToGrid gridSize finalX finalY in
  let finalX := snapped.1 in
  let finalY := snapped.2 in
  let parentContainer :=
    findParentContainer (app_containers st) finalX finalY serviceSize serviceSize None in
  if existsb (fun item => bool_decide (item_id item = item_id draggedItem))
             (app_boardItems st)
  then
    withCollections st
      (map (fun item =>
              if bool_decide (item_id item = item_id draggedItem)
              then withItemParent (withItemPosition item finalX finalY)
                     (idOrNull parentContainer)
              else item)
           (app_boardItems st))
      (app_containers st) (app_connections st)
  else
    let saved := saveToHistory now st in
    let newItem :=
      {| item_id := item_id draggedItem +:+ "-" +:+ pretty now;
         item_name := item_name draggedItem;
         item_customName := item_customName draggedItem;
         item_color := item_color draggedItem;
         item_category := item_category draggedItem;
         item_x := finalX; item_y := finalY;
         item_parentContainerId := idOrNull parentContainer;
         item_type := "service" |} in
    withCollections saved (app_boardItems saved ++ [newItem])
      (app_containers saved) (app_connections saved).

Definition dropContainer (fuel : nat) (now : Z) (st : AppState)
    (draggedItem : ContainerItem) (x y : Z) : option AppState :=
  let containerWidth :=
    if Z.eqb (cont_width draggedItem) 0 then gridSize * 3 else cont_width draggedItem in
  let containerHeight :=
    if Z.eqb (cont_height draggedItem) 0 then gridSize * 3 else cont_height draggedItem in
  let finalX := Z.max 0 (Z.min x (boardWidth - containerWidth)) in
  let finalY := Z.max 0 (Z.min y (boardHeight - containerHeight)) in
  let snapped := snapToGridPosition snapToGrid gridSize finalX finalY in
  let finalX := snapped.1 in
  let finalY := snapped.2 in
  let parentContainer :=
    findParentContainer (app_containers st) finalX finalY containerWidth containerHeight
      (Some (cont_id draggedItem)) in
  wouldCreateCircle ←
    match parentContainer with
    | Some parent =>
        wouldCreateCircularReference fuel (app_containers st)
          (cont_id draggedItem) (cont_id parent)
    | None => Some false
    end;
  if (wouldCreateCircle : bool) then Some st
  else if existsb (fun container => bool_decide (cont_id container = cont_id draggedItem))
                  (app_containers st)
  then
    let deltaX := finalX - cont_x draggedItem in
    let deltaY := finalY - cont_y draggedItem in
    allChildren ← getAllChildrenOfContainer (app_boardItems st) (app_containers st)
                    fuel (cont_id draggedItem);
    let moved :=
      map (fun container =>
             if bool_decide (cont_id container = cont_id draggedItem)
             then withContainerParent
                    (withGeometry container finalX finalY
                       (cont_width container) (cont_height container))
                    (idOrNull parentContainer)
             else container)
          (app_containers st) in
    Some
      (withCollections st
         (map (fun item =>
                 if existsb (fun child => bool_decide (item_id child = item_id item))
                            allChildren.1
                 then
                   let snappedChild :=
                     snapToGridPosition snapToGrid gridSize
                       (item_x item + deltaX) (item_y item + deltaY) in
                   withItemPosition item snappedChild.1 snappedChild.2
                 else item)
              (app_boardItems st))
         (map (fun container =>
                 if existsb (fun child => bool_decide (cont_id child = cont_id container))
                            allChildren.2
                 then
                   let snappedChild :=
                     snapToGridPosition snapToGrid gridSize
                       (cont_x container + deltaX) (cont_y container + deltaY) in
                   withGeometry container snappedChild.1 snappedChild.2
                     (cont_width container) (cont_height container)
                 else container)
              moved)
         (app_connections st))
  else
    let saved := saveToHistory now st in
    let newContainer :=
      {| cont_id := cont_id draggedItem +:+ "-" +:+ pretty now;
         cont_name := cont_name draggedItem;
         cont_color := cont_color draggedItem;
         cont_borderStyle := cont_borderStyle draggedItem;
         cont_x := finalX; cont_y := finalY;
         cont_width := containerWidth; cont_height := containerHeight;
         cont_parentContainerId := idOrNull parentContainer;
         cont_type := "container" |} in
    Some (withCollections saved (app_boardItems saved)
            (app_containers saved ++ [newContainer]) (app_connections saved)).


End Drop.

End Board.

(** ** [src/App.tsx]: telling the formats apart, and importing *)

Module Importer.
Import Js Parser Board.

Section Importing.
(** What is not code of the repository. [JSON_probe text] tells whether
    [JSON.parse(text)] returns a value [parsed] for which
    [parsed.version && parsed.boardItems !== undefined] is truthy
    (a parse error and a property read on [null] are caught alike).
    [JSON_import text] is what the JSON branch of [executeImport] reads
    from the text: [importData.boardItems || []],
    [importData.containers || []] and [importData.connections || []].
    [now], [random36] are the clock and the random source of the
    parser, [clock] is [Date.now()] in [saveToHistory]. *)
Variables (JSON_probe : string -> bool)
          (JSON_import : string ->
                         result (list ServiceItem * list ContainerItem * list Connection))
          (now : nat -> Z) (random36 : nat -> string) (clock : Z).

Definition detectFormat (text : string) : string :=
  if negb (truthy_string (trim text)) then "unknown"
  else if JSON_probe text then "json"
  else if includes text "direction right"
          || (includes text "[label:" && includes text "icon:")
          || includes text "Group "
          || includes text "[icon:"
          || (includes text "{" && includes text "icon:")
          || includes text "aws-"
          || includes text "git-branch"
  then "eraser"
  else "unknown".

(** The board after [executeImport]; the modal dialogs and the editing
    state are not part of the model. [saveToHistory] runs inside the
    [try], before the format is looked at. *)
Definition executeImport (st : AppState) (importText : string) : AppState :=
  if negb (truthy_string (trim importText)) then st
  else
    let format := detectFormat importText in
    let saved := saveToHistory clock st in
    if bool_decide (format = "json") then
      match JSON_import importText with
      | Ok (items, groups, edges) => withCollections saved items groups edges
      | Throw _ => saved
      end
    else if bool_decide (format = "eraser") then
      let r := parseEraserFormat now random36 importText in
      withCollections saved (res_items r) (res_containers r) (res_connections r)
    else saved.

End Importing.

End Importer.

(** * Properties *)

(** ** The optimize / restore pair and the URL codec *)

Module CompressionLaws.
Import Js Compression.

Lemma trim_start_all_space s : all_space s = true -> trim_start s = "".
Proof.
  induction s as [|c r IH]; simpl; [done|].
  destruct (is_space c); simpl; [auto|done].
Qed.

Lemma trim_end_empty s : trim_end s = "" <-> all_space s = true.
Proof.
  induction s as [|c r IH]; simpl; [done|].
  destruct (trim_end r) eqn:E, (is_space c) eqn:Hc; simpl; split; try done.
  - intros _. by apply IH.
  - intros Hr. apply IH in Hr. done.
Qed.

Lemma trim_start_not_space s c r : trim_start s = String c r -> is_space c = false.
Proof.
  induction s as [|a s IH]; simpl; [done|].
  destruct (is_space a) eqn:Ha; [auto|]. intros [= <- <-]. done.
Qed.

Lemma trim_start_empty s : trim_start s = "" <-> all_space s = true.
Proof.
  split; [|apply trim_start_all_space].
  induction s as [|a s IH]; simpl; [done|].
  destruct (is_space a); [auto|done].
Qed.

(** [s.trim()] is the empty string exactly when [s] is white space only. *)
Lemma trim_empty_iff s : trim s = "" <-> all_space s = true.
Proof.
  unfold trim. rewrite trim_end_empty. split.
  - intros Hs. destruct (trim_start s) as [|c r] eqn:E.
    + by apply trim_start_empty.
    + apply trim_start_not_space in E as Hc. simpl in Hs. by rewrite Hc in Hs.
  - intros Hs. by rewrite trim_start_all_space.
Qed.

Lemma label_present_iff l :
  label_present (Some l) = negb (all_space l).
Proof.
  unfold label_present. destruct l as [|c r]; [done|]. simpl truthy_string at 1.
  rewrite andb_true_l.
  destruct (all_space (String c r)) eqn:Hs.
  - apply trim_empty_iff in Hs. by rewrite Hs.
  - destruct (trim (String c r)) eqn:Ht; [|done].
    apply trim_empty_iff in Ht. congruence.
Qed.

Lemma restore_optimize_item item :
  restoreItem (optimizeItem item) = normalizeItem item.
Proof.
  destruct item as [i n cn co ca x y p t]. unfold restoreItem, optimizeItem, normalizeItem.
  simpl. f_equal.
  - case_bool_decide as Hc; simpl.
    + subst cn. rewrite andb_false_r. done.
    + rewrite andb_true_r. destruct cn as [[|]|]; done.
  - destruct p as [[|]|]; done.
Qed.

Lemma restore_optimize_container c :
  restoreContainer (optimizeContainer c) = normalizeContainer c.
Proof.
  destruct c as [i n co b x y w h p t].
  unfold restoreContainer, optimizeContainer, normalizeContainer. simpl. f_equal.
  - case_bool_decide as Hb; simpl.
    + subst b. done.
    + rewrite andb_true_r. destruct b as [[|]|]; done.
  - destruct p as [[|]|]; done.
Qed.

Lemma restore_optimize_connection c :
  restoreConnection (optimizeConnection c) = normalizeConnection c.
Proof.
  destruct c as [i f t l]. unfold restoreConnection, optimizeConnection, normalizeConnection.
  simpl. f_equal. destruct l as [l|]; [|done].
  rewrite label_present_iff. destruct (all_space l) eqn:Hs; simpl; [done|].
  destruct l; [done|done].
Qed.

Lemma restore_optimize_settings s :
  settings (restoreDataFromOptimized (optimizeDataForCompression s))
  = settings (normalize s).
Proof.
  unfold restoreDataFromOptimized, optimizeDataForCompression, normalize. simpl.
  destruct (settings_zoomLevel (settings s)) as [z|] eqn:Hz; simpl; [|done].
  destruct (Z.eqb_spec z 0) as [->|Hz0]; simpl; [done|].
  case_bool_decide as H100; simpl.
  - injection H100 as ->. done.
  - destruct (Z.eqb_spec z 0); [done|]. simpl. destruct z; done.
Qed.

Lemma restore_optimize_normalize (d : ArchitectureData) :
  restoreDataFromOptimized (optimizeDataForCompression d) = normalize d.
Proof.
  pose proof (restore_optimize_settings d) as Hs.
  destruct d as [v t bi cs cn st].
  unfold restoreDataFromOptimized, optimizeDataForCompression, normalize in *.
  simpl in *. f_equal.
  - rewrite map_map. apply map_ext. apply restore_optimize_item.
  - rewrite map_map. apply map_ext. apply restore_optimize_container.
  - rewrite map_map. apply map_ext. apply restore_optimize_connection.
  - exact Hs.
Qed.

(** C1, as amended. For every Diagram [d], [restore (optimize d)] is [d]
    field for field after the default normalisation [normalize]: an
    override that is absent, empty or equal to the base name is no
    override; a parent id that is [null] or empty is [null]; a border
    style that is absent or empty is ["solid"]; a label that is absent,
    empty or white space only is the empty label; a zoom level that is
    absent or 0 is 100. Every other field is unchanged, and the order of
    the three collections is kept. *)
Theorem restore_optimize_roundtrip (d : ArchitectureData) :
  restoreDataFromOptimized (optimizeDataForCompression d) = normalize d
  /\ version (normalize d) = version d
  /\ timestamp (normalize d) = timestamp d
  /\ map item_id (boardItems (normalize d)) = map item_id (boardItems d)
  /\ map cont_id (containers (normalize d)) = map cont_id (containers d)
  /\ map conn_id (connections (normalize d)) = map conn_id (connections d).
Proof.
  split; [apply restore_optimize_normalize|].
  destruct d as [v t bi cs cn st]. unfold normalize. simpl.
  rewrite !map_map. simpl. done.
Qed.

(** A Diagram with two Nodes and one Edge whose label is a single
    space: what the DSL parser returns for an Edge line [A > B : " "]. *)
Definition blank_label_diagram : ArchitectureData :=
  {| version := "1.0";
     timestamp := 1700000000000;
     boardItems :=
       [ {| item_id := "ec2-0-1700000000000"; item_name := "EC2";
            item_customName := Some "Web"; item_color := "#FF9900";
            item_category := "Compute"; item_x := 280; item_y := 180;
            item_parentContainerId := None; item_type := "service" |};
         {| item_id := "rds-1-1700000000000"; item_name := "RDS";
            item_customName := Some "DB"; item_color := "#527FFF";
            item_category := "Database"; item_x := 380; item_y := 180;
            item_parentContainerId := None; item_type := "service" |} ];
     containers := [];
     connections :=
       [ {| conn_id := "conn-1700000000000-k3x9q2mzp";
            conn_from := "ec2-0-1700000000000"; conn_to := "rds-1-1700000000000";
            conn_label := Some " " |} ];
     settings := Some {| zoomLevel := Some 100 |} |}.

(** A Diagram whose zoom level is 0. *)
Definition zero_zoom_diagram : ArchitectureData :=
  {| version := "1.0";
     timestamp := 1700000000000;
     boardItems := [];
     containers := [];
     connections := [];
     settings := Some {| zoomLevel := Some 0 |} |}.

(** C1, as stated, fails. With the normalisation that the claim lists
    (which leaves a label of white space and a zoom level of 0 as they
    are) the round trip of [blank_label_diagram] is not the normalised
    Diagram: the label [" "] comes back as the empty label. Nor is that
    of [zero_zoom_diagram]: the zoom level 0 comes back as 100. *)
Lemma restore_optimize_not_spec_normalize :
  restoreDataFromOptimized (optimizeDataForCompression blank_label_diagram)
  <> spec_normalize blank_label_diagram
  /\ map conn_label
         (connections (restoreDataFromOptimized
                         (optimizeDataForCompression blank_label_diagram)))
     = [Some ""]
  /\ map conn_label (connections (spec_normalize blank_label_diagram)) = [Some " "]
  /\ restoreDataFromOptimized (optimizeDataForCompression zero_zoom_diagram)
     <> spec_normalize zero_zoom_diagram.
Proof.
  split; [|split; [|split]]; [|reflexivity|reflexivity|].
  - intros Heq. apply (f_equal (fun d => map conn_label (connections d))) in Heq.
    vm_compute in Heq. discriminate.
  - intros Heq. apply (f_equal settings) in Heq. vm_compute in Heq. discriminate.
Qed.

(** Where the two normalisations agree: no field holds an empty string
    where a value is optional, no label is white space only and the zoom
    level is not 0. *)
Definition no_falsy_fields (d : ArchitectureData) : Prop :=
  Forall (fun i => item_customName i <> Some "" /\ item_parentContainerId i <> Some "")
         (boardItems d)
  /\ Forall (fun c => cont_borderStyle c <> Some "" /\ cont_parentContainerId c <> Some "")
            (containers d)
  /\ Forall (fun c => forall l, conn_label c = Some l -> all_space l = true -> l = "")
            (connections d)
  /\ settings_zoomLevel (settings d) <> Some 0.

Lemma absent_if_empty_id o : o <> Some "" -> absent_if_empty o = o.
Proof. destruct o as [[|]|]; done. Qed.

Lemma normalize_spec_normalize d : no_falsy_fields d -> normalize d = spec_normalize d.
Proof.
  intros (Hi & Hc & Hl & Hz). destruct d as [v t bi cs cn st].
  unfold normalize, spec_normalize. simpl in *. f_equal.
  - apply map_ext_in. intros i Hin. rewrite Forall_forall in Hi.
    destruct (Hi i) as [H1 H2]; [by apply list_elem_of_In|].
    unfold normalizeItem, spec_normalizeItem. by rewrite !absent_if_empty_id.
  - apply map_ext_in. intros c Hin. rewrite Forall_forall in Hc.
    destruct (Hc c) as [H1 H2]; [by apply list_elem_of_In|].
    unfold normalizeContainer, spec_normalizeContainer. by rewrite !absent_if_empty_id.
  - apply map_ext_in. intros c Hin. rewrite Forall_forall in Hl.
    specialize (Hl c). unfold normalizeConnection, spec_normalizeConnection.
    f_equal. destruct (conn_label c) as [l|]; [|done]. simpl.
    destruct (all_space l) eqn:Hs; [|done].
    rewrite (Hl ltac:(by apply list_elem_of_In) l eq_refl Hs). done.
  - destruct (settings_zoomLevel st) as [[| |]|]; done.
Qed.

(** C10. [optimize] keeps [settings] only for a zoom level that is
    neither falsy (absent or 0) nor the default 100; [restore] turns an
    absent or zero zoom level into 100; so a Diagram whose zoom level is
    0 comes back with zoom level 100. *)
Theorem zoomLevel_zero_becomes_default :
  (forall d,
     settings (optimizeDataForCompression d) =
       match settings_zoomLevel (settings d) with
       | None => None
       | Some z => if bool_decide (z = 0 \/ z = 100) then None
                   else Some {| zoomLevel := Some z |}
       end)
  /\ (forall o,
        settings_zoomLevel (settings o) = None \/ settings_zoomLevel (settings o) = Some 0 ->
        settings (restoreDataFromOptimized o) = Some {| zoomLevel := Some 100 |})
  /\ (forall d,
        settings_zoomLevel (settings d) = Some 0 ->
        settings (optimizeDataForCompression d) = None
        /\ settings (restoreDataFromOptimized (optimizeDataForCompression d))
           = Some {| zoomLevel := Some 100 |}).
Proof.
  split; [|split].
  - intros d. unfold optimizeDataForCompression. simpl.
    destruct (settings_zoomLevel (settings d)) as [z|]; simpl; [|done].
    destruct (Z.eqb_spec z 0) as [->|Hz]; simpl; [done|].
    case_bool_decide as H100; case_bool_decide as Hor; simpl; try done.
    + exfalso. apply Hor. right. by injection H100.
    + destruct Hor as [?|?]; [done|]. by subst.
  - intros o [Ho|Ho]; unfold restoreDataFromOptimized; simpl; by rewrite Ho.
  - intros d Hd. unfold restoreDataFromOptimized, optimizeDataForCompression. simpl.
    by rewrite Hd.
Qed.

Lemma zoomLevel_zero_becomes_default_witness :
  settings (restoreDataFromOptimized (optimizeDataForCompression
     {| version := "1.0"; timestamp := 0; boardItems := []; containers := [];
        connections := []; settings := Some {| zoomLevel := Some 0 |} |}))
  = Some {| zoomLevel := Some 100 |}.
Proof.
  apply (proj2 (proj2 zoomLevel_zero_becomes_default)). reflexivity.
Defined.

(** Splits the two decoding paths of [decompressData_Some] and closes
    the goal from the equations found. *)
Ltac decompose_paths Hp :=
  let t := fresh "t" in
  let Ht := fresh "Ht" in
  destruct Hp as [(t & ? & Ht & ? & ? & ?)|(? & ? & ? & ? & ? & ? & ?)];
  [ try (exfalso;
         match goal with
         | Hf : Js.truthy _ = false |- _ => rewrite Ht in Hf; destruct t; done
         end)
  | ];
  simplify_eq/=; try done; try congruence.

Section CodecLaws.
Context `{TextLayer}.

Lemma decompressData_blank s fb : all_space s = true -> decompressData s fb = Ok None.
Proof.
  intros Hs. unfold decompressData. apply trim_empty_iff in Hs. rewrite Hs.
  rewrite bool_decide_eq_true_2 by done. by rewrite orb_true_r.
Qed.

Lemma decompressData_not_blank s fb :
  all_space s = false ->
  decompressData s fb =
    try_catch
      (if truthy (LZ_decompressFromEncodedURIComponent s) then
         parsed ← JSON_parse (default "" (LZ_decompressFromEncodedURIComponent s));
         Ok (Some (restoreDataFromOptimized parsed))
       else if fb then
         r ← base64Fallback s;
         match r with
         | Some v => Ok (Some v)
         | None => Ok None
         end
       else Ok None)
      (fun _ => Ok None).
Proof.
  intros Hs. unfold decompressData.
  destruct s as [|c r]; [done|]. simpl truthy_string. simpl negb. rewrite orb_false_l.
  rewrite bool_decide_eq_false_2; [done|].
  intros Ht. apply trim_empty_iff in Ht. congruence.
Qed.

Lemma base64Fallback_total s : exists r, base64Fallback s = Ok r.
Proof.
  unfold base64Fallback. destruct (atob s) as [t|e]; simpl; [|eauto].
  destruct (JSON_parse t); simpl; eauto.
Qed.

(** No input makes [decompressData] throw. *)
Lemma decompressData_total s fb : exists r, decompressData s fb = Ok r.
Proof.
  destruct (all_space s) eqn:Hs.
  - exists None. by apply decompressData_blank.
  - rewrite decompressData_not_blank by done.
    destruct (truthy _).
    + destruct (JSON_parse _); simpl; eauto.
    + destruct fb; simpl; [|eauto].
      destruct (base64Fallback_total s) as [r ->]. simpl. destruct r; simpl; eauto.
Qed.

(** When [decompressData] returns a Diagram: exactly on the two paths
    that decode and parse. *)
Lemma decompressData_Some s fb v :
  decompressData s fb = Ok (Some v) <->
  all_space s = false /\
  ((exists t p, LZ_decompressFromEncodedURIComponent s = Some t /\ t <> "" /\
                JSON_parse t = Ok p /\ v = restoreDataFromOptimized p)
   \/ (truthy (LZ_decompressFromEncodedURIComponent s) = false /\ fb = true /\
       exists t p, atob s = Ok t /\ JSON_parse t = Ok p /\
                   v = restoreDataFromOptimized p)).
Proof.
  destruct (all_space s) eqn:Hs.
  { rewrite decompressData_blank by done. split; [done|]. by intros [? _]. }
  rewrite decompressData_not_blank by done.
  destruct (LZ_decompressFromEncodedURIComponent s) as [t|] eqn:Hlz.
  - destruct t as [|c t]; simpl.
    + destruct fb; simpl; [|split; [done|]; intros [_ Hp]; decompose_paths Hp].
      unfold base64Fallback.
      destruct (atob s) as [b|e]; simpl;
        [|split; [done|]; intros [_ Hp]; decompose_paths Hp].
      destruct (JSON_parse b) as [p|e] eqn:Hp; simpl.
      * split; [intros [= <-]; split; [done|]; right; eauto 10|].
        intros [_ Hq]. decompose_paths Hq.
      * split; [done|]. intros [_ Hq]. decompose_paths Hq.
    + destruct (JSON_parse (String c t)) as [p|e] eqn:Hp; simpl.
      * split; [intros [= <-]; split; [done|]; left; by exists (String c t), p|].
        intros [_ Hq]. decompose_paths Hq.
      * split; [done|]. intros [_ Hq]. decompose_paths Hq.
  - simpl. destruct fb; simpl; [|split; [done|]; intros [_ Hp]; decompose_paths Hp].
    unfold base64Fallback.
    destruct (atob s) as [b|e]; simpl;
      [|split; [done|]; intros [_ Hp]; decompose_paths Hp].
    destruct (JSON_parse b) as [p|e] eqn:Hp; simpl.
    + split; [intros [= <-]; split; [done|]; right; eauto 10|].
      intros [_ Hq]. decompose_paths Hq.
    + split; [done|]. intros [_ Hq]. decompose_paths Hq.
Qed.

Lemma compressData_Some d :
  compressData (Some d) =
    if truthy_string
         (LZ_compressToEncodedURIComponent (JSON_stringify (optimizeDataForCompression d)))
    then Ok (LZ_compressToEncodedURIComponent (JSON_stringify (optimizeDataForCompression d)))
    else Throw ErrCompressWrapped.
Proof. unfold compressData. simpl. by destruct (truthy_string _). Qed.

(** C3. [compressData] throws exactly when its input is absent or the
    compressor returns the empty string. [decompressData] throws on no
    input string whatever the text layer does; it returns [null] for
    empty (or blank) input, for input the compressor cannot invert when
    the legacy fallback is off or fails to decode or to parse, and for
    input that the compressor inverts to text that does not parse. *)
Theorem codec_error_policy :
  (forall data : option ArchitectureData,
     (exists e, compressData data = Throw e) <->
     (data = None \/
      exists d, data = Some d /\
        LZ_compressToEncodedURIComponent
          (JSON_stringify (optimizeDataForCompression d)) = ""))
  /\ (forall s fb, exists r, decompressData s fb = Ok r)
  /\ (forall s fb, all_space s = true -> decompressData s fb = Ok None)
  /\ (forall s,
        truthy (LZ_decompressFromEncodedURIComponent s) = false ->
        decompressData s false = Ok None)
  /\ (forall s e,
        truthy (LZ_decompressFromEncodedURIComponent s) = false ->
        (atob s = Throw e \/ exists t, atob s = Ok t /\ JSON_parse t = Throw e) ->
        decompressData s true = Ok None)
  /\ (forall s fb t e,
        LZ_decompressFromEncodedURIComponent s = Some t -> t <> "" ->
        JSON_parse t = Throw e ->
        decompressData s fb = Ok None).
Proof.
  split; [|split; [|split; [|split; [|split]]]].
  - intros [d|]; [|split; eauto]. rewrite compressData_Some.
    destruct (LZ_compressToEncodedURIComponent _) as [|c r] eqn:Hc; simpl.
    + split; eauto.
    + split; [intros [e He]; done|]. intros [?|(d' & ? & ?)]; simplify_eq. congruence.
  - apply decompressData_total.
  - apply decompressData_blank.
  - intros s Hlz. destruct (decompressData_total s false) as [[v|] Hr]; [|done].
    apply decompressData_Some in Hr as [_ Hp]. decompose_paths Hp.
  - intros s e Hlz Hfail. destruct (decompressData_total s true) as [[v|] Hr]; [|done].
    apply decompressData_Some in Hr as [_ Hp].
    destruct Hfail as [?|(? & ? & ?)]; decompose_paths Hp.
  - intros s fb t e Hlz Ht Hparse.
    destruct (decompressData_total s fb) as [[v|] Hr]; [|done].
    apply decompressData_Some in Hr as [_ Hp]. decompose_paths Hp.
    match goal with
    | Hf : truthy _ = false |- _ => rewrite Hlz in Hf; destruct t; done
    end.
Qed.


End CodecLaws.

(** The error policy on the example text layer: the marker is missing
    from ["plain"], and ["e30="] decodes to ["{}"], which is no known
    document. *)
Lemma codec_error_policy_witness :
  @decompressData example_layer "plain" false = Ok None
  /\ @decompressData example_layer "e30=" true = Ok None
  /\ @decompressData example_layer "N{" true = Ok None.
Proof.
  pose proof (@codec_error_policy example_layer) as (_ & _ & _ & H4 & H5 & H6).
  split; [|split].
  - apply H4. reflexivity.
  - apply (H5 "e30=" ErrExternal); [reflexivity|].
    right. exists "{}". split; reflexivity.
  - apply (H6 "N{" true "{" ErrExternal); [reflexivity|discriminate|reflexivity].
Defined.


End CompressionLaws.

(** ** Containment and hierarchy *)

Module HierarchyLaws.
Import Js Hierarchy.


(** A Group that [findParent] may return: not the excluded one, and
    around the rectangle by the test of the source. *)
Definition eligible (ex : option string) (x y w h : Z) (g : ContainerItem) : Prop :=
  Some (cont_id g) <> ex /\ isItemInContainer x y w h g = true.

(** The order of the doubles. *)
Definition double_le (a b : double) : Prop := double_leb a b = true.

Definition double_lt (a b : double) : Prop := double_leb b a = false.

(** *** Doubles that are exact *)





(** *** The comparator is a total preorder *)

Lemma js_sub_sign_le a b : (js_sub_sign a b <=? 0) = double_leb a b.
Proof.
  destruct a as [x| |], b as [y| |]; cbn [js_sub_sign double_leb]; try done.
  pose proof (Z.sgn_spec (x - y)) as Hs.
  destruct (Z.leb_spec (Z.sgn (x - y)) 0), (Z.leb_spec x y); try done; lia.
Qed.

Lemma double_leb_refl a : double_leb a a = true.
Proof. destruct a; cbn [double_leb]; [apply Z.leb_refl|done..]. Qed.

Lemma double_leb_total a b : double_leb a b = false -> double_leb b a = true.
Proof.
  destruct a as [x| |], b as [y| |]; cbn [double_leb]; try done.
  rewrite Z.leb_gt, Z.leb_le. lia.
Qed.

Lemma double_leb_trans a b c :
  double_leb a b = true -> double_leb b c = true -> double_leb a c = true.
Proof.
  destruct a as [x| |], b as [y| |], c as [z| |]; cbn [double_leb]; try done.
  rewrite !Z.leb_le. lia.
Qed.

Lemma double_lt_le_trans a b c : double_lt a b -> double_le b c -> double_lt a c.
Proof.
  unfold double_lt, double_le.
  destruct a as [x| |], b as [y| |], c as [z| |]; cbn [double_leb]; try done.
  rewrite !Z.leb_gt, Z.leb_le. lia.
Qed.

Lemma double_le_lt_trans a b c : double_le a b -> double_lt b c -> double_lt a c.
Proof.
  unfold double_lt, double_le.
  destruct a as [x| |], b as [y| |], c as [z| |]; cbn [double_leb]; try done.
  rewrite !Z.leb_gt, Z.leb_le. lia.
Qed.

Lemma head_sort_cons {A} (cmp : A -> A -> Z) a l :
  head (sort cmp (a :: l)) =
    match head (sort cmp l) with
    | None => Some a
    | Some b => if cmp a b <=? 0 then Some a else Some b
    end.
Proof.
  simpl. destruct (sort cmp l) as [|b r]; [done|]. simpl.
  by destruct (cmp a b <=? 0).
Qed.

Section FindParent.
Variables (x y w h : Z) (ex : option string).

Let keep (container : ContainerItem) : bool :=
  negb (bool_decide (Some (cont_id container) = ex))
  && isItemInContainer x y w h container.

Let cmp (a b : ContainerItem) : Z :=
  js_sub_sign (js_mul (cont_width a) (cont_height a))
              (js_mul (cont_width b) (cont_height b)).

Lemma keep_eligible g : keep g = true <-> eligible ex x y w h g.
Proof.
  unfold keep, eligible. rewrite andb_true_iff, negb_true_iff.
  rewrite bool_decide_eq_false. done.
Qed.

(** What the head of the sorted candidates is, by induction on the
    collection. *)
Definition first_smallest (cs : list ContainerItem) (r : option ContainerItem) : Prop :=
  match r with
  | Some g =>
      exists pre post,
        cs = pre ++ g :: post
        /\ eligible ex x y w h g
        /\ (forall g', In g' pre -> eligible ex x y w h g' ->
                       double_lt (double_area g) (double_area g'))
        /\ (forall g', In g' post -> eligible ex x y w h g' ->
                       double_le (double_area g) (double_area g'))
  | None => forall g', In g' cs -> ~ eligible ex x y w h g'
  end.

Lemma head_sort_filter_first_smallest cs :
  first_smallest cs (head (sort cmp (filter keep cs))).
Proof.
  induction cs as [|c cs IH]; [by intros g' []|].
  rewrite filter_cons. destruct (decide (keep c)) as [Hk|Hk].
  - apply Is_true_true in Hk. apply keep_eligible in Hk as He.
    rewrite head_sort_cons.
    destruct (head (sort cmp (filter keep cs))) as [b|] eqn:Hb; simpl in *.
    + destruct IH as (pre & post & -> & Hbe & Hpre & Hpost).
      unfold cmp. rewrite js_sub_sign_le. fold (double_area c) (double_area b).
      destruct (double_leb (double_area c) (double_area b)) eqn:Hcb.
      * exists [], (pre ++ b :: post). split; [done|]. split; [done|].
        split; [by intros ? []|].
        intros g' Hin Hg'. apply in_app_or in Hin as [Hin|[<-|Hin]].
        -- specialize (Hpre g' Hin Hg'). unfold double_lt in Hpre.
           apply double_leb_total in Hpre. by eapply double_leb_trans.
        -- done.
        -- specialize (Hpost g' Hin Hg'). by eapply double_leb_trans.
      * exists (c :: pre), post. split; [done|]. split; [done|]. split; [|done].
        intros g' [<-|Hin] Hg'; [done|]. by apply Hpre.
    + exists [], cs. split; [done|]. split; [done|]. split; [by intros ? []|].
      intros g' Hin Hg'. by destruct (IH g' Hin).
  - assert (~ eligible ex x y w h c) as Hne.
    { intros He. apply keep_eligible in He. apply Hk. by apply Is_true_true. }
    destruct (head (sort cmp (filter keep cs))) as [b|] eqn:Hb; simpl in *.
    + destruct IH as (pre & post & -> & Hbe & Hpre & Hpost).
      exists (c :: pre), post. split; [done|]. split; [done|]. split; [|done].
      intros g' [<-|Hin] Hg'; [done|]. by apply Hpre.
    + intros g' [<-|Hin]; [done|]. by apply IH.
Qed.

End FindParent.

(** The result of [findParentContainer] is a Group of the collection
    that is not the excluded one and passes the test of the source. *)
Lemma findParentContainer_Some cs x y w h ex g :
  findParentContainer cs x y w h ex = Some g ->
  g ∈ cs /\ Some (cont_id g) <> ex /\ isItemInContainer x y w h g = true.
Proof.
  intros Hg. pose proof (head_sort_filter_first_smallest x y w h ex cs) as Hfs.
  change (first_smallest x y w h ex cs (findParentContainer cs x y w h ex)) in Hfs.
  rewrite Hg in Hfs. destruct Hfs as (pre & post & -> & [Hex Hin] & _).
  split; [|done]. apply elem_of_app. right. apply elem_of_cons. by left.
Qed.

Lemma findParentContainer_None cs x y w h ex g :
  findParentContainer cs x y w h ex = None ->
  g ∈ cs -> Some (cont_id g) <> ex -> isItemInContainer x y w h g = false.
Proof.
  intros Hn Hg Hex. pose proof (head_sort_filter_first_smallest x y w h ex cs) as Hfs.
  change (first_smallest x y w h ex cs (findParentContainer cs x y w h ex)) in Hfs.
  rewrite Hn in Hfs. apply list_elem_of_In in Hg.
  destruct (isItemInContainer x y w h g) eqn:E; [|done]. by destruct (Hfs g Hg).
Qed.








(** *** The ancestor walk *)

Lemma find_container_Some cs id c :
  find_container cs id = Some c -> In c cs /\ cont_id c = id.
Proof.
  unfold find_container. intros Hf. apply find_some in Hf as [Hin Hid].
  by apply bool_decide_eq_true in Hid.
Qed.

Lemma find_container_None cs id :
  find_container cs id = None -> forall c, In c cs -> cont_id c <> id.
Proof.
  unfold find_container. intros Hf c Hin Hid.
  pose proof (find_none _ _ Hf c Hin) as Hn. simpl in Hn.
  by apply bool_decide_eq_false in Hn.
Qed.

(** With unique ids, looking up the id of a Group of the collection
    finds that Group. *)
Lemma find_container_In cs c :
  NoDup (map cont_id cs) -> In c cs -> find_container cs (cont_id c) = Some c.
Proof.
  unfold find_container. induction cs as [|a cs IH]; [done|].
  intros Hnd Hin. apply NoDup_cons in Hnd as [Ha Hnd]. simpl.
  case_bool_decide as Hid.
  - destruct Hin as [->|Hin]; [done|]. exfalso. apply Ha. rewrite Hid.
    apply list_elem_of_In, in_map, Hin.
  - destruct Hin as [->|Hin]; [done|]. by apply IH.
Qed.

Lemma checkParent_mono n m cs child cur b :
  checkParent n cs child cur = Some b -> (n <= m)%nat ->
  checkParent m cs child cur = Some b.
Proof.
  revert m cur. induction n as [|n IH]; intros m cur Hc Hle; [done|].
  destruct m as [|m]; [lia|]. simpl in *.
  destruct cur as [[|a s]|]; try done.
  case_bool_decide; [done|].
  destruct (find_container cs (String a s)); [|done].
  apply IH; [done|lia].
Qed.


Lemma reaches_checkParent cs child p :
  child <> "" -> Forall (fun c => cont_id c <> "") cs ->
  reaches cs child p ->
  exists n, checkParent n cs child (Some p) = Some true.
Proof.
  intros Hchild Hids Hr. induction Hr as [|cur c p Hf Hp Hr [n IH]].
  - exists 1%nat. simpl. destruct child; [done|]. by rewrite bool_decide_eq_true_2.
  - exists (S n). simpl. apply find_container_Some in Hf as Hc. destruct Hc as [Hin Hid].
    rewrite Forall_forall in Hids. specialize (Hids c ltac:(by apply list_elem_of_In)).
    rewrite Hid in Hids. destruct cur as [|a s]; [done|].
    case_bool_decide; [done|]. by rewrite Hf, Hp.
Qed.

Lemma rootDistance_checkParent n cs child p d :
  rootDistance n cs p = Some d ->
  exists b, checkParent (S n) cs child (Some p) = Some b.
Proof.
  revert p d. induction n as [|n IH]; intros p d Hd; [done|].
  simpl in Hd. destruct (find_container cs p) as [c|] eqn:Hf; [|done].
  cbn [checkParent]. destruct p as [|a s]; [eauto|].
  case_bool_decide; [eauto|]. rewrite Hf.
  destruct (cont_parentContainerId c) as [q|] eqn:Hq; [|destruct n; eauto].
  destruct (rootDistance n cs q) as [d'|] eqn:Hd'; [|done].
  by apply (IH q d').
Qed.

Lemma checkParent_total cs child cur :
  well_formed cs -> exists b, checkParent (S (S (length cs))) cs child cur = Some b.
Proof.
  intros (Hnd & Hids & Hroot). cbn [checkParent].
  destruct cur as [[|a s]|]; eauto.
  case_bool_decide; [eauto|].
  destruct (find_container cs (String a s)) as [c|] eqn:Hf; [|eauto].
  apply find_container_Some in Hf as [Hin Hid].
  rewrite Forall_forall in Hroot.
  destruct (Hroot c ltac:(by apply list_elem_of_In)) as [d Hd].
  destruct (length cs) as [|n] eqn:Hn; [done|].
  simpl in Hd. rewrite find_container_In in Hd by done.
  destruct (cont_parentContainerId c) as [q|] eqn:Hq; [|eauto].
  destruct (rootDistance n cs q) as [d'|] eqn:Hd'; [|done].
  destruct (rootDistance_checkParent n cs child q d' Hd') as [b Hb].
  exists b. change (checkParent (S (S n)) cs child (Some q) = Some b).
  apply (checkParent_mono (S n)); [done|lia].
Qed.


Definition chain_A : ContainerItem :=
  {| cont_id := "a"; cont_name := "AWS Cloud"; cont_color := "#FF9900";
     cont_borderStyle := Some "solid"; cont_x := 0; cont_y := 0;
     cont_width := 640; cont_height := 480; cont_parentContainerId := None;
     cont_type := "container" |}.

Definition chain_B : ContainerItem :=
  {| cont_id := "b"; cont_name := "VPC"; cont_color := "#FF6B6B";
     cont_borderStyle := Some "solid"; cont_x := 40; cont_y := 40;
     cont_width := 400; cont_height := 320; cont_parentContainerId := Some "a";
     cont_type := "container" |}.

Definition chain_C : ContainerItem :=
  {| cont_id := "c"; cont_name := "Subnet"; cont_color := "#94A3B8";
     cont_borderStyle := Some "dashed"; cont_x := 80; cont_y := 80;
     cont_width := 240; cont_height := 180; cont_parentContainerId := Some "b";
     cont_type := "container" |}.


(** *** Hierarchies whose parents come earlier *)

Lemma rootDistance_of_earlier_parents cs :
  NoDup (map cont_id cs) ->
  (forall n c, cs !! n = Some c ->
     cont_parentContainerId c = None
     \/ exists m g, (m < n)%nat /\ cs !! m = Some g
                    /\ cont_parentContainerId c = Some (cont_id g)) ->
  forall n c fuel, cs !! n = Some c -> (n < fuel)%nat ->
                   is_Some (rootDistance fuel cs (cont_id c)).
Proof.
  intros Hnd Hearlier n. induction (lt_wf n) as [n _ IH].
  intros c fuel Hn Hfuel. destruct fuel as [|fuel]; [lia|]. simpl.
  rewrite find_container_In;
    [|done|by apply list_elem_of_In; eapply list_elem_of_lookup_2].
  destruct (Hearlier n c Hn) as [->|(m & g & Hm & Hg & ->)]; [done|].
  destruct (IH m Hm g fuel Hg ltac:(lia)) as [d ->]. done.
Qed.

(** A collection with unique, non-empty ids in which the parent of
    every Group is an earlier Group is a well-formed hierarchy. *)
Lemma well_formed_of_earlier_parents cs :
  NoDup (map cont_id cs) ->
  Forall (fun c => cont_id c <> "") cs ->
  (forall n c, cs !! n = Some c ->
     cont_parentContainerId c = None
     \/ exists m g, (m < n)%nat /\ cs !! m = Some g
                    /\ cont_parentContainerId c = Some (cont_id g)) ->
  well_formed cs.
Proof.
  intros Hnd Hids Hearlier. split; [done|]. split; [done|].
  apply Forall_forall. intros c Hc. apply list_elem_of_lookup in Hc as [n Hn].
  eapply rootDistance_of_earlier_parents; [done|done|exact Hn|].
  by apply lookup_lt_Some in Hn.
Qed.

End HierarchyLaws.

(** ** The DSL parser *)

Module ParserLaws.
Import Js Regex Parser.

(** The identifier that a line defines as a Node, if the line takes the
    Node branch and matches its pattern. *)
Definition definesItem (line : string) : option string :=
  match lineKind line with
  | ItemDef => (fun caps => cap caps 1) <$> search itemRegex line
  | _ => None
  end.

(** The identifier that a line defines as a Group. *)
Definition definesGroup (line : string) : option string :=
  match lineKind line with
  | GroupStart => (fun caps => cap caps 1) <$> search groupRegex line
  | _ => None
  end.

(** The two identifiers and the label of a line that takes the Edge
    branch and matches its pattern. *)
Definition edgeLine (line : string) : option (string * string * option string) :=
  match lineKind line with
  | ConnectionDef =>
      (fun caps => (cap caps 1, cap caps 2, caps !! 3%nat)) <$> search connectionRegex line
  | _ => None
  end.

(** What holds of the variables of the parser between two lines. *)
Record invariant (st : ParseState) : Prop := mkInvariant {
  inv_map : forall k v, ps_itemIdMap st !! k = Some v -> In v (ps_items st);
  inv_stack : forall g, In g (ps_groupStack st) -> In g (ps_containers st);
  inv_item_parent : forall it, In it (ps_items st) ->
    item_parentContainerId it = None
    \/ exists g, In g (ps_containers st) /\ item_parentContainerId it = Some (cont_id g);
  inv_cont_parent : forall n c, ps_containers st !! n = Some c ->
    cont_parentContainerId c = None
    \/ exists m g, (m < n)%nat /\ ps_containers st !! m = Some g
                   /\ cont_parentContainerId c = Some (cont_id g);
  inv_edges : forall e, In e (ps_connections st) ->
    exists a b, In a (ps_items st) /\ In b (ps_items st)
                /\ conn_from e = item_id a /\ conn_to e = item_id b;
  inv_item_counter : ps_itemCounter st = length (ps_items st);
  inv_cont_counter : ps_containerCounter st = length (ps_containers st)
}.

Lemma invariant_initial : invariant initialState.
Proof.
  split; simpl; try done.
Qed.

Lemma topId_cases stack :
  topId stack = None
  \/ exists g, In g stack /\ topId stack = Some (cont_id g).
Proof.
  unfold topId. destruct (last stack) as [g|] eqn:Hl; [|by left].
  unfold or_else. destruct (truthy (Some (cont_id g))); [|by left].
  right. exists g. split; [|done].
  apply last_Some in Hl as [l' ->]. apply in_or_app. right. by left.
Qed.

Lemma In_removelast {A} (l : list A) x : In x (removelast l) -> In x l.
Proof.
  induction l as [|a l IH]; [done|]. simpl. destruct l as [|b l]; [done|].
  intros [->|Hin]; [by left|]. right. by apply IH.
Qed.

Section Steps.
Variables (now : nat -> Z) (random36 : nat -> string).

Lemma parse_line_invariant i st line :
  invariant st -> invariant (parse_line now random36 i st line).
Proof.
  intros Hinv. unfold parse_line. destruct (lineKind line); try done.
  - (* GroupStart *)
    destruct (search groupRegex line) as [caps|]; [|done].
    destruct Hinv as [Hmap Hstack Hip Hcp Hed Hic Hcc]. split; simpl.
    + done.
    + intros g Hin. apply in_app_or in Hin as [Hin|Hin]; apply in_or_app; auto.
    + intros it Hin. destruct (Hip it Hin) as [?|(g & Hg & ?)]; [by left|].
      right. exists g. split; [|done]. apply in_or_app. by left.
    + intros n c Hn. apply lookup_app_Some in Hn as [Hn|[Hlen Hn]].
      * destruct (Hcp n c Hn) as [?|(m & g & Hm & Hg & ?)]; [by left|].
        right. exists m, g. split; [done|]. split; [|done].
        by apply lookup_app_l_Some.
      * apply list_lookup_singleton_Some in Hn as [Hn <-]. simpl.
        destruct (topId_cases (ps_groupStack st)) as [?|(g & Hg & Hid)]; [by left|].
        right. apply Hstack in Hg. apply list_elem_of_In in Hg.
        apply list_elem_of_lookup in Hg as [m Hm]. exists m, g.
        split; [apply lookup_lt_Some in Hm; lia|].
        split; [by apply lookup_app_l_Some|done].
    + done.
    + done.
    + rewrite length_app. simpl. lia.
  - (* GroupEnd *)
    destruct Hinv as [Hmap Hstack Hip Hcp Hed Hic Hcc]. split; simpl; try done.
    intros g Hin. apply Hstack. by apply In_removelast.
  - (* ItemDef *)
    destruct (search itemRegex line) as [caps|]; [|done].
    destruct Hinv as [Hmap Hstack Hip Hcp Hed Hic Hcc]. split; simpl.
    + intros k v Hk. apply in_or_app.
      destruct (decide (cap caps 1 = k)) as [Heq|Hne].
      * subst k. rewrite lookup_insert_eq in Hk. injection Hk as <-. right. by left.
      * rewrite lookup_insert_ne in Hk by done. left. by eapply Hmap.
    + done.
    + intros it Hin. apply in_app_or in Hin as [Hin|[<-|[]]]; [by apply Hip|].
      simpl. destruct (topId_cases (ps_groupStack st)) as [?|(g & Hg & Hid)]; [by left|].
      right. exists g. split; [by apply Hstack|done].
    + done.
    + intros e Hin. destruct (Hed e Hin) as (a & b & Ha & Hb & ?).
      exists a, b. split; [apply in_or_app; by left|].
      split; [apply in_or_app; by left|done].
    + rewrite length_app. simpl. lia.
    + done.
  - (* ConnectionDef *)
    destruct (search connectionRegex line) as [caps|]; [|done].
    destruct (ps_itemIdMap st !! cap caps 1) as [a|] eqn:Ha; [|done].
    destruct (ps_itemIdMap st !! cap caps 2) as [b|] eqn:Hb; [|done].
    destruct Hinv as [Hmap Hstack Hip Hcp Hed Hic Hcc]. split; simpl; try done.
    intros e Hin. apply in_app_or in Hin as [Hin|[<-|[]]]; [by apply Hed|].
    exists a, b. simpl. split; [by eapply Hmap|]. split; [by eapply Hmap|done].
Qed.

Lemma parse_lines_invariant lines i st :
  invariant st -> invariant (parse_lines now random36 i st lines).
Proof.
  revert i st. induction lines as [|line lines IH]; intros i st Hinv; [done|].
  simpl. apply IH. by apply parse_line_invariant.
Qed.

Lemma parse_lines_app pre post i st :
  parse_lines now random36 i st (pre ++ post)
  = parse_lines now random36 (i + length pre) (parse_lines now random36 i st pre) post.
Proof.
  revert i st. induction pre as [|l pre IH]; intros i st; simpl.
  - by rewrite Nat.add_0_r.
  - rewrite IH. f_equal. lia.
Qed.

(** The identifiers of the Node table are those that the lines read so
    far define as Nodes. *)
Lemma parse_line_itemIdMap_keys i st line k :
  is_Some (ps_itemIdMap (parse_line now random36 i st line) !! k)
  <-> is_Some (ps_itemIdMap st !! k) \/ definesItem line = Some k.
Proof.
  unfold parse_line, definesItem. destruct (lineKind line); simpl;
    try (split; [by left|by intros [?|?]]).
  - destruct (search groupRegex line); simpl; split; (by left) || by intros [?|?].
  - destruct (search itemRegex line) as [caps|]; simpl;
      [|split; [by left|by intros [?|?]]].
    rewrite lookup_insert_is_Some. split.
    + intros [->|[_ ?]]; [by right|by left].
    + intros [?|[= <-]]; [|by left].
      destruct (decide (cap caps 1 = k)); [by left|by right].
  - destruct (search connectionRegex line) as [caps|]; simpl;
      [|split; [by left|by intros [?|?]]].
    destruct (ps_itemIdMap st !! cap caps 1), (ps_itemIdMap st !! cap caps 2);
      simpl; split; (by left) || by intros [?|?].
Qed.

Lemma parse_lines_itemIdMap_keys lines i st k :
  is_Some (ps_itemIdMap (parse_lines now random36 i st lines) !! k)
  <-> is_Some (ps_itemIdMap st !! k)
      \/ exists line, In line lines /\ definesItem line = Some k.
Proof.
  revert i st. induction lines as [|l lines IH]; intros i st; simpl.
  - split; [by left|]. by intros [?|(? & [] & _)].
  - rewrite IH, parse_line_itemIdMap_keys. split.
    + intros [[?|?]|(l' & ? & ?)]; eauto 6.
    + intros [?|(l' & [<-|?] & ?)]; eauto 6.
Qed.

End Steps.

(** An identifier that some line of [lines] defines as a Node. *)
Definition definedNode (lines : list string) (k : string) : Prop :=
  exists line, In line lines /\ definesItem line = Some k.

(** An identifier that some line of [lines] defines as a Group. *)
Definition definedGroup (lines : list string) (k : string) : Prop :=
  exists line, In line lines /\ definesGroup line = Some k.

(** The state [st] with one more Edge, all else unchanged. *)
Definition withConnection (st : ParseState) (e : Connection) : ParseState :=
  {| ps_items := ps_items st;
     ps_containers := ps_containers st;
     ps_connections := ps_connections st ++ [e];
     ps_groupStack := ps_groupStack st;
     ps_itemCounter := ps_itemCounter st;
     ps_containerCounter := ps_containerCounter st;
     ps_itemIdMap := ps_itemIdMap st;
     ps_containerIdMap := ps_containerIdMap st |}.

(** *** Ids of Nodes and ids of Groups *)

Lemma lookup_table_In {V} (table : list (string * V)) key v :
  lookup_table table key = Some v -> In (key, v) table.
Proof.
  induction table as [|[k w] table IH]; [done|]. simpl.
  destruct (lookup_table table key) as [v'|].
  - intros [= ->]. right. by apply IH.
  - case_bool_decide; [|done]. intros [= ->]. left. by subst.
Qed.

(** No service of the two tables has an id from which the id of a Group
    could start. *)
Definition not_container_id (info : ServiceInfo) : Prop :=
  forall rest, startsWith (svc_id info +:+ "-" +:+ rest) "container-" = false.

Lemma labelServiceMap_ids : Forall (fun e => not_container_id e.2) labelServiceMap.
Proof. repeat (constructor; [intros rest; reflexivity|]). constructor. Qed.

Lemma iconMap_ids : Forall (fun e => not_container_id e.2) iconMap.
Proof. repeat (constructor; [intros rest; reflexivity|]). constructor. Qed.

Lemma getServiceFromIcon_id iconName labelName :
  not_container_id (getServiceFromIcon iconName labelName).
Proof.
  unfold getServiceFromIcon.
  destruct (if truthy_string labelName then _ else _) as [info|] eqn:Hl.
  - destruct (truthy_string labelName); [|done].
    apply lookup_table_In in Hl. pose proof labelServiceMap_ids as Hf.
    rewrite Forall_forall in Hf. apply (Hf (labelName, info)). by apply list_elem_of_In.
  - destruct (lookup_table iconMap iconName) as [info|] eqn:Hi.
    + apply lookup_table_In in Hi. pose proof iconMap_ids as Hf.
      rewrite Forall_forall in Hf. apply (Hf (iconName, info)). by apply list_elem_of_In.
    + intros rest. reflexivity.
Qed.

Lemma parse_line_ids now random36 i st line :
  (forall it, In it (ps_items st) -> startsWith (item_id it) "container-" = false) ->
  (forall g, In g (ps_containers st) -> startsWith (cont_id g) "container-" = true) ->
  let st' := parse_line now random36 i st line in
  (forall it, In it (ps_items st') -> startsWith (item_id it) "container-" = false)
  /\ (forall g, In g (ps_containers st') -> startsWith (cont_id g) "container-" = true).
Proof.
  intros Hit Hg. unfold parse_line. destruct (lineKind line); simpl; try done.
  - destruct (search groupRegex line) as [caps|]; simpl; [|done].
    split; [done|]. intros g Hin. apply in_app_or in Hin as [?|[<-|[]]]; [by apply Hg|].
    reflexivity.
  - destruct (search itemRegex line) as [caps|]; simpl; [|done].
    split; [|done]. intros it Hin. apply in_app_or in Hin as [?|[<-|[]]]; [by apply Hit|].
    simpl. apply getServiceFromIcon_id.
  - destruct (search connectionRegex line) as [caps|]; simpl; [|done].
    by destruct (ps_itemIdMap st !! cap caps 1), (ps_itemIdMap st !! cap caps 2).
Qed.

Lemma parse_lines_ids now random36 lines i st :
  (forall it, In it (ps_items st) -> startsWith (item_id it) "container-" = false) ->
  (forall g, In g (ps_containers st) -> startsWith (cont_id g) "container-" = true) ->
  let st' := parse_lines now random36 i st lines in
  (forall it, In it (ps_items st') -> startsWith (item_id it) "container-" = false)
  /\ (forall g, In g (ps_containers st') -> startsWith (cont_id g) "container-" = true).
Proof.
  revert i st. induction lines as [|l lines IH]; intros i st Hit Hg; [done|].
  simpl. destruct (parse_line_ids now random36 i st l Hit Hg) as [H1 H2].
  by apply IH.
Qed.

(** C7. A line that takes the Edge branch with the identifiers [f] and
    [t] adds one Edge, between the Nodes that the table holds for [f]
    and [t], when both identifiers were defined as Nodes by earlier
    lines; otherwise it leaves every variable of the parser as it was,
    in particular when an identifier was defined as a Group and not as
    a Node. In the result of the parser the two ends of every Edge are
    ids of Nodes of the result, and never the id of a Group of the
    result. *)
Theorem edge_line_resolves_nodes_only :
  (forall now random36 pre line f t lbl,
     edgeLine line = Some (f, t, lbl) ->
     let st := parse_lines now random36 0 initialState pre in
     let st' := parse_line now random36 (length pre) st line in
     (definedNode pre f /\ definedNode pre t ->
      exists a b,
        ps_itemIdMap st !! f = Some a /\ ps_itemIdMap st !! t = Some b
        /\ In a (ps_items st) /\ In b (ps_items st)
        /\ st' = withConnection st (newConnection now random36 (length pre) a b lbl))
     /\ (~ (definedNode pre f /\ definedNode pre t) -> st' = st)
     /\ ((definedGroup pre f /\ ~ definedNode pre f)
         \/ (definedGroup pre t /\ ~ definedNode pre t) -> st' = st))
  /\ (forall now random36 text e,
        In e (res_connections (parseEraserFormat now random36 text)) ->
        let r := parseEraserFormat now random36 text in
        (exists a b, In a (res_items r) /\ In b (res_items r)
                     /\ conn_from e = item_id a /\ conn_to e = item_id b)
        /\ (forall g, In g (res_containers r) ->
                      conn_from e <> cont_id g /\ conn_to e <> cont_id g)).
Proof.
  split.
  - intros now random36 pre line f t lbl Hedge st st'.
    pose proof (parse_lines_itemIdMap_keys now random36 pre 0 initialState) as Hkeys.
    fold st in Hkeys.
    assert (Hdef : forall k, is_Some (ps_itemIdMap st !! k) <-> definedNode pre k).
    { intros k. rewrite Hkeys. unfold definedNode. split; [|by right].
      intros [Hs|?]; [|done]. simpl in Hs. rewrite lookup_empty in Hs.
      by destruct Hs. }
    pose proof (parse_lines_invariant now random36 pre 0 initialState invariant_initial)
      as Hinv. fold st in Hinv.
    unfold edgeLine in Hedge. subst st'. unfold parse_line.
    destruct (lineKind line); try done.
    destruct (search connectionRegex line) as [caps|]; [|done].
    simpl in Hedge. injection Hedge as <- <- <-.
    destruct (ps_itemIdMap st !! cap caps 1) as [a|] eqn:Ha.
    + destruct (ps_itemIdMap st !! cap caps 2) as [b|] eqn:Hb.
      * split; [|split].
        -- intros _. exists a, b. split; [done|]. split; [done|].
           split; [by eapply inv_map|]. split; [by eapply inv_map|done].
        -- intros Hnot. exfalso. apply Hnot. split; apply Hdef; eauto.
        -- intros [[_ Hnot]|[_ Hnot]]; exfalso; apply Hnot, Hdef; eauto.
      * split; [|done]. intros [_ Ht]. apply Hdef in Ht. rewrite Hb in Ht.
        by destruct Ht.
    + split; [|done]. intros [Hf _]. apply Hdef in Hf. rewrite Ha in Hf.
      by destruct Hf.
  - intros now random36 text e He r. unfold parseEraserFormat in *. simpl in *.
    set (st := parse_lines now random36 0 initialState (linesOf text)) in *.
    pose proof (parse_lines_invariant now random36 (linesOf text) 0 initialState
                  invariant_initial) as Hinv. fold st in Hinv.
    destruct (parse_lines_ids now random36 (linesOf text) 0 initialState) as [Hit Hg];
      [by intros ? []|by intros ? []|]. fold st in Hit, Hg.
    destruct (inv_edges st Hinv e He) as (a & b & Ha & Hb & Hfrom & Hto).
    split; [eauto 10|].
    intros g Hgin. specialize (Hg g Hgin).
    pose proof (Hit a Ha) as Hita. pose proof (Hit b Hb) as Hitb.
    rewrite Hfrom, Hto. split; intros Heq; rewrite Heq in *; congruence.
Qed.

(** The Group identifier [G] is no Node: the Edge line [A > G] changes
    nothing. *)
Lemma edge_line_resolves_nodes_only_witness :
  parse_line example_now example_random36 2
    (parse_lines example_now example_random36 0 initialState
       [dsl "A [label: 'Web', icon: aws-ec2]"; dsl "G [label: 'VPC', icon: aws-vpc] {"])
    (dsl "A > G")
  = parse_lines example_now example_random36 0 initialState
      [dsl "A [label: 'Web', icon: aws-ec2]"; dsl "G [label: 'VPC', icon: aws-vpc] {"].
Proof.
  apply (proj1 edge_line_resolves_nodes_only example_now example_random36
           [dsl "A [label: 'Web', icon: aws-ec2]"; dsl "G [label: 'VPC', icon: aws-vpc] {"]
           (dsl "A > G") "A" "G" None).
  - reflexivity.
  - right. split.
    + exists (dsl "G [label: 'VPC', icon: aws-vpc] {"). split; [right; by left|reflexivity].
    + intros (l & Hin & Hdef).
      destruct Hin as [<-|[<-|[]]]; vm_compute in Hdef; discriminate.
Defined.

(** *** Positions *)

(** The position of a Node comes from the counter after its increment
    and from the nesting depth [d]. *)
Definition positioned (n : nat) (it : ServiceItem) : Prop :=
  exists d : nat,
    item_x it = 180 + (Z.of_nat (S n) mod 4) * 100 + Z.of_nat d * 30
    /\ item_y it = 180 + (Z.of_nat (S n) / 4) * 100 + Z.of_nat d * 30.

Lemma parse_line_positions now random36 i st line :
  ps_itemCounter st = length (ps_items st) ->
  (forall n it, ps_items st !! n = Some it -> positioned n it) ->
  forall n it, ps_items (parse_line now random36 i st line) !! n = Some it ->
               positioned n it.
Proof.
  intros Hc Hpos. unfold parse_line. destruct (lineKind line); simpl; try done.
  - by destruct (search groupRegex line).
  - destruct (search itemRegex line) as [caps|]; simpl; [|done].
    intros n it Hn. apply lookup_app_Some in Hn as [Hn|[Hlen Hn]]; [by apply Hpos|].
    apply list_lookup_singleton_Some in Hn as [Hn <-].
    assert (n = length (ps_items st)) as -> by lia.
    exists (length (ps_groupStack st)). unfold newItem. simpl item_x. simpl item_y.
    by rewrite Hc.
  - destruct (search connectionRegex line) as [caps|]; simpl; [|done].
    by destruct (ps_itemIdMap st !! cap caps 1), (ps_itemIdMap st !! cap caps 2).
Qed.

Lemma parse_lines_positions now random36 lines i st :
  invariant st ->
  (forall n it, ps_items st !! n = Some it -> positioned n it) ->
  forall n it, ps_items (parse_lines now random36 i st lines) !! n = Some it ->
               positioned n it.
Proof.
  revert i st. induction lines as [|l lines IH]; intros i st Hinv Hpos; [done|].
  simpl. apply IH.
  - by apply parse_line_invariant.
  - apply parse_line_positions; [by destruct Hinv|done].
Qed.

(** The Node number [n] of a parse (counting from 0) is placed from the
    counter value [n + 1]: column [(n + 1) mod 4] and row [(n + 1) / 4],
    in steps of 100 from 180, plus 30 for each level of nesting. *)
Lemma item_positions now random36 text n it :
  res_items (parseEraserFormat now random36 text) !! n = Some it ->
  exists d : nat,
    item_x it = 180 + (Z.of_nat (n + 1) mod 4) * 100 + Z.of_nat d * 30
    /\ item_y it = 180 + (Z.of_nat (n + 1) / 4) * 100 + Z.of_nat d * 30.
Proof.
  intros Hn. unfold parseEraserFormat in Hn. simpl in Hn.
  replace (n + 1)%nat with (S n) by lia.
  eapply parse_lines_positions; [apply invariant_initial| |exact Hn].
  intros ? ? Hl. simpl in Hl. by rewrite lookup_nil in Hl.
Qed.

(** C8, what the code does at the first Node of a text. The counter is
    incremented inside the id template before the position is computed,
    so the first Node is placed from the counter value 1: column 1
    ([x] = 280), not column 0 ([x] = 180); the second Node follows in
    column 2. Column 0 is first used by the fourth Node, in row 1. *)
Theorem first_item_in_column_one (now : nat -> Z) (random36 : nat -> string) :
  map (fun it => (item_x it, item_y it))
      (res_items (parseEraserFormat now random36
                    (dsl "A [label: 'Web', icon: aws-ec2]")))
  = [(280, 180)]
  /\ map (fun it => (item_x it, item_y it))
         (res_items (parseEraserFormat now random36
                       (dsl "A [label: 'a', icon: aws-ec2]
B [label: 'b', icon: aws-ec2]
C [label: 'c', icon: aws-ec2]
D [label: 'd', icon: aws-ec2]")))
     = [(280, 180); (380, 180); (480, 180); (180, 280)].
Proof. split; reflexivity. Qed.

(** The second example scenario of the specification: two Nodes, no
    Group, one Edge with the label [query]. *)
Example two_nodes_one_edge :
  let r := parseEraserFormat example_now example_random36
             (dsl "A [label: 'Web', icon: aws-ec2]
B [label: 'DB', icon: aws-rds]
A > B : 'query'") in
  map item_name (res_items r) = ["EC2"; "RDS"]
  /\ map item_customName (res_items r) = [Some "Web"; Some "DB"]
  /\ res_containers r = []
  /\ map (fun e => (conn_from e, conn_to e, conn_label e)) (res_connections r)
     = [("ec2-0-1700000000000", "rds-1-1700000000000", Some "query")].
Proof. repeat split; reflexivity. Qed.

(** A label of white space only is kept by the parser. *)
Example parser_keeps_blank_label :
  map conn_label
      (res_connections (parseEraserFormat example_now example_random36
                          (dsl "A [label: 'Web', icon: aws-ec2]
B [label: 'DB', icon: aws-rds]
A > B : ' '")))
  = [Some " "].
Proof. reflexivity. Qed.

(** *** Ids of Groups are unique *)

Fixpoint no_dash (s : string) : bool :=
  match s with
  | EmptyString => true
  | String c r => negb (Ascii.eqb c "-"%char) && no_dash r
  end.

Lemma pretty_N_go_no_dash x s : no_dash s = true -> no_dash (pretty_N_go x s) = true.
Proof.
  revert s. induction (N.lt_wf_0 x) as [x _ IH]. intros s Hs.
  assert (x = 0 \/ 0 < x)%N as [->|Hx] by lia.
  - by rewrite pretty_N_go_0.
  - rewrite pretty_N_go_step by done. apply IH; [by apply N.div_lt|].
    simpl. rewrite Hs, andb_true_r. unfold pretty_N_char. by repeat case_match.
Qed.

Lemma pretty_nat_no_dash (n : nat) : no_dash (pretty n) = true.
Proof.
  unfold pretty, pretty_nat, pretty, pretty_N. case_decide; [done|].
  by apply pretty_N_go_no_dash.
Qed.

Lemma app_dash_inj a b x y :
  no_dash a = true -> no_dash b = true ->
  a +:+ "-" +:+ x = b +:+ "-" +:+ y -> a = b.
Proof.
  revert b. induction a as [|c a IH]; intros [|c' b] Ha Hb Heq; simpl in *.
  - done.
  - injection Heq as <- _. done.
  - injection Heq as -> _. done.
  - apply andb_prop in Ha as [_ Ha]. apply andb_prop in Hb as [_ Hb].
    injection Heq as -> Heq. f_equal. by apply IH.
Qed.

(** The id of the Group number [n] of a parse. *)
Definition container_id_shape (n : nat) (g : ContainerItem) : Prop :=
  exists t : Z, cont_id g = "container-" +:+ pretty n +:+ "-" +:+ pretty t.

Lemma parse_line_container_ids now random36 i st line :
  ps_containerCounter st = length (ps_containers st) ->
  (forall n g, ps_containers st !! n = Some g -> container_id_shape n g) ->
  forall n g, ps_containers (parse_line now random36 i st line) !! n = Some g ->
              container_id_shape n g.
Proof.
  intros Hc Hsh. unfold parse_line. destruct (lineKind line); simpl; try done.
  - destruct (search groupRegex line) as [caps|]; simpl; [|done].
    intros n g Hn. apply lookup_app_Some in Hn as [Hn|[Hlen Hn]]; [by apply Hsh|].
    apply list_lookup_singleton_Some in Hn as [Hn <-].
    assert (n = length (ps_containers st)) as -> by lia.
    exists (now i). simpl. by rewrite Hc.
  - by destruct (search itemRegex line).
  - destruct (search connectionRegex line) as [caps|]; simpl; [|done].
    by destruct (ps_itemIdMap st !! cap caps 1), (ps_itemIdMap st !! cap caps 2).
Qed.

Lemma parse_lines_container_ids now random36 lines i st :
  invariant st ->
  (forall n g, ps_containers st !! n = Some g -> container_id_shape n g) ->
  forall n g, ps_containers (parse_lines now random36 i st lines) !! n = Some g ->
              container_id_shape n g.
Proof.
  revert i st. induction lines as [|l lines IH]; intros i st Hinv Hsh; [done|].
  simpl. apply IH.
  - by apply parse_line_invariant.
  - apply parse_line_container_ids; [by destruct Hinv|done].
Qed.

Lemma container_id_shape_inj n m g h :
  container_id_shape n g -> container_id_shape m h -> cont_id g = cont_id h -> n = m.
Proof.
  intros [t Hg] [t' Hh] Heq. rewrite Hg, Hh in Heq.
  apply (inj (String.app "container-")) in Heq.
  apply app_dash_inj in Heq; [|apply pretty_nat_no_dash..].
  by apply (inj pretty) in Heq.
Qed.

(** The Groups that the parser has created form a well-formed
    hierarchy. *)
Lemma parsed_containers_well_formed now random36 lines :
  Hierarchy.well_formed
    (ps_containers (parse_lines now random36 0 initialState lines)).
Proof.
  set (st := parse_lines now random36 0 initialState lines).
  pose proof (parse_lines_invariant now random36 lines 0 initialState
                invariant_initial) as Hinv. fold st in Hinv.
  assert (Hsh : forall n g, ps_containers st !! n = Some g -> container_id_shape n g).
  { apply parse_lines_container_ids; [apply invariant_initial|].
    intros ? ? Hl. simpl in Hl. by rewrite lookup_nil in Hl. }
  apply HierarchyLaws.well_formed_of_earlier_parents; [| |by destruct Hinv].
  - apply NoDup_alt. intros i j x Hi Hj.
    rewrite list_lookup_fmap in Hi, Hj.
    destruct (ps_containers st !! i) as [g|] eqn:Hgi; [|done].
    destruct (ps_containers st !! j) as [h|] eqn:Hhj; [|done].
    simpl in Hi, Hj. injection Hi as Hi. injection Hj as Hj.
    eapply container_id_shape_inj; [by apply Hsh..|congruence].
  - apply Forall_forall. intros g Hg. apply list_elem_of_lookup in Hg as [n Hn].
    destruct (Hsh n g Hn) as [t ->]. done.
Qed.

(** C9. For every input text the result of the parser is consistent:
    the parent of a Node is [null] or the id of a Group of the result;
    the parent of a Group is [null] or the id of a Group that comes
    earlier in the result (so it was created earlier, and no Group is
    its own ancestor); both ends of an Edge are ids of Nodes of the
    result; and the Groups form a well-formed hierarchy (unique ids,
    every ancestor walk ends at a root). *)
Theorem parse_result_consistent (now : nat -> Z) (random36 : nat -> string)
    (text : string) :
  let r := parseEraserFormat now random36 text in
  (forall it, In it (res_items r) ->
     item_parentContainerId it = None
     \/ exists g, In g (res_containers r) /\ item_parentContainerId it = Some (cont_id g))
  /\ (forall n c, res_containers r !! n = Some c ->
        cont_parentContainerId c = None
        \/ exists m g, (m < n)%nat /\ res_containers r !! m = Some g
                       /\ cont_parentContainerId c = Some (cont_id g))
  /\ (forall e, In e (res_connections r) ->
        exists a b, In a (res_items r) /\ In b (res_items r)
                    /\ conn_from e = item_id a /\ conn_to e = item_id b)
  /\ Hierarchy.well_formed (res_containers r).
Proof.
  intros r. subst r. unfold parseEraserFormat. simpl.
  pose proof (parse_lines_invariant now random36 (linesOf text) 0 initialState
                invariant_initial) as [Hmap Hstack Hip Hcp Hed Hic Hcc].
  split; [exact Hip|]. split; [exact Hcp|]. split; [exact Hed|].
  apply parsed_containers_well_formed.
Qed.

End ParserLaws.

(** ** The emitters *)

Module EmitterLaws.
Import Js Hierarchy HierarchyLaws Parser Emitters.

Section Forest.
Variables (boardItems : list ServiceItem) (cs : list ContainerItem).

(** The parent Group of [h], found by its id. *)
Definition up (h : ContainerItem) : option ContainerItem :=
  match cont_parentContainerId h with
  | Some p => find_container cs p
  | None => None
  end.

(** [under c h]: the Group [h] is [c] or is transitively contained in
    [c]; the walk from [h] through the parents arrives at [c]. *)
Inductive under (c : ContainerItem) : ContainerItem -> Prop :=
| under_refl : under c c
| under_step h a : up h = Some a -> under c a -> under c h.

(** The Group whose block a piece belongs to directly. *)
Definition owned (p : ContainerItem) (t : Tag) : Prop :=
  match t with
  | OpenGroup g | CloseGroup g => g = p
  | NodeLine item => item_parentContainerId item = Some (cont_id p)
  | _ => False
  end.

(** The pieces that the call for [c] appends itself. *)
Definition direct (c : ContainerItem) : list Tag :=
  OpenGroup c :: map NodeLine (itemsInContainer boardItems c) ++ [CloseGroup c].

(** The tags of the traversal that both emitters make. *)
Fixpoint skeleton (fuel : nat) (containerId : string) : option (list Tag) :=
  match fuel with
  | O => None
  | S fuel' =>
      match find_container cs containerId with
      | None => Some []
      | Some container =>
          children ← mapM (fun child => skeleton fuel' (cont_id child))
                          (childContainers cs container);
          Some (OpenGroup container
                :: map NodeLine (itemsInContainer boardItems container)
                ++ concat children ++ [CloseGroup container])
      end
  end.

Definition depth (c : ContainerItem) : nat :=
  default O (rootDistance (length cs) cs (cont_id c)).

Lemma rootDistance_mono n m id d :
  rootDistance n cs id = Some d -> (n <= m)%nat -> rootDistance m cs id = Some d.
Proof.
  revert m id d. induction n as [|n IH]; intros m id d Hd Hle; [done|].
  destruct m as [|m]; [lia|]. simpl in *.
  destruct (find_container cs id) as [c|]; [|done].
  destruct (cont_parentContainerId c) as [p|]; [|done].
  apply fmap_Some in Hd as (d' & Hd' & ->).
  rewrite (IH m p d' Hd') by lia. done.
Qed.

Lemma owned_direct c t : t ∈ direct c -> owned c t.
Proof.
  unfold direct. intros Ht. apply elem_of_cons in Ht as [->|Ht]; [done|].
  apply elem_of_app in Ht as [Ht|Ht].
  - apply list_elem_of_fmap in Ht as (item & -> & Hi).
    apply list_elem_of_filter in Hi as [Hi _]. simpl.
    by apply bool_decide_unpack in Hi.
  - apply list_elem_of_singleton in Ht as ->. done.
Qed.

Hypothesis Hwf : well_formed cs.

Lemma find_elem c : c ∈ cs -> find_container cs (cont_id c) = Some c.
Proof.
  intros Hc. apply find_container_In; [by destruct Hwf|by apply list_elem_of_In].
Qed.

Lemma id_inj p q : p ∈ cs -> q ∈ cs -> cont_id p = cont_id q -> p = q.
Proof.
  intros Hp Hq Hid. apply find_elem in Hp, Hq. rewrite Hid in Hp. congruence.
Qed.

Lemma id_nonempty c : c ∈ cs -> cont_id c <> "".
Proof.
  intros Hc. destruct Hwf as (_ & Hids & _). rewrite Forall_forall in Hids. by apply Hids.
Qed.

Lemma NoDup_cs : NoDup cs.
Proof. destruct Hwf as (Hnd & _). by apply NoDup_fmap_1 in Hnd. Qed.

Lemma depth_eq c : c ∈ cs -> rootDistance (length cs) cs (cont_id c) = Some (depth c).
Proof.
  intros Hc. destruct Hwf as (_ & _ & Hroot). rewrite Forall_forall in Hroot.
  destruct (Hroot c Hc) as [d Hd]. unfold depth. by rewrite Hd.
Qed.

Lemma up_elem h a :
  up h = Some a -> a ∈ cs /\ cont_parentContainerId h = Some (cont_id a).
Proof.
  unfold up. destruct (cont_parentContainerId h) as [p|]; [|done].
  intros Hf. apply find_container_Some in Hf as [Hin <-].
  split; [by apply list_elem_of_In|done].
Qed.

Lemma depth_up h a : h ∈ cs -> up h = Some a -> depth h = S (depth a).
Proof.
  intros Hh Hup. pose proof (depth_eq h Hh) as Hd.
  destruct (up_elem h a Hup) as [Ha Hp].
  destruct (length cs) as [|n] eqn:Hn; [done|]. simpl in Hd.
  rewrite find_elem, Hp in Hd by done.
  apply fmap_Some in Hd as (d' & Hd' & ->). f_equal.
  apply (rootDistance_mono _ (S n)) in Hd'; [|lia].
  rewrite <- Hn, depth_eq in Hd' by done. congruence.
Qed.

Lemma root_or_up h :
  h ∈ cs -> (cont_parentContainerId h = None /\ depth h = O) \/ exists a, up h = Some a.
Proof.
  intros Hh. pose proof (depth_eq h Hh) as Hd.
  destruct (length cs) as [|n] eqn:Hn; [done|]. simpl in Hd.
  rewrite find_elem in Hd by done. unfold up.
  destruct (cont_parentContainerId h) as [p|]; [|left; split; congruence].
  right. apply fmap_Some in Hd as (d' & Hd' & _).
  destruct n as [|n]; [done|]. simpl in Hd'.
  destruct (find_container cs p) as [a|]; [eauto|done].
Qed.

Lemma under_elem c h : under c h -> h ∈ cs -> c ∈ cs.
Proof.
  induction 1 as [|h a Hup _ IH]; [done|]. intros _. apply IH.
  by apply up_elem in Hup as [? _].
Qed.

Lemma under_depth c h : under c h -> h ∈ cs -> exists k, depth h = (depth c + k)%nat.
Proof.
  induction 1 as [|h a Hup _ IH]; intros Hh; [exists O; lia|].
  destruct IH as [k Hk]; [by apply up_elem in Hup as [? _]|].
  exists (S k). rewrite (depth_up h a) by done. lia.
Qed.

Lemma under_trans c a h : under c a -> under a h -> under c h.
Proof.
  intros Hca Hah. induction Hah as [|h b Hup _ IH]; [done|].
  eapply under_step; [done|]. by apply IH.
Qed.

Lemma under_depth_eq c h : under c h -> h ∈ cs -> depth h = depth c -> h = c.
Proof.
  intros Hu Hh Hd. destruct Hu as [|h a Hup Hu]; [done|]. exfalso.
  destruct (under_depth c a Hu) as [k Hk]; [by apply up_elem in Hup as [? _]|].
  rewrite (depth_up h a) in Hd by done. lia.
Qed.

(** The ancestor of a Group at a given depth is unique. *)
Lemma under_same_depth a b h :
  under a h -> under b h -> h ∈ cs -> depth a = depth b -> a = b.
Proof.
  intros Ha. revert b. induction Ha as [|h x Hup Ha IH]; intros b Hb Hh Hd.
  - by apply under_depth_eq.
  - inversion Hb as [Heq|h' y Hup' Hb']; subst.
    + exfalso. destruct (under_depth a x Ha) as [k Hk]; [by apply up_elem in Hup as [? _]|].
      pose proof (depth_up _ _ Hh Hup) as Hdu. lia.
    + rewrite Hup in Hup'. injection Hup' as <-. apply IH; [done| |done].
      by apply up_elem in Hup as [? _].
Qed.

Lemma under_child c a : c ∈ cs -> a ∈ childContainers cs c -> a ∈ cs /\ up a = Some c.
Proof.
  intros Hc Ha. apply list_elem_of_filter in Ha as [Hp Ha]. split; [done|].
  apply bool_decide_unpack in Hp. unfold up. rewrite Hp. by apply find_elem.
Qed.

Lemma child_of_up c a : a ∈ cs -> up a = Some c -> a ∈ childContainers cs c.
Proof.
  intros Ha Hup. apply up_elem in Hup as [_ Hp].
  apply list_elem_of_filter. split; [|done]. by apply bool_decide_pack.
Qed.

(** Seen from the top: below [c] is [c] itself or what is below a child
    of [c]. *)
Lemma under_top c g :
  under c g -> g ∈ cs -> g = c \/ exists a, a ∈ childContainers cs c /\ under a g.
Proof.
  induction 1 as [|h x Hup Hu IH]; intros Hh; [by left|]. right.
  destruct IH as [->|(a & Ha & Hax)]; [by apply up_elem in Hup as [? _]| |].
  - exists h. split; [by apply child_of_up|constructor].
  - exists a. split; [done|]. by eapply under_step.
Qed.

(** Every Group is below a root Group. *)
Lemma under_root g : g ∈ cs -> exists r, r ∈ rootContainers cs /\ under r g.
Proof.
  remember (depth g) as d eqn:Hd. revert g Hd.
  induction d as [|d IH]; intros g Hd Hg.
  - exists g. split; [|constructor]. apply list_elem_of_filter. split; [|done].
    destruct (root_or_up g Hg) as [[-> _]|[a Ha]]; [done|].
    rewrite (depth_up g a) in Hd by done. done.
  - destruct (root_or_up g Hg) as [[_ ?]|[a Ha]]; [congruence|].
    destruct (IH a) as (r & Hr & Hra).
    + rewrite (depth_up g a) in Hd by done. congruence.
    + by apply up_elem in Ha as [? _].
    + exists r. split; [done|]. by eapply under_step.
Qed.

Lemma root_depth r : r ∈ rootContainers cs -> r ∈ cs /\ depth r = O.
Proof.
  intros Hr. apply list_elem_of_filter in Hr as [Hp Hr]. split; [done|].
  destruct (root_or_up r Hr) as [[_ ?]|[a Ha]]; [done|].
  apply up_elem in Ha as [Ha Hpa]. rewrite Hpa in Hp. simpl in Hp.
  pose proof (id_nonempty a Ha). by destruct (cont_id a).
Qed.

Lemma owned_inj p q t : p ∈ cs -> q ∈ cs -> owned p t -> owned q t -> p = q.
Proof.
  intros Hp Hq. destruct t; simpl; try done; try congruence.
  intros -> [=]. by apply id_inj.
Qed.

Lemma rootDistance_lt n id d : rootDistance n cs id = Some d -> (d < n)%nat.
Proof.
  revert id d. induction n as [|n IH]; intros id d Hd; [done|]. simpl in Hd.
  destruct (find_container cs id) as [c|]; [|done].
  destruct (cont_parentContainerId c) as [p|]; [|injection Hd as <-; lia].
  apply fmap_Some in Hd as (d' & Hd' & ->). apply IH in Hd'. lia.
Qed.

Lemma child_depth c a : c ∈ cs -> a ∈ childContainers cs c -> depth a = S (depth c).
Proof.
  intros Hc Ha. destruct (under_child c a Hc Ha) as [Hin Hup]. by apply depth_up.
Qed.

Lemma under_of_child c a : c ∈ cs -> a ∈ childContainers cs c -> under c a.
Proof.
  intros Hc Ha. destruct (under_child c a Hc Ha) as [Hin Hup].
  eapply under_step; [done|constructor].
Qed.

Lemma skeleton_unfold fuel c :
  c ∈ cs ->
  skeleton (S fuel) (cont_id c) =
    children ← mapM (fun child => skeleton fuel (cont_id child)) (childContainers cs c);
    Some (OpenGroup c :: map NodeLine (itemsInContainer boardItems c)
          ++ concat children ++ [CloseGroup c]).
Proof. intros Hc. simpl. by rewrite find_elem. Qed.

(** With as much fuel as there are Groups the traversal of a root Group
    ends; deeper Groups need less. *)
Lemma skeleton_terminates fuel c :
  c ∈ cs -> (length cs <= fuel + depth c)%nat -> is_Some (skeleton fuel (cont_id c)).
Proof.
  revert c. induction fuel as [|fuel IH]; intros c Hc Hfuel.
  - pose proof (rootDistance_lt _ _ _ (depth_eq c Hc)). lia.
  - rewrite skeleton_unfold by done.
    assert (is_Some (mapM (fun child => skeleton fuel (cont_id child))
                          (childContainers cs c))) as [chs ->]; [|by eexists].
    apply mapM_is_Some. apply Forall_forall. intros a Ha. apply IH.
    + by apply (under_child c a).
    + rewrite (child_depth c a) by done. lia.
Qed.

(** Every piece of the traversal of [c] is appended by the call for a
    Group below [c]. *)
Lemma skeleton_elem fuel c out t :
  c ∈ cs -> skeleton fuel (cont_id c) = Some out -> t ∈ out ->
  exists p, p ∈ cs /\ under c p /\ t ∈ direct p.
Proof.
  revert c out. induction fuel as [|fuel IH]; intros c out Hc Hs Ht; [done|].
  rewrite skeleton_unfold in Hs by done.
  apply bind_Some in Hs as (chs & Hchs & [= <-]). apply mapM_Some in Hchs.
  apply elem_of_cons in Ht as [->|Ht]; [exists c; split; [done|split; [constructor|by left]]|].
  apply elem_of_app in Ht as [Ht|Ht].
  { exists c. split; [done|]. split; [constructor|]. unfold direct.
    apply elem_of_cons. right. apply elem_of_app. by left. }
  apply elem_of_app in Ht as [Ht|Ht].
  - apply list_elem_of_In, in_concat in Ht as (o & Ho & Hto).
    apply list_elem_of_In in Ho, Hto. apply list_elem_of_lookup in Ho as [i Hi].
    destruct (Forall2_lookup_r _ _ _ _ _ Hchs Hi) as (a & Ha & Hsa).
    apply list_elem_of_lookup_2 in Ha.
    destruct (IH a o) as (p & Hp & Hu & Hd); [by apply (under_child c a)|done|done|].
    exists p. split; [done|]. split; [|done].
    eapply under_trans; [by apply under_of_child|done].
  - exists c. split; [done|]. split; [constructor|]. unfold direct.
    apply elem_of_cons. right. apply elem_of_app. by right.
Qed.

(** *** The block of a Group *)

(** Nothing in [l] belongs to a Group below [g]. *)
Definition outside (g : ContainerItem) (l : list Tag) : Prop :=
  forall t, t ∈ l -> forall q, q ∈ cs -> under g q -> ~ owned q t.

(** [out] holds the traversal of [g] as one block, and nothing of what
    is below [g] outside of it. *)
Definition has_block (g : ContainerItem) (out : list Tag) : Prop :=
  exists pre block post fuel,
    out = pre ++ block ++ post
    /\ skeleton fuel (cont_id g) = Some block
    /\ outside g (pre ++ post).

Lemma outside_app g l1 l2 : outside g l1 -> outside g l2 -> outside g (l1 ++ l2).
Proof.
  intros H1 H2 t Ht. apply elem_of_app in Ht as [?|?]; [by apply H1|by apply H2].
Qed.

Lemma outside_app_inv g l1 l2 : outside g (l1 ++ l2) -> outside g l1 /\ outside g l2.
Proof.
  intros H. split; intros t Ht; apply H; apply elem_of_app; [by left|by right].
Qed.

Lemma has_block_extend g pre0 post0 out :
  has_block g out -> outside g pre0 -> outside g post0 ->
  has_block g (pre0 ++ out ++ post0).
Proof.
  intros (pre & block & post & fuel & -> & Hs & Hout) Hpre Hpost.
  apply outside_app_inv in Hout as [Ho1 Ho2].
  exists (pre0 ++ pre), block, (post ++ post0), fuel. split; [|split; [done|]].
  - by rewrite <- !app_assoc.
  - rewrite <- app_assoc. repeat apply outside_app; done.
Qed.

(** The traversal of a sibling that is not above [g] holds nothing of
    what is below [g]. *)
Lemma outside_sibling fuel a b g o :
  a ∈ cs -> b ∈ cs -> depth a = depth b -> a <> b ->
  under a g -> skeleton fuel (cont_id b) = Some o -> outside g o.
Proof.
  intros Ha Hb Hd Hne Hag Hs t Ht q Hq Hgq Hown.
  destruct (skeleton_elem fuel b o t Hb Hs Ht) as (p & Hp & Hbp & Hdir).
  apply owned_direct in Hdir. assert (q = p) as -> by by eapply owned_inj.
  apply Hne. apply (under_same_depth a b p); [|done|done|done].
  by eapply under_trans.
Qed.

Lemma outside_siblings fuel a g L os sep :
  a ∈ cs -> under a g ->
  (forall b, b ∈ L -> b ∈ cs /\ depth a = depth b /\ a <> b) ->
  Forall2 (fun b o => skeleton fuel (cont_id b) = Some o) L os ->
  outside g sep ->
  outside g (concat (map (fun o => o ++ sep) os)).
Proof.
  intros Ha Hag HL HF Hsep. induction HF as [|b o L os Hs HF IH]; simpl.
  - by intros t Ht%elem_of_nil.
  - apply outside_app; [apply outside_app; [|done]|].
    + destruct (HL b) as (Hb & Hd & Hne); [by left|].
      by eapply (outside_sibling fuel a b).
    + apply IH. intros b' Hb'. apply HL. by right.
Qed.

(** Among sibling Groups, traversed one after the other with [sep]
    after each, the block of [g] is in the traversal of the sibling
    above [g]. *)
Lemma forest_block fuel L os sep g a :
  (forall c out, c ∈ cs -> under c g -> skeleton fuel (cont_id c) = Some out ->
                 has_block g out) ->
  NoDup L -> (forall b, b ∈ L -> b ∈ cs /\ depth a = depth b) ->
  Forall2 (fun b o => skeleton fuel (cont_id b) = Some o) L os ->
  outside g sep ->
  a ∈ L -> under a g ->
  has_block g (concat (map (fun o => o ++ sep) os)).
Proof.
  intros Hblock Hnd HL HF Hsep Ha Hag.
  apply list_elem_of_split in Ha as (L1 & L2 & ->).
  apply Forall2_app_inv_l in HF as (os1 & os' & HF1 & HF2 & ->).
  apply Forall2_cons_inv_l in HF2 as (oa & os2 & Hsa & HF2 & ->).
  apply NoDup_app in Hnd as (_ & Hn1 & Hnd). apply NoDup_cons in Hnd as [Hn2 _].
  assert (Hacs : a ∈ cs).
  { apply HL. apply elem_of_app. right. by left. }
  rewrite map_app, concat_app. simpl. rewrite <- app_assoc.
  apply has_block_extend.
  - by apply (Hblock a).
  - apply (outside_siblings fuel a g L1 os1); [done|done| |done|done].
    intros b Hb. destruct (HL b) as [? ?]; [apply elem_of_app; by left|].
    split; [done|]. split; [done|]. intros ->. by apply (Hn1 b); [|left].
  - apply outside_app; [done|].
    apply (outside_siblings fuel a g L2 os2); [done|done| |done|done].
    intros b Hb. destruct (HL b) as [? ?]; [apply elem_of_app; right; by right|].
    split; [done|]. split; [done|]. by intros ->.
Qed.

Lemma outside_direct c g :
  c ∈ cs -> g ∈ cs -> under c g -> g <> c -> outside g (direct c).
Proof.
  intros Hc Hg Hcg Hne t Ht q Hq Hgq Hown. apply owned_direct in Ht.
  assert (q = c) as -> by by eapply owned_inj.
  apply Hne. destruct (under_depth c g Hcg Hg) as [k Hk].
  destruct (under_depth g c Hgq Hc) as [k' Hk'].
  apply under_depth_eq; [done|done|lia].
Qed.

Lemma map_app_nil {A} (os : list (list A)) : map (fun o => o ++ []) os = os.
Proof. induction os as [|o os IH]; [done|]. simpl. by rewrite app_nil_r, IH. Qed.

Lemma skeleton_block fuel c out g :
  c ∈ cs -> g ∈ cs -> under c g -> skeleton fuel (cont_id c) = Some out ->
  has_block g out.
Proof.
  revert c out. induction fuel as [|fuel IH]; intros c out Hc Hg Hcg Hs; [done|].
  destruct (under_top c g Hcg Hg) as [->|(a & Ha & Hag)].
  { exists [], out, [], (S fuel). rewrite app_nil_r. split; [done|]. split; [done|].
    by intros t Ht%elem_of_nil. }
  assert (Hne : g <> c).
  { intros ->. destruct (under_depth a c Hag Hc) as [k Hk].
    rewrite (child_depth c a) in Hk by done. lia. }
  rewrite skeleton_unfold in Hs by done.
  apply bind_Some in Hs as (chs & Hchs & [= <-]). apply mapM_Some in Hchs.
  assert (Hforest : has_block g (concat (map (fun o => o ++ []) chs))).
  { apply (forest_block fuel (childContainers cs c) chs [] g a); try done.
    - intros c' out' Hc' Hu' Hs'. by apply (IH c').
    - apply NoDup_filter, NoDup_cs.
    - intros b Hb. split; [by apply (under_child c b)|].
      by rewrite (child_depth c a), (child_depth c b).
    - by intros t Ht%elem_of_nil. }
  rewrite map_app_nil in Hforest.
  pose proof (outside_direct c g Hc Hg Hcg Hne) as Hdir.
  change (has_block g ((OpenGroup c :: map NodeLine (itemsInContainer boardItems c))
                       ++ concat chs ++ [CloseGroup c])).
  apply has_block_extend; [done| |].
  - intros t Ht. apply Hdir. unfold direct. apply elem_of_cons.
    apply elem_of_cons in Ht as [->|Ht]; [by left|]. right. apply elem_of_app. by left.
  - intros t Ht. apply Hdir. unfold direct. apply elem_of_cons. right.
    apply elem_of_app. by right.
Qed.

Lemma direct_in_skeleton fuel c out t :
  c ∈ cs -> skeleton fuel (cont_id c) = Some out -> t ∈ direct c -> t ∈ out.
Proof.
  intros Hc Hs Ht. destruct fuel as [|fuel]; [done|].
  rewrite skeleton_unfold in Hs by done.
  apply bind_Some in Hs as (chs & _ & [= <-]). unfold direct in Ht.
  apply elem_of_cons in Ht as [->|Ht]; [by left|]. right.
  apply elem_of_app in Ht as [Ht|Ht]; apply elem_of_app; [by left|right].
  apply elem_of_app. by right.
Qed.

(** What a Group below [g] appends is in the traversal of [g]. *)
Lemma direct_in_block fuel g block q t :
  g ∈ cs -> q ∈ cs -> under g q -> skeleton fuel (cont_id g) = Some block ->
  t ∈ direct q -> t ∈ block.
Proof.
  intros Hg Hq Hgq Hs Ht.
  destruct (skeleton_block fuel g block q Hg Hq Hgq Hs)
    as (pre & bq & post & fuel' & -> & Hsq & _).
  apply elem_of_app. right. apply elem_of_app. left.
  by apply (direct_in_skeleton fuel' q).
Qed.

(** The ordering invariant at one Group [g]: the output is [pre], the
    opening line of [g], [inner], the closing line of [g], [post]; the
    two lines of [g] occur nowhere else; no line of a Node or of a
    Group below [g] is in [pre] or [post]; and the lines of every Group
    below [g] and of every Node in [g] or in a Group below [g] are in
    [inner]. *)
Definition nested_at (g : ContainerItem) (tags : list Tag) : Prop :=
  exists pre inner post,
    tags = pre ++ OpenGroup g :: inner ++ CloseGroup g :: post
    /\ outside g (pre ++ post)
    /\ (OpenGroup g ∉ pre ++ inner ++ post)
    /\ (CloseGroup g ∉ pre ++ inner ++ post)
    /\ (forall h, h ∈ cs -> under g h -> h <> g ->
                  OpenGroup h ∈ inner /\ CloseGroup h ∈ inner)
    /\ (forall item q, item ∈ boardItems -> q ∈ cs -> under g q ->
                       item_parentContainerId item = Some (cont_id q) ->
                       NodeLine item ∈ inner).

Definition nested (tags : list Tag) : Prop :=
  forall g, g ∈ cs -> nested_at g tags.

Lemma has_block_nested g out : g ∈ cs -> has_block g out -> nested_at g out.
Proof.
  intros Hg (pre & block & post & fuel & -> & Hs & Hout).
  destruct fuel as [|fuel]; [done|]. pose proof Hs as Hs'.
  rewrite skeleton_unfold in Hs by done.
  apply bind_Some in Hs as (chs & Hchs & [= <-]). apply mapM_Some in Hchs.
  set (nodes := map NodeLine (itemsInContainer boardItems g)) in *.
  set (block := OpenGroup g :: nodes ++ concat chs ++ [CloseGroup g]) in *.
  assert (Hinner : forall t, t ∈ nodes ++ concat chs -> owned g t ->
                             exists item, t = NodeLine item).
  { intros t Ht Hown. apply elem_of_app in Ht as [Ht|Ht].
    - apply list_elem_of_fmap in Ht as (item & -> & _). eauto.
    - exfalso. apply list_elem_of_In, in_concat in Ht as (o & Ho & Hto).
      apply list_elem_of_In in Ho, Hto. apply list_elem_of_lookup in Ho as [i Hi].
      destruct (Forall2_lookup_r _ _ _ _ _ Hchs Hi) as (a & Ha & Hsa).
      apply list_elem_of_lookup_2 in Ha.
      destruct (under_child g a Hg Ha) as [Hacs Hup].
      destruct (skeleton_elem fuel a o t Hacs Hsa Hto) as (p & Hp & Hap & Hd).
      apply owned_direct in Hd. assert (g = p) as <- by by eapply owned_inj.
      destruct (under_depth a g Hap Hg) as [k Hk].
      rewrite (child_depth g a) in Hk by done. lia. }
  assert (Hmid : forall t, t ∈ block -> t <> OpenGroup g -> t <> CloseGroup g ->
                           t ∈ nodes ++ concat chs).
  { intros t Ht H1 H2. unfold block in Ht.
    apply elem_of_cons in Ht as [?|Ht]; [done|]. rewrite app_assoc in Ht.
    apply elem_of_app in Ht as [?|Ht]; [done|].
    by apply list_elem_of_singleton in Ht. }
  assert (Hown : forall t, owned g t -> (t ∉ pre) /\ (t ∉ post)).
  { intros t Ht. split; intros Hin.
    - refine (Hout t _ g Hg (under_refl g) Ht). apply elem_of_app. by left.
    - refine (Hout t _ g Hg (under_refl g) Ht). apply elem_of_app. by right. }
  assert (Hlines : forall t, owned g t -> (forall item, t <> NodeLine item) ->
                             t ∉ pre ++ (nodes ++ concat chs) ++ post).
  { intros t Ht Hnode Hin. destruct (Hown t Ht) as [H1 H2].
    apply elem_of_app in Hin as [Hin|Hin]; [done|].
    apply elem_of_app in Hin as [Hin|Hin]; [|done].
    destruct (Hinner t Hin Ht) as [item ->]. by apply (Hnode item). }
  exists pre, (nodes ++ concat chs), post. split; [|split; [done|split; [|split; [|split]]]].
  - unfold block. simpl. by rewrite <- !app_assoc.
  - by apply Hlines.
  - by apply Hlines.
  - intros h Hh Hgh Hne. split; apply Hmid; try congruence.
    + apply (direct_in_block (S fuel) g block h); try done. by left.
    + apply (direct_in_block (S fuel) g block h); try done.
      unfold direct. apply elem_of_cons. right. apply elem_of_app. right. by left.
  - intros item q Hitem Hq Hgq Hparent. apply Hmid; try done.
    apply (direct_in_block (S fuel) g block q); try done.
    unfold direct. apply elem_of_cons. right. apply elem_of_app. left.
    apply list_elem_of_fmap. exists item. split; [done|].
    apply list_elem_of_filter. split; [by apply bool_decide_pack|done].
Qed.

(** *** The roots *)

Lemma outside_unowned g l :
  (forall t, t ∈ l -> forall q, q ∈ cs -> ~ owned q t) -> outside g l.
Proof. intros H t Ht q Hq _. by apply H. Qed.

Lemma top_level_unowned t q :
  t ∈ map NodeLine (itemsNotInContainer boardItems) -> q ∈ cs -> ~ owned q t.
Proof.
  intros Ht Hq Hown. apply list_elem_of_fmap in Ht as (item & -> & Hi).
  apply list_elem_of_filter in Hi as [Hi _]. simpl in Hown. rewrite Hown in Hi.
  simpl in Hi. pose proof (id_nonempty q Hq). by destruct (cont_id q).
Qed.

(** The traversals of the root Groups, one after the other with [sep]
    after each, in any context [pre0], [post0] that holds no line of a
    Node in a Group and no line of a Group. *)
Lemma roots_nested fuel os sep pre0 post0 :
  Forall2 (fun r o => skeleton fuel (cont_id r) = Some o) (rootContainers cs) os ->
  (forall t, t ∈ pre0 ++ sep ++ post0 -> forall q, q ∈ cs -> ~ owned q t) ->
  nested (pre0 ++ concat (map (fun o => o ++ sep) os) ++ post0).
Proof.
  intros HF Hun g Hg. apply has_block_nested; [done|].
  destruct (under_root g Hg) as (r & Hr & Hrg).
  apply has_block_extend.
  - apply (forest_block fuel (rootContainers cs) os sep g r); try done.
    + intros c out Hc Hcg Hs. by apply (skeleton_block fuel c).
    + apply NoDup_filter, NoDup_cs.
    + intros b Hb. destruct (root_depth b Hb) as [? ->].
      by destruct (root_depth r Hr) as [? ->].
    + apply outside_unowned. intros t Ht. apply Hun.
      apply elem_of_app. right. apply elem_of_app. by left.
  - apply outside_unowned. intros t Ht. apply Hun. apply elem_of_app. by left.
  - apply outside_unowned. intros t Ht. apply Hun.
    apply elem_of_app. right. apply elem_of_app. by right.
Qed.

Lemma roots_terminate fuel :
  (length cs <= fuel)%nat ->
  exists os, Forall2 (fun r o => skeleton fuel (cont_id r) = Some o) (rootContainers cs) os.
Proof.
  intros Hfuel.
  assert (is_Some (mapM (fun r => skeleton fuel (cont_id r)) (rootContainers cs)))
    as [os Hos].
  { apply mapM_is_Some, Forall_forall. intros r Hr.
    destruct (root_depth r Hr) as [Hrc Hd]. apply skeleton_terminates; [done|lia]. }
  exists os. by apply mapM_Some.
Qed.

End Forest.

(** *** The tags of the two emitters *)

Lemma mapM_fmap_ext {A B C} (f : A -> option B) (g : A -> option C) (h : B -> C) l :
  (forall x, h <$> f x = g x) -> map h <$> mapM f l = mapM g l.
Proof.
  intros Hfg. induction l as [|a l IH]; [done|]. simpl.
  rewrite <- Hfg, <- IH. destruct (f a); [|done]. simpl. by destruct (mapM f l).
Qed.

Lemma exportContainerRecursive_tags bi cs fuel id depth :
  map tag <$> exportContainerRecursive bi cs fuel id depth = skeleton bi cs fuel id.
Proof.
  revert id depth. induction fuel as [|fuel IH]; intros id depth; [done|]. simpl.
  destruct (find_container cs id) as [c|]; [|done].
  rewrite <- (mapM_fmap_ext
                (fun child => exportContainerRecursive bi cs fuel (cont_id child) (S depth))
                _ (map tag)) by (intros; apply IH).
  destruct (mapM _ (childContainers cs c)) as [chs|]; [|done]. simpl. f_equal. f_equal.
  rewrite !map_app, map_map, concat_map. done.
Qed.

Lemma exportFlowchartContainerRecursive_tags bi cs fuel id depth :
  map tag <$> exportFlowchartContainerRecursive bi cs fuel id depth
  = skeleton bi cs fuel id.
Proof.
  revert id depth. induction fuel as [|fuel IH]; intros id depth; [done|]. simpl.
  destruct (find_container cs id) as [c|]; [|done].
  rewrite <- (mapM_fmap_ext
                (fun child =>
                   exportFlowchartContainerRecursive bi cs fuel (cont_id child) (S depth))
                _ (map tag)) by (intros; apply IH).
  destruct (mapM _ (childContainers cs c)) as [chs|]; [|done]. simpl. f_equal. f_equal.
  rewrite !map_app, map_map, concat_map. done.
Qed.

(** The pieces of the root Groups, each followed by [sep]. *)
Lemma roots_pieces bi cs fuel (f g : ContainerItem -> option (list Piece))
    (sep : list Piece) L os :
  (forall r, map tag <$> f r = skeleton bi cs fuel (cont_id r)) ->
  (forall r, g r = code ← f r; Some (code ++ sep)) ->
  Forall2 (fun r o => skeleton bi cs fuel (cont_id r) = Some o) L os ->
  exists groups,
    mapM g L = Some groups
    /\ map tag (concat groups) = concat (map (fun o => o ++ map tag sep) os).
Proof.
  intros Hf Hg HF. induction HF as [|r o L os Hs HF (groups & Hm & Ht)].
  - by exists [].
  - rewrite <- Hf in Hs. destruct (f r) as [code|] eqn:Hfr; [|done].
    injection Hs as <-. exists ((code ++ sep) :: groups). split.
    + simpl. rewrite Hg, Hfr, Hm. done.
    + simpl. rewrite !map_app, Ht. by rewrite <- app_assoc.
Qed.

Lemma exportEraser_nested boardItems containers connections fuel :
  well_formed containers ->
  (length containers <= fuel)%nat ->
  exists eraser,
    exportEraser boardItems containers connections fuel = Some eraser
    /\ nested boardItems containers (map tag eraser).
Proof.
  intros Hwf Hfuel.
  destruct (roots_terminate boardItems containers Hwf fuel Hfuel) as [os HF].
  destruct (roots_pieces boardItems containers fuel
              (fun r => exportContainerRecursive boardItems containers fuel (cont_id r) 0)
              (fun r => code ← exportContainerRecursive boardItems containers fuel
                                 (cont_id r) 0;
                        Some (code ++ [ {| tag := Other; text := nl |} ]))
              [ {| tag := Other; text := nl |} ] (rootContainers containers) os)
    as (ge & Hge & Htge); [intros; apply exportContainerRecursive_tags|done|done|].
  unfold exportEraser. rewrite Hge. simpl. eexists. split; [done|].
  rewrite map_cons, !map_app, Htge, app_comm_cons, app_assoc.
  apply (roots_nested boardItems containers Hwf fuel); [done|].
  intros t Ht q Hq Hown.
  apply elem_of_app in Ht as [Ht|Ht]; [apply elem_of_app in Ht as [Ht|Ht]|].
  - apply elem_of_cons in Ht as [->|Ht]; [done|]. rewrite map_map in Ht.
    by apply (top_level_unowned boardItems containers Hwf t q).
  - case_bool_decide; [by apply elem_of_nil in Ht|].
    apply list_elem_of_singleton in Ht as ->. done.
  - apply elem_of_cons in Ht as [->|Ht]; [done|].
    case_bool_decide; [by apply elem_of_nil in Ht|]. simpl in Ht.
    apply elem_of_cons in Ht as [->|Ht]; [done|].
    rewrite map_map in Ht. apply list_elem_of_fmap in Ht as (c & -> & _). done.
Qed.

Lemma exportFlowchart_nested boardItems containers connections fuel :
  well_formed containers ->
  (length containers <= fuel)%nat ->
  exists flowchart,
    exportFlowchart boardItems containers connections fuel = Some flowchart
    /\ nested boardItems containers (map tag flowchart).
Proof.
  intros Hwf Hfuel.
  destruct (roots_terminate boardItems containers Hwf fuel Hfuel) as [os HF].
  destruct (roots_pieces boardItems containers fuel
              (fun r => exportFlowchartContainerRecursive boardItems containers fuel
                          (cont_id r) 1)
              (fun r => exportFlowchartContainerRecursive boardItems containers fuel
                          (cont_id r) 1)
              [] (rootContainers containers) os)
    as (gf & Hgf & Htgf); [intros; apply exportFlowchartContainerRecursive_tags| |done|].
  { intros r. destruct (exportFlowchartContainerRecursive _ _ _ _ _); [|done].
    simpl. by rewrite app_nil_r. }
  unfold exportFlowchart. rewrite Hgf. simpl. eexists. split; [done|].
  rewrite map_cons, !map_app, Htgf, app_comm_cons.
  apply (roots_nested boardItems containers Hwf fuel); [done|].
  intros t Ht q Hq Hown.
  apply elem_of_app in Ht as [Ht|Ht].
  - apply elem_of_cons in Ht as [->|Ht]; [done|]. rewrite map_map in Ht.
    by apply (top_level_unowned boardItems containers Hwf t q).
  - simpl in Ht. apply elem_of_app in Ht as [Ht|Ht].
    + case_bool_decide; [by apply elem_of_nil in Ht|]. simpl in Ht.
      apply elem_of_cons in Ht as [->|Ht]; [done|].
      rewrite map_map in Ht. apply list_elem_of_fmap in Ht as (c & -> & _). done.
    + apply elem_of_cons in Ht as [->|Ht]; [done|].
      rewrite map_map in Ht. apply list_elem_of_fmap in Ht as (c & -> & _). done.
Qed.

(** *** Which Nodes are declared *)

Definition is_NodeLine (t : Tag) : bool :=
  match t with
  | NodeLine _ => true
  | _ => false
  end.

Section Declared.
Variables (boardItems : list ServiceItem) (cs : list ContainerItem).
Hypothesis Hwf : well_formed cs.

(** A Node whose parent is a Group of the Diagram. *)
Definition grouped (it : ServiceItem) : Prop :=
  it ∈ boardItems /\ exists q, q ∈ cs /\ item_parentContainerId it = Some (cont_id q).

Lemma NodeLine_in_direct it p : NodeLine it ∈ direct boardItems p <->
  it ∈ boardItems /\ item_parentContainerId it = Some (cont_id p).
Proof.
  unfold direct. rewrite elem_of_cons, elem_of_app, list_elem_of_fmap,
    list_elem_of_singleton. split.
  - intros [?|[(it' & [= <-] & Hit)|?]]; [done| |done].
    apply list_elem_of_filter in Hit as [Hp Hin]. split; [done|].
    by apply bool_decide_unpack in Hp.
  - intros [Hin Hp]. right. left. exists it. split; [done|].
    apply list_elem_of_filter. split; [by apply bool_decide_pack|done].
Qed.

Lemma NodeLine_in_roots fuel os sep it :
  Forall2 (fun r o => skeleton boardItems cs fuel (cont_id r) = Some o)
          (rootContainers cs) os ->
  (forall t, t ∈ sep -> is_NodeLine t = false) ->
  NodeLine it ∈ concat (map (fun o => o ++ sep) os) <-> grouped it.
Proof.
  intros HF Hsep. split.
  - intros Hin. apply list_elem_of_In, in_concat in Hin as (o' & Ho' & Hin).
    apply list_elem_of_In in Ho', Hin. apply list_elem_of_fmap in Ho' as (o & -> & Ho).
    apply elem_of_app in Hin as [Hin|Hin]; [|by apply Hsep in Hin].
    apply list_elem_of_lookup in Ho as [i Hi].
    destruct (Forall2_lookup_r _ _ _ _ _ HF Hi) as (r & Hr & Hs).
    apply list_elem_of_lookup_2 in Hr.
    destruct (root_depth cs Hwf r Hr) as [Hrcs _].
    destruct (skeleton_elem boardItems cs Hwf fuel r o _ Hrcs Hs Hin) as (p & Hp & _ & Hd).
    apply NodeLine_in_direct in Hd as [Hit Hpar]. split; [done|]. by exists p.
  - intros (Hit & q & Hq & Hpar).
    destruct (under_root cs Hwf q Hq) as (r & Hr & Hu).
    destruct (list_elem_of_lookup_1 _ _ Hr) as [i Hi].
    destruct (Forall2_lookup_l _ _ _ _ _ HF Hi) as (o & Ho & Hs).
    destruct (root_depth cs Hwf r Hr) as [Hrcs _].
    apply list_elem_of_In, in_concat. exists (o ++ sep). split.
    + apply list_elem_of_In, list_elem_of_fmap. exists o. split; [done|].
      by eapply list_elem_of_lookup_2.
    + apply list_elem_of_In, elem_of_app. left.
      apply (direct_in_block boardItems cs Hwf fuel r o q); [done|done|done|done|].
      by apply NodeLine_in_direct.
Qed.

Lemma NodeLine_top it :
  NodeLine it ∈ map NodeLine (itemsNotInContainer boardItems) <->
  it ∈ boardItems /\ truthy (item_parentContainerId it) = false.
Proof.
  rewrite list_elem_of_fmap. split.
  - intros (it' & [= <-] & Hit). apply list_elem_of_filter in Hit as [Hp Hin].
    split; [done|]. by apply negb_prop_elim, Is_true_false in Hp.
  - intros [Hin Hp]. exists it. split; [done|]. apply list_elem_of_filter.
    split; [|done]. rewrite Hp. done.
Qed.

End Declared.

(** The tags of the two outputs, from the traversals [os] of the root
    Groups. *)
Definition eraser_tags (boardItems : list ServiceItem) (connections : list Connection)
    (os : list (list Tag)) : list Tag :=
  Other :: map NodeLine (itemsNotInContainer boardItems)
  ++ (if bool_decide (itemsNotInContainer boardItems = []) then [] else [Other])
  ++ concat (map (fun o => o ++ [Other]) os)
  ++ (if bool_decide (connections = []) then [] else Other :: map EdgeLine connections).

Definition flowchart_tags (boardItems : list ServiceItem) (connections : list Connection)
    (os : list (list Tag)) : list Tag :=
  Other :: map NodeLine (itemsNotInContainer boardItems)
  ++ concat (map (fun o => o ++ []) os)
  ++ (if bool_decide (connections = []) then [] else Other :: map EdgeLine connections)
  ++ Other :: map StyleLine boardItems.

Lemma exportEraser_tag_list boardItems containers connections fuel os :
  Forall2 (fun r o => skeleton boardItems containers fuel (cont_id r) = Some o)
          (rootContainers containers) os ->
  exists eraser,
    exportEraser boardItems containers connections fuel = Some eraser
    /\ map tag eraser = eraser_tags boardItems connections os.
Proof.
  intros HF.
  destruct (roots_pieces boardItems containers fuel
              (fun r => exportContainerRecursive boardItems containers fuel (cont_id r) 0)
              (fun r => code ← exportContainerRecursive boardItems containers fuel
                                 (cont_id r) 0;
                        Some (code ++ [ {| tag := Other; text := nl |} ]))
              [ {| tag := Other; text := nl |} ] (rootContainers containers) os)
    as (ge & Hge & Htge); [intros; apply exportContainerRecursive_tags|done|done|].
  unfold exportEraser. rewrite Hge. cbn [mbind option_bind].
  eexists. split; [reflexivity|]. unfold eraser_tags.
  rewrite !map_app, Htge, !map_map. cbn [map tag eraserNode app]. f_equal. f_equal.
  f_equal; [by case_bool_decide|]. f_equal.
  case_bool_decide; [done|]. cbn [map tag]. by rewrite map_map.
Qed.

Lemma exportFlowchart_tag_list boardItems containers connections fuel os :
  Forall2 (fun r o => skeleton boardItems containers fuel (cont_id r) = Some o)
          (rootContainers containers) os ->
  exists flowchart,
    exportFlowchart boardItems containers connections fuel = Some flowchart
    /\ map tag flowchart = flowchart_tags boardItems connections os.
Proof.
  intros HF.
  destruct (roots_pieces boardItems containers fuel
              (fun r => exportFlowchartContainerRecursive boardItems containers fuel
                          (cont_id r) 1)
              (fun r => exportFlowchartContainerRecursive boardItems containers fuel
                          (cont_id r) 1)
              [] (rootContainers containers) os)
    as (gf & Hgf & Htgf); [intros; apply exportFlowchartContainerRecursive_tags| |done|].
  { intros r. destruct (exportFlowchartContainerRecursive _ _ _ _ _); [|done].
    simpl. by rewrite app_nil_r. }
  unfold exportFlowchart. rewrite Hgf. cbn [mbind option_bind].
  eexists. split; [reflexivity|]. unfold flowchart_tags.
  rewrite !map_app, Htgf, !map_map. cbn [map tag flowchartNode flowchartStyle app].
  f_equal. f_equal. f_equal. f_equal.
  case_bool_decide; [done|]. cbn [map tag]. by rewrite map_map.
Qed.

Section TagLists.
Variables (boardItems : list ServiceItem) (containers : list ContainerItem)
          (connections : list Connection) (fuel : nat) (os : list (list Tag)).
Hypothesis Hwf : well_formed containers.
Hypothesis HF :
  Forall2 (fun r o => skeleton boardItems containers fuel (cont_id r) = Some o)
          (rootContainers containers) os.

(** A Node that an emitter declares: its parent is falsy or names a
    Group of the Diagram. *)
Definition declared (it : ServiceItem) : Prop :=
  it ∈ boardItems
  /\ (truthy (item_parentContainerId it) = false
      \/ exists q, q ∈ containers /\ item_parentContainerId it = Some (cont_id q)).

Lemma edges_EdgeLine e :
  EdgeLine e ∈ (if bool_decide (connections = []) then []
                else Other :: map EdgeLine connections) <-> e ∈ connections.
Proof.
  case_bool_decide as Hnil.
  { rewrite Hnil. split; intros Hin; by apply elem_of_nil in Hin. }
  rewrite elem_of_cons, list_elem_of_fmap. split.
  - by intros [?|(e' & [= <-] & He')].
  - intros Hin. right. by exists e.
Qed.

Lemma edges_other (t : Tag) :
  (forall e, t <> EdgeLine e) ->
  t ∈ (if bool_decide (connections = []) then []
       else Other :: map EdgeLine connections) -> t = Other.
Proof.
  intros Hne Ht. destruct (bool_decide (connections = [])); [by apply elem_of_nil in Ht|].
  apply elem_of_cons in Ht as [?|Ht]; [done|].
  apply list_elem_of_fmap in Ht as (e & -> & _). by destruct (Hne e).
Qed.

Lemma separator_other (t : Tag) :
  t ∈ (if bool_decide (itemsNotInContainer boardItems = []) then [] else [Other]) ->
  t = Other.
Proof.
  intros Ht. destruct (bool_decide (itemsNotInContainer boardItems = []));
    [by apply elem_of_nil in Ht|].
  by apply list_elem_of_singleton in Ht.
Qed.

(** Between the lines of the Groups there are only separators. *)
Lemma roots_other (t : Tag) sep :
  (forall it, t <> NodeLine it) -> (forall g, t <> OpenGroup g) ->
  (forall g, t <> CloseGroup g) ->
  t ∈ concat (map (fun o => o ++ sep) os) -> t ∈ sep.
Proof.
  intros Hn Ho Hc Hin.
  apply list_elem_of_In, in_concat in Hin as (o' & Ho' & Hin).
  apply list_elem_of_In in Ho', Hin. apply list_elem_of_fmap in Ho' as (o & -> & Hoo).
  apply elem_of_app in Hin as [Hin|Hin]; [|done]. exfalso.
  apply list_elem_of_lookup in Hoo as [i Hi].
  destruct (Forall2_lookup_r _ _ _ _ _ HF Hi) as (r & Hr & Hs).
  apply list_elem_of_lookup_2 in Hr.
  destruct (root_depth containers Hwf r Hr) as [Hrcs _].
  destruct (skeleton_elem boardItems containers Hwf fuel r o _ Hrcs Hs Hin)
    as (p & Hp & _ & Hd).
  unfold direct in Hd. apply elem_of_cons in Hd as [->|Hd]; [by destruct (Ho p)|].
  apply elem_of_app in Hd as [Hd|Hd].
  - apply list_elem_of_fmap in Hd as (it & -> & _). by destruct (Hn it).
  - apply list_elem_of_singleton in Hd as ->. by destruct (Hc p).
Qed.

Lemma eraser_tags_NodeLine it :
  NodeLine it ∈ eraser_tags boardItems connections os <-> declared it.
Proof.
  unfold eraser_tags, declared. rewrite elem_of_cons, !elem_of_app.
  rewrite (NodeLine_in_roots boardItems containers Hwf fuel os [Other] it HF)
    by (intros t Ht; by apply list_elem_of_singleton in Ht as ->).
  rewrite (NodeLine_top boardItems it). unfold grouped. split.
  - intros [?|[?|[Hs|[?|Hc]]]]; [done|tauto|by apply separator_other in Hs|tauto|].
    by apply edges_other in Hc.
  - intros [Hin [Hp|Hq]]; [right; left; done|right; right; right; left; done].
Qed.

Lemma flowchart_tags_NodeLine it :
  NodeLine it ∈ flowchart_tags boardItems connections os <-> declared it.
Proof.
  unfold flowchart_tags, declared. rewrite elem_of_cons, !elem_of_app, elem_of_cons.
  rewrite (NodeLine_in_roots boardItems containers Hwf fuel os [] it HF)
    by (intros t Ht; by apply elem_of_nil in Ht).
  rewrite (NodeLine_top boardItems it). unfold grouped. split.
  - intros [?|[?|[?|[Hc|[?|Hs]]]]]; [done|tauto|tauto| |done|].
    + by apply edges_other in Hc.
    + by apply list_elem_of_fmap in Hs as (? & ? & _).
  - intros [Hin [Hp|Hq]]; [right; left; done|right; right; left; done].
Qed.

Lemma flowchart_tags_StyleLine it :
  StyleLine it ∈ flowchart_tags boardItems connections os <-> it ∈ boardItems.
Proof.
  unfold flowchart_tags. rewrite elem_of_cons, !elem_of_app, elem_of_cons. split.
  - intros [?|[Ht|[Hs|[Hc|[?|Hin]]]]]; [done| | | |done|].
    + by apply list_elem_of_fmap in Ht as (? & ? & _).
    + apply roots_other in Hs; [by apply elem_of_nil in Hs|done..].
    + by apply edges_other in Hc.
    + by apply list_elem_of_fmap in Hin as (it' & [= <-] & Hin).
  - intros Hin. right. right. right. right. right.
    apply list_elem_of_fmap. by exists it.
Qed.

Lemma eraser_tags_EdgeLine e :
  EdgeLine e ∈ eraser_tags boardItems connections os <-> e ∈ connections.
Proof.
  unfold eraser_tags. rewrite elem_of_cons, !elem_of_app. split.
  - intros [?|[Ht|[Hs|[Hs|Hc]]]]; [done| | | |].
    + by apply list_elem_of_fmap in Ht as (? & ? & _).
    + by apply separator_other in Hs.
    + apply roots_other in Hs; [by apply list_elem_of_singleton in Hs|done..].
    + by apply edges_EdgeLine.
  - intros Hin. right. right. right. right. by apply edges_EdgeLine.
Qed.

Lemma flowchart_tags_EdgeLine e :
  EdgeLine e ∈ flowchart_tags boardItems connections os <-> e ∈ connections.
Proof.
  unfold flowchart_tags. rewrite elem_of_cons, !elem_of_app, elem_of_cons. split.
  - intros [?|[Ht|[Hs|[Hc|[?|Hs]]]]]; [done| | | |done|].
    + by apply list_elem_of_fmap in Ht as (? & ? & _).
    + apply roots_other in Hs; [by apply elem_of_nil in Hs|done..].
    + by apply edges_EdgeLine.
    + by apply list_elem_of_fmap in Hs as (? & ? & _).
  - intros Hin. right. right. right. left. by apply edges_EdgeLine.
Qed.

(** The style directives are the end of the flowchart. *)
Lemma flowchart_tags_styles_last :
  exists body,
    flowchart_tags boardItems connections os = body ++ Other :: map StyleLine boardItems
    /\ forall it, StyleLine it ∉ body.
Proof.
  exists (Other :: map NodeLine (itemsNotInContainer boardItems)
          ++ concat (map (fun o => o ++ []) os)
          ++ (if bool_decide (connections = []) then []
              else Other :: map EdgeLine connections)).
  split.
  - unfold flowchart_tags. simpl. f_equal. by rewrite <- !app_assoc.
  - intros it. rewrite elem_of_cons, !elem_of_app.
    intros [?|[Ht|[Hs|Hc]]]; [done| | |].
    + by apply list_elem_of_fmap in Ht as (? & ? & _).
    + apply roots_other in Hs; [by apply elem_of_nil in Hs|done..].
    + by apply edges_other in Hc.
Qed.

End TagLists.

(** *** The lines of the two languages

    What the emitters are to write for the entities of a Diagram. In
    the DSL a Group at depth [d] of the hierarchy (a root Group at 0)
    opens with [<id> [label: <name>, icon: <icon>] {], indented by two
    spaces for each level, and closes with a brace at that indentation;
    a Node is [<id> [label: <name>, icon: <icon>]], one level deeper
    than its Group; an Edge is [<from> > <to>], followed by
    [: <label>] when it has one. In the flowchart a Group opens, after
    an empty line, with [subgraph <id>[<name>]], indented by four
    spaces for each level from 1 on, and closes with [end]; a Node is
    [<id>[<name>]], one level deeper; an Edge is [<from> --> <to>] or
    [<from> -->|<label>| <to>]; the style directive of a Node is
    [style <id> fill:<color>,stroke:#333,stroke-width:2px,color:#fff].
    Ids are sanitized and names and labels are in double quotes. *)
Section Lines.
Variables (boardItems : list ServiceItem) (cs : list ContainerItem).

(** The level of a Node: 0 at the top, else one more than the depth of
    its Group. *)
Definition node_level (item : ServiceItem) : nat :=
  match item_parentContainerId item with
  | Some p =>
      match find_container cs p with
      | Some q => S (depth cs q)
      | None => O
      end
  | None => O
  end.

Definition eraser_line (t : Tag) : option string :=
  match t with
  | OpenGroup g =>
      Some (repeat_string "  " (depth cs g) +:+ sanitize (cont_id g)
            +:+ " [label: " +:+ dq +:+ cont_name g +:+ dq
            +:+ ", icon: " +:+ groupIcon boardItems g +:+ "] {" +:+ nl)
  | NodeLine item =>
      Some (repeat_string "  " (node_level item) +:+ sanitize (item_id item)
            +:+ " [label: " +:+ dq +:+ nodeName item +:+ dq
            +:+ ", icon: " +:+ getEraserIconName (item_name item) +:+ "]" +:+ nl)
  | CloseGroup g => Some (repeat_string "  " (depth cs g) +:+ "}" +:+ nl)
  | EdgeLine e =>
      Some (match labelled e with
            | Some l => sanitize (conn_from e) +:+ " > " +:+ sanitize (conn_to e)
                        +:+ " : " +:+ dq +:+ l +:+ dq +:+ nl
            | None => sanitize (conn_from e) +:+ " > " +:+ sanitize (conn_to e) +:+ nl
            end)
  | StyleLine _ | Other => None
  end.

Definition flowchart_line (t : Tag) : option string :=
  match t with
  | OpenGroup g =>
      Some (nl +:+ repeat_string "    " (S (depth cs g)) +:+ "subgraph "
            +:+ sanitize (cont_id g) +:+ "[" +:+ dq +:+ cont_name g +:+ dq +:+ "]" +:+ nl)
  | NodeLine item =>
      Some ((repeat_string "    " (node_level item) +:+ "    ")
            +:+ sanitize (item_id item) +:+ "[" +:+ dq +:+ nodeName item +:+ dq
            +:+ "]" +:+ nl)
  | CloseGroup g => Some (repeat_string "    " (S (depth cs g)) +:+ "end" +:+ nl)
  | EdgeLine e =>
      Some (match labelled e with
            | Some l => "    " +:+ sanitize (conn_from e) +:+ " -->|" +:+ dq +:+ l +:+ dq
                        +:+ "| " +:+ sanitize (conn_to e) +:+ nl
            | None => "    " +:+ sanitize (conn_from e) +:+ " --> "
                      +:+ sanitize (conn_to e) +:+ nl
            end)
  | StyleLine item =>
      Some ("    style " +:+ sanitize (item_id item) +:+ " fill:" +:+ item_color item
            +:+ ",stroke:#333,stroke-width:2px,color:#fff" +:+ nl)
  | Other => None
  end.

(** The piece [p] holds the line of its entity. *)
Definition written (line : Tag -> option string) (p : Piece) : Prop :=
  forall s, line (tag p) = Some s -> text p = s.

(** The text that goes to the clipboard: the pieces one after the
    other. *)
Definition text_of (pieces : list Piece) : string :=
  foldr (fun p s => text p +:+ s) "" pieces.

Hypothesis Hwf : well_formed cs.

Lemma node_level_in c item :
  c ∈ cs -> item ∈ itemsInContainer boardItems c -> node_level item = S (depth cs c).
Proof.
  intros Hc Hi. apply list_elem_of_filter in Hi as [Hp _].
  apply bool_decide_unpack in Hp. unfold node_level.
  by rewrite Hp, (find_elem cs Hwf c Hc).
Qed.

Lemma node_level_top item :
  item ∈ itemsNotInContainer boardItems -> node_level item = O.
Proof.
  intros Hi. apply list_elem_of_filter in Hi as [Hp _].
  apply negb_prop_elim, Is_true_false in Hp. unfold node_level.
  destruct (item_parentContainerId item) as [[|a r]|]; [|done|done].
  destruct (find_container cs "") as [q|] eqn:Hq; [|done].
  destruct (find_container_Some _ _ _ Hq) as [Hin Hid].
  apply list_elem_of_In in Hin. by destruct (id_nonempty cs Hwf q Hin).
Qed.

Lemma Forall_concat_pieces (P : Piece -> Prop) (ls : list (list Piece)) :
  Forall (Forall P) ls -> Forall P (concat ls).
Proof.
  induction 1 as [|l ls Hl _ IH]; [done|]. simpl. by apply Forall_app.
Qed.

Lemma Forall2_pieces {A} (f : A -> option (list Piece)) (P : Piece -> Prop) l chs :
  Forall2 (fun x y => f x = Some y) l chs ->
  (forall x y, x ∈ l -> f x = Some y -> Forall P y) ->
  Forall P (concat chs).
Proof.
  intros HF Hall. apply Forall_concat_pieces.
  induction HF as [|x y l chs Hxy _ IH]; [done|]. constructor.
  - apply (Hall x y); [apply list_elem_of_here|done].
  - apply IH. intros x' y' Hx'. apply Hall. by apply list_elem_of_further.
Qed.

Lemma exportContainerRecursive_lines fuel c ps :
  c ∈ cs ->
  exportContainerRecursive boardItems cs fuel (cont_id c) (depth cs c) = Some ps ->
  Forall (written eraser_line) ps.
Proof.
  revert c ps. induction fuel as [|fuel IH]; intros c ps Hc Hps; [done|].
  cbn [exportContainerRecursive] in Hps. rewrite (find_elem cs Hwf c Hc) in Hps.
  apply bind_Some in Hps as (chs & Hchs & Hps). apply mapM_Some in Hchs.
  injection Hps as <-.
  constructor; [by intros s [= <-]|].
  apply Forall_app. split.
  { apply Forall_forall. intros p Hp. apply list_elem_of_fmap in Hp as (item & -> & Hi).
    intros s [= <-]. cbn [eraserNode text]. by rewrite (node_level_in c item). }
  apply Forall_app. split.
  - apply (Forall2_pieces _ _ _ _ Hchs). intros a ch Ha Hch.
    apply (IH a ch).
    + by destruct (under_child cs Hwf c a Hc Ha).
    + by rewrite (child_depth cs Hwf c a Hc Ha).
  - apply Forall_singleton. intros s [= <-]. done.
Qed.

Lemma exportFlowchartContainerRecursive_lines fuel c ps :
  c ∈ cs ->
  exportFlowchartContainerRecursive boardItems cs fuel (cont_id c) (S (depth cs c))
  = Some ps ->
  Forall (written flowchart_line) ps.
Proof.
  revert c ps. induction fuel as [|fuel IH]; intros c ps Hc Hps; [done|].
  cbn [exportFlowchartContainerRecursive] in Hps.
  rewrite (find_elem cs Hwf c Hc) in Hps. cbv zeta in Hps.
  apply bind_Some in Hps as (chs & Hchs & Hps). apply mapM_Some in Hchs.
  injection Hps as <-.
  constructor; [by intros s [= <-]|].
  apply Forall_app. split.
  { apply Forall_forall. intros p Hp. apply list_elem_of_fmap in Hp as (item & -> & Hi).
    intros s [= <-]. cbn [flowchartNode text]. by rewrite (node_level_in c item). }
  apply Forall_app. split.
  - apply (Forall2_pieces _ _ _ _ Hchs). intros a ch Ha Hch.
    apply (IH a ch).
    + by destruct (under_child cs Hwf c a Hc Ha).
    + by rewrite (child_depth cs Hwf c a Hc Ha).
  - apply Forall_singleton. intros s [= <-]. done.
Qed.

(** The pieces of both outputs hold the lines of their entities. *)
Lemma exportEraser_lines connections fuel eraser :
  exportEraser boardItems cs connections fuel = Some eraser ->
  Forall (written eraser_line) eraser.
Proof.
  unfold exportEraser. intros He.
  apply bind_Some in He as (groups & Hg & He). apply mapM_Some in Hg.
  injection He as <-.
  constructor; [by intros s [=]|].
  apply Forall_app. split.
  { apply Forall_forall. intros p Hp. apply list_elem_of_fmap in Hp as (item & -> & Hi).
    intros s [= <-]. cbn [eraserNode text]. by rewrite (node_level_top item). }
  apply Forall_app. split.
  { case_bool_decide; [done|]. apply Forall_singleton. by intros s [=]. }
  apply Forall_app. split.
  - apply (Forall2_pieces _ _ _ _ Hg). intros r ps Hr Hps.
    destruct (root_depth cs Hwf r Hr) as [Hrcs Hd].
    apply bind_Some in Hps as (code & Hcode & [= <-]).
    apply Forall_app. split.
    + apply (exportContainerRecursive_lines fuel r); [done|by rewrite Hd].
    + apply Forall_singleton. by intros s [=].
  - case_bool_decide; [done|]. constructor; [by intros s [=]|].
    apply Forall_forall. intros p Hp. apply list_elem_of_fmap in Hp as (e & -> & _).
    intros s [= <-]. done.
Qed.

Lemma exportFlowchart_lines connections fuel flowchart :
  exportFlowchart boardItems cs connections fuel = Some flowchart ->
  Forall (written flowchart_line) flowchart.
Proof.
  unfold exportFlowchart. intros Hf.
  apply bind_Some in Hf as (groups & Hg & Hf). apply mapM_Some in Hg.
  injection Hf as <-.
  constructor; [by intros s [=]|].
  apply Forall_app. split.
  { apply Forall_forall. intros p Hp. apply list_elem_of_fmap in Hp as (item & -> & Hi).
    intros s [= <-]. cbn [flowchartNode text]. by rewrite (node_level_top item). }
  apply Forall_app. split.
  { apply (Forall2_pieces _ _ _ _ Hg). intros r ps Hr Hps.
    destruct (root_depth cs Hwf r Hr) as [Hrcs Hd].
    apply (exportFlowchartContainerRecursive_lines fuel r); [done|by rewrite Hd]. }
  apply Forall_app. split.
  { case_bool_decide; [done|]. constructor; [by intros s [=]|].
    apply Forall_forall. intros p Hp. apply list_elem_of_fmap in Hp as (e & -> & _).
    intros s [= <-]. done. }
  constructor; [by intros s [=]|].
  apply Forall_forall. intros p Hp. apply list_elem_of_fmap in Hp as (item & -> & _).
  intros s [= <-]. done.
Qed.

Lemma mermaidCode_text_of connections exportFormat fuel eraser flowchart :
  exportEraser boardItems cs connections fuel = Some eraser ->
  exportFlowchart boardItems cs connections fuel = Some flowchart ->
  mermaidCode boardItems cs connections exportFormat fuel
  = Some (text_of (if bool_decide (exportFormat = "eraser") then eraser else flowchart)).
Proof.
  intros He Hf. unfold mermaidCode. case_bool_decide; [by rewrite He|by rewrite Hf].
Qed.

End Lines.

(** C4, as amended. On a Diagram whose Groups form a well-formed
    hierarchy (unique ids that are not empty, every parent present, no
    cycle), with fuel for as many nested calls as there are Groups, both
    emitters return their output, the text that goes to the clipboard
    is the pieces of that output one after the other, and every piece
    of a Group, a Node, an Edge or a style directive holds the line of
    its entity, at the indentation of its depth. In both outputs, for
    every Group [g]: the opening line of [g] and its closing line are
    written exactly once, the opening line first; the declaration line
    of every Node in [g] or in a Group below [g], and the opening and
    the closing line of every Group below [g], are written, and only
    between the two lines of [g]. The style directives of the flowchart
    are no part of that: they are the last lines of the output, after
    every Group. *)
Theorem emitters_nest_groups (boardItems : list ServiceItem)
    (containers : list ContainerItem) (connections : list Connection) (fuel : nat) :
  well_formed containers ->
  (length containers <= fuel)%nat ->
  exists eraser flowchart,
    exportEraser boardItems containers connections fuel = Some eraser
    /\ exportFlowchart boardItems containers connections fuel = Some flowchart
    /\ (forall exportFormat,
          mermaidCode boardItems containers connections exportFormat fuel
          = Some (text_of (if bool_decide (exportFormat = "eraser")
                           then eraser else flowchart)))
    /\ Forall (written (eraser_line boardItems containers)) eraser
    /\ Forall (written (flowchart_line containers)) flowchart
    /\ nested boardItems containers (map tag eraser)
    /\ nested boardItems containers (map tag flowchart)
    /\ exists body,
         map tag flowchart = body ++ Other :: map StyleLine boardItems
         /\ forall item, StyleLine item ∉ body.
Proof.
  intros Hwf Hfuel.
  destruct (exportEraser_nested boardItems containers connections fuel Hwf Hfuel)
    as (eraser & He & Hne).
  destruct (exportFlowchart_nested boardItems containers connections fuel Hwf Hfuel)
    as (flowchart & Hf & Hnf).
  exists eraser, flowchart. split; [exact He|]. split; [exact Hf|].
  split; [intros fmt; by apply mermaidCode_text_of|].
  split; [by apply (exportEraser_lines boardItems containers Hwf connections fuel)|].
  split; [by apply (exportFlowchart_lines boardItems containers Hwf connections fuel)|].
  split; [exact Hne|]. split; [exact Hnf|].
  destruct (roots_terminate boardItems containers Hwf fuel Hfuel) as [os HF].
  destruct (exportFlowchart_tag_list boardItems containers connections fuel os HF)
    as (flowchart' & Hf' & Htf).
  rewrite Hf in Hf'. injection Hf' as <-. rewrite Htf.
  apply (flowchart_tags_styles_last boardItems containers connections fuel os Hwf HF).
Qed.

(** *** The invariant in terms of positions *)

Lemma lookup_middle {A} (pre inner post : list A) (x y : A) i t :
  (pre ++ x :: inner ++ y :: post) !! i = Some t ->
  (t ∈ pre /\ (i < length pre)%nat)
  \/ (t = x /\ i = length pre)
  \/ (t ∈ inner /\ (length pre < i < length pre + 1 + length inner)%nat)
  \/ (t = y /\ i = (length pre + 1 + length inner)%nat)
  \/ (t ∈ post /\ (length pre + 1 + length inner < i)%nat).
Proof.
  intros Hi. apply lookup_app_Some in Hi as [Hi|[Hlen Hi]].
  { left. split; [by eapply list_elem_of_lookup_2|by eapply lookup_lt_Some]. }
  right. apply lookup_cons_Some in Hi as [[Hi <-]|[Hpos Hi]].
  { left. split; [done|lia]. }
  right. apply lookup_app_Some in Hi as [Hi|[Hlen' Hi]].
  { left. split; [by eapply list_elem_of_lookup_2|].
    apply lookup_lt_Some in Hi. lia. }
  right. apply lookup_cons_Some in Hi as [[Hi <-]|[Hpos' Hi]].
  { left. split; [done|lia]. }
  right. split; [by eapply list_elem_of_lookup_2|lia].
Qed.

(** In an output nested at [g], the opening line of [g] comes strictly
    before, and its closing line strictly after, every line of a Node
    or of a Group below [g]. *)
Lemma nested_at_positions bi cs g tags :
  nested_at bi cs g tags ->
  forall i k, tags !! i = Some (OpenGroup g) -> tags !! k = Some (CloseGroup g) ->
    (i < k)%nat
    /\ forall j t q, tags !! j = Some t ->
         q ∈ cs -> under cs g q -> owned q t ->
         t <> OpenGroup g -> t <> CloseGroup g ->
         (i < j < k)%nat.
Proof.
  intros (pre & inner & post & -> & Hout & Hopen & Hclose & _) i k Hi Hk.
  assert (i = length pre) as ->.
  { apply lookup_middle in Hi as [[? _]|[[_ ?]|[[? _]|[[? _]|[? _]]]]]; try done;
      exfalso; apply Hopen; rewrite !elem_of_app; auto. }
  assert (k = (length pre + 1 + length inner)%nat) as ->.
  { apply lookup_middle in Hk as [[? _]|[[? _]|[[? _]|[[_ ?]|[? _]]]]]; try done;
      exfalso; apply Hclose; rewrite !elem_of_app; auto. }
  split; [lia|]. intros j t q Hj Hq Hgq Hown Hno Hnc.
  apply lookup_middle in Hj as [[Hin _]|[[? _]|[[_ ?]|[[? _]|[Hin _]]]]]; try done.
  - exfalso. refine (Hout t _ q Hq Hgq Hown). apply elem_of_app. by left.
  - exfalso. refine (Hout t _ q Hq Hgq Hown). apply elem_of_app. by right.
Qed.

Definition example_items : list ServiceItem :=
  [ {| item_id := "ec2-1"; item_name := "EC2"; item_customName := Some "Web";
       item_color := "#FF9900"; item_category := "Compute"; item_x := 120; item_y := 120;
       item_parentContainerId := Some "c"; item_type := "service" |};
    {| item_id := "user-1"; item_name := "User"; item_customName := None;
       item_color := "#4F46E5"; item_category := "Actors"; item_x := 0; item_y := 0;
       item_parentContainerId := None; item_type := "service" |} ].

Definition example_connections : list Connection :=
  [ {| conn_id := "conn-1"; conn_from := "user-1"; conn_to := "ec2-1";
       conn_label := Some "https" |} ].

(** The three nested Groups of [chain_A], [chain_B], [chain_C] with a
    Node in the innermost one and a Node outside. *)
Lemma emitters_nest_groups_witness :
  exists eraser flowchart,
    exportEraser example_items [chain_A; chain_B; chain_C] example_connections 3
    = Some eraser
    /\ exportFlowchart example_items [chain_A; chain_B; chain_C] example_connections 3
       = Some flowchart
    /\ (forall exportFormat,
          mermaidCode example_items [chain_A; chain_B; chain_C] example_connections
            exportFormat 3
          = Some (text_of (if bool_decide (exportFormat = "eraser")
                           then eraser else flowchart)))
    /\ Forall (written (eraser_line example_items [chain_A; chain_B; chain_C])) eraser
    /\ Forall (written (flowchart_line [chain_A; chain_B; chain_C])) flowchart
    /\ nested example_items [chain_A; chain_B; chain_C] (map tag eraser)
    /\ nested example_items [chain_A; chain_B; chain_C] (map tag flowchart)
    /\ exists body,
         map tag flowchart = body ++ Other :: map StyleLine example_items
         /\ forall item, StyleLine item ∉ body.
Proof.
  apply (emitters_nest_groups example_items [chain_A; chain_B; chain_C]
           example_connections 3).
  - refine (bool_decide_unpack _ _). vm_compute. exact I.
  - simpl. lia.
Defined.

(** A Group whose parent names no Group of the Diagram. *)
Definition orphan_group : ContainerItem :=
  {| cont_id := "o"; cont_name := "Orphan"; cont_color := "#94A3B8";
     cont_borderStyle := Some "solid"; cont_x := 0; cont_y := 0;
     cont_width := 240; cont_height := 180; cont_parentContainerId := Some "gone";
     cont_type := "container" |}.

(** The claim fails as it is stated, for every Diagram and for every
    line. A Diagram with the one Group [orphan_group] has unique ids and
    no cycle, and neither emitter writes a line for the Group, with any
    fuel: the outputs are the headers. And in the flowchart of the
    example the style directive of the Node in the Group [c] comes
    after the closing line of [c]. *)
Lemma emitters_not_every_diagram :
  (NoDup (map cont_id [orphan_group])
   /\ find_container [orphan_group] "gone" = None
   /\ forall fuel,
        mermaidCode [] [orphan_group] [] "eraser" fuel
        = Some ("direction right" +:+ nl +:+ nl)
        /\ mermaidCode [] [orphan_group] [] "mermaid" fuel
           = Some ("flowchart TD" +:+ nl +:+ nl +:+ "    %% Styling" +:+ nl)
        /\ exists eraser flowchart,
             exportEraser [] [orphan_group] [] fuel = Some eraser
             /\ exportFlowchart [] [orphan_group] [] fuel = Some flowchart
             /\ (OpenGroup orphan_group ∉ map tag eraser)
             /\ (OpenGroup orphan_group ∉ map tag flowchart))
  /\ exists flowchart item,
       exportFlowchart example_items [chain_A; chain_B; chain_C] example_connections 3
       = Some flowchart
       /\ head example_items = Some item
       /\ item_parentContainerId item = Some (cont_id chain_C)
       /\ (map tag flowchart) !! 6%nat = Some (CloseGroup chain_C)
       /\ (map tag flowchart) !! 12%nat = Some (StyleLine item).
Proof.
  split.
  - split; [apply NoDup_singleton|]. split; [reflexivity|]. intros fuel.
    split; [reflexivity|]. split; [reflexivity|].
    eexists _, _. split; [reflexivity|]. split; [reflexivity|]. split.
    + intros Hin. apply list_elem_of_In in Hin. simpl in Hin.
      by destruct Hin as [?|[]].
    + intros Hin. apply list_elem_of_In in Hin. simpl in Hin.
      by destruct Hin as [?|[?|[]]].
  - eexists _, _. split; [reflexivity|]. split; [reflexivity|].
    split; [reflexivity|]. split; reflexivity.
Qed.

(** What the parser returns can be emitted: both emitters end on it and
    nest its Groups. *)
Corollary parsed_diagram_emitters now random36 text :
  let r := parseEraserFormat now random36 text in
  exists eraser flowchart,
    exportEraser (res_items r) (res_containers r) (res_connections r)
      (length (res_containers r)) = Some eraser
    /\ exportFlowchart (res_items r) (res_containers r) (res_connections r)
         (length (res_containers r)) = Some flowchart
    /\ nested (res_items r) (res_containers r) (map tag eraser)
    /\ nested (res_items r) (res_containers r) (map tag flowchart).
Proof.
  intros r.
  assert (Hwf : well_formed (res_containers r)).
  { apply ParserLaws.parsed_containers_well_formed. }
  destruct (exportEraser_nested (res_items r) (res_containers r) (res_connections r)
              (length (res_containers r)) Hwf (le_n _)) as (eraser & He & Hne).
  destruct (exportFlowchart_nested (res_items r) (res_containers r) (res_connections r)
              (length (res_containers r)) Hwf (le_n _)) as (flowchart & Hf & Hnf).
  by exists eraser, flowchart.
Qed.

End EmitterLaws.

(** ** More on the optimize / restore pair, and the share links *)

Module ShareLaws.
Import Js Compression Share CompressionLaws.

Lemma optimizeItem_idempotent item : optimizeItem (optimizeItem item) = optimizeItem item.
Proof.
  destruct item as [i n cn co ca x y p t]. unfold optimizeItem. simpl. f_equal.
  - destruct (truthy cn && negb (bool_decide (cn = Some n))) eqn:E; [by rewrite E|done].
  - destruct (truthy p) eqn:E; [by rewrite E|done].
Qed.

Lemma optimizeContainer_idempotent c :
  optimizeContainer (optimizeContainer c) = optimizeContainer c.
Proof.
  destruct c as [i n co b x y w h p t]. unfold optimizeContainer. simpl. f_equal.
  - destruct (truthy b && negb (bool_decide (b = Some "solid"))) eqn:E; [by rewrite E|done].
  - destruct (truthy p) eqn:E; [by rewrite E|done].
Qed.

Lemma optimizeConnection_idempotent c :
  optimizeConnection (optimizeConnection c) = optimizeConnection c.
Proof.
  destruct c as [i f t l]. unfold optimizeConnection. simpl. f_equal.
  destruct (label_present l) eqn:E; [by rewrite E|done].
Qed.

Lemma optimize_twice (d : ArchitectureData) :
  optimizeDataForCompression (optimizeDataForCompression d)
  = optimizeDataForCompression d.
Proof.
  destruct d as [v ts bi cs es st]. unfold optimizeDataForCompression.
  cbn [version timestamp boardItems containers connections settings].
  f_equal.
  - rewrite map_map. apply map_ext. intros. apply optimizeItem_idempotent.
  - rewrite map_map. apply map_ext. intros. apply optimizeContainer_idempotent.
  - rewrite map_map. apply map_ext. intros. apply optimizeConnection_idempotent.
  - destruct st as [[z]|]; simpl; [|done].
    destruct (truthy_number z && negb (bool_decide (z = Some 100))) eqn:E; simpl; [|done].
    by rewrite E.
Qed.

Lemma optimize_restore_item item : optimizeItem (restoreItem item) = optimizeItem item.
Proof.
  destruct item as [i n cn co ca x y p t]. unfold optimizeItem, restoreItem, or_else. simpl.
  f_equal.
  - destruct (truthy cn) eqn:E; simpl; [by rewrite E|done].
  - destruct (truthy p) eqn:E; simpl; [by rewrite E|done].
Qed.

Lemma optimize_restore_container c :
  optimizeContainer (restoreContainer c) = optimizeContainer c.
Proof.
  destruct c as [i n co b x y w h p t].
  unfold optimizeContainer, restoreContainer, or_else. simpl. f_equal.
  - destruct (truthy b) eqn:E; simpl; [by rewrite E|done].
  - destruct (truthy p) eqn:E; simpl; [by rewrite E|done].
Qed.

Lemma optimize_restore_connection c :
  optimizeConnection (restoreConnection c) = optimizeConnection c.
Proof.
  destruct c as [i f t l]. unfold optimizeConnection, restoreConnection, or_else. simpl.
  f_equal. by destruct l as [[|a r]|].
Qed.

Lemma optimize_restore (o : ArchitectureData) :
  optimizeDataForCompression (restoreDataFromOptimized o) = optimizeDataForCompression o.
Proof.
  unfold optimizeDataForCompression, restoreDataFromOptimized.
  cbn [version timestamp boardItems containers connections settings settings_zoomLevel
       zoomLevel].
  f_equal.
  - rewrite map_map. apply map_ext. intros. apply optimize_restore_item.
  - rewrite map_map. apply map_ext. intros. apply optimize_restore_container.
  - rewrite map_map. apply map_ext. intros. apply optimize_restore_connection.
  - destruct (truthy_number (settings_zoomLevel (settings o))) eqn:E; simpl.
    + rewrite E. done.
    + done.
Qed.

(** X1. [optimizeDataForCompression] is idempotent: optimizing a Diagram
    that is already optimized changes nothing, collection by collection
    and as a whole. *)
Theorem optimize_idempotent (d : ArchitectureData) :
  optimizeDataForCompression (optimizeDataForCompression d)
  = optimizeDataForCompression d
  /\ (forall item, optimizeItem (optimizeItem item) = optimizeItem item)
  /\ (forall c, optimizeContainer (optimizeContainer c) = optimizeContainer c)
  /\ (forall e, optimizeConnection (optimizeConnection e) = optimizeConnection e).
Proof.
  split; [apply optimize_twice|].
  split; [apply optimizeItem_idempotent|].
  split; [apply optimizeContainer_idempotent|apply optimizeConnection_idempotent].
Qed.

(** X3. A second round trip changes nothing: what
    [restoreDataFromOptimized] returns for an optimized Diagram is a
    fixed point of optimize-then-restore, and [restoreDataFromOptimized]
    itself is idempotent. *)
Theorem second_roundtrip_is_identity (d o : ArchitectureData) :
  restoreDataFromOptimized (optimizeDataForCompression
    (restoreDataFromOptimized (optimizeDataForCompression d)))
  = restoreDataFromOptimized (optimizeDataForCompression d)
  /\ normalize (normalize d) = normalize d
  /\ restoreDataFromOptimized (restoreDataFromOptimized o) = restoreDataFromOptimized o.
Proof.
  assert (Hfix : restoreDataFromOptimized (optimizeDataForCompression
                   (restoreDataFromOptimized (optimizeDataForCompression d)))
                 = restoreDataFromOptimized (optimizeDataForCompression d)).
  { by rewrite optimize_restore, optimize_twice. }
  split; [exact Hfix|]. split.
  - rewrite <- !restore_optimize_normalize. exact Hfix.
  - destruct o as [v ts bi cs es st]. unfold restoreDataFromOptimized.
    cbn [version timestamp boardItems containers connections settings settings_zoomLevel
         zoomLevel].
    f_equal.
    + rewrite map_map. apply map_ext. intros [i n cn co ca x y p t].
      unfold restoreItem, or_else. simpl. f_equal.
      * destruct (truthy cn) eqn:E; [by rewrite E|done].
      * destruct (truthy p) eqn:E; [by rewrite E|done].
    + rewrite map_map. apply map_ext. intros [i n co b x y w h p t].
      unfold restoreContainer, or_else. simpl. f_equal.
      * destruct (truthy b) eqn:E; [by rewrite E|done].
      * destruct (truthy p) eqn:E; [by rewrite E|done].
    + rewrite map_map. apply map_ext. intros [i f t l].
      unfold restoreConnection, or_else. simpl. f_equal.
      destruct (truthy l) eqn:E; [by rewrite E|done].
    + destruct (truthy_number (settings_zoomLevel st)) eqn:E; simpl; [by rewrite E|done].
Qed.

Section LinkLaws.
Context `{TextLayer} `{UrlLayer}.

(** X2. Restoring is invisible to the compressor: a Diagram that came
    out of [restoreDataFromOptimized] optimizes, and so compresses, to
    the same text as the stored form it was restored from. Loading a
    link and sharing again gives the same payload. *)
Theorem restore_then_compress (o : ArchitectureData) :
  optimizeDataForCompression (restoreDataFromOptimized o) = optimizeDataForCompression o
  /\ compressData (Some (restoreDataFromOptimized o)) = compressData (Some o)
  /\ (forall s fb v p,
        decompressData s fb = Ok (Some v) ->
        LZ_decompressFromEncodedURIComponent s = Some (JSON_stringify p) ->
        JSON_stringify p <> "" ->
        JSON_parse (JSON_stringify p) = Ok p ->
        compressData (Some v) = compressData (Some p)).
Proof.
  split; [apply optimize_restore|]. split.
  - by rewrite !compressData_Some, optimize_restore.
  - intros s fb v p Hd Hlz Hne Hparse.
    apply decompressData_Some in Hd as [_ [(t & q & Ht & _ & Hq & ->)|(Hf & _)]].
    + rewrite Hlz in Ht. injection Ht as <-. rewrite Hparse in Hq. injection Hq as <-.
      by rewrite !compressData_Some, optimize_restore.
    + rewrite Hlz in Hf. simpl in Hf. by destruct (JSON_stringify p).
Qed.

(** X4. Legacy links. A payload that the decompressor rejects and that
    is the base64 text of a JSON document is read through the fallback,
    and comes back with the defaults filled in; without the fallback
    the same payload gives [null]. [parseSharedUrl] always reads with
    the fallback. *)
Theorem legacy_base64_accepted (s t : string) (p : ArchitectureData) :
  all_space s = false ->
  truthy (LZ_decompressFromEncodedURIComponent s) = false ->
  atob s = Ok t ->
  JSON_parse t = Ok p ->
  decompressData s true = Ok (Some (restoreDataFromOptimized p))
  /\ decompressData s false = Ok None
  /\ (forall url, URL_searchParams_get url "data" = Ok (Some s) ->
                  parseSharedUrl url = Ok (Some (restoreDataFromOptimized p))).
Proof.
  intros Hs Hlz Ha Hp.
  assert (Hd : decompressData s true = Ok (Some (restoreDataFromOptimized p))).
  { apply decompressData_Some. split; [done|]. right. eauto 10. }
  split; [exact Hd|]. split.
  - destruct (decompressData_total s false) as [[v|] Hr]; [|done].
    apply decompressData_Some in Hr as [_ [(t' & q & Ht & Hne & _)|(_ & ? & _)]]; [|done].
    rewrite Ht in Hlz. simpl in Hlz. by destruct t'.
  - intros url Hurl. unfold parseSharedUrl. rewrite Hurl. simpl.
    destruct s as [|c r]; [done|]. simpl. by rewrite Hd.
Qed.

(** X5. [parseSharedUrl] never throws. It returns [null] for text that
    is not a URL, for a URL without a [data] parameter and for an empty
    one; otherwise it returns what [decompressData] returns for the
    parameter with the fallback on. [generateShareUrl] throws its own
    error exactly when [compressData] throws. *)
Theorem parseSharedUrl_never_throws :
  (forall url, exists r, parseSharedUrl url = Ok r)
  /\ (forall url e, URL_searchParams_get url "data" = Throw e ->
                    parseSharedUrl url = Ok None)
  /\ (forall url, URL_searchParams_get url "data" = Ok None ->
                  parseSharedUrl url = Ok None)
  /\ (forall url s, URL_searchParams_get url "data" = Ok (Some s) ->
                    parseSharedUrl url = decompressData s true)
  /\ (forall data, generateShareUrl data = Thrown ErrShareUrl
                   <-> exists e, compressData data = Throw e).
Proof.
  assert (Hget : forall url s, URL_searchParams_get url "data" = Ok (Some s) ->
                               parseSharedUrl url = decompressData s true).
  { intros url s Hu. unfold parseSharedUrl. rewrite Hu. simpl.
    destruct (decompressData_total s true) as [r Hr].
    destruct s as [|c s']; simpl.
    - by rewrite decompressData_blank.
    - by rewrite Hr. }
  split; [|split; [|split; [|split]]].
  - intros url. destruct (URL_searchParams_get url "data") as [[s|]|e] eqn:Hu.
    + rewrite (Hget _ _ Hu). apply decompressData_total.
    + unfold parseSharedUrl. rewrite Hu. eauto.
    + unfold parseSharedUrl. rewrite Hu. eauto.
  - intros url e Hu. unfold parseSharedUrl. by rewrite Hu.
  - intros url Hu. unfold parseSharedUrl. by rewrite Hu.
  - exact Hget.
  - intros data. unfold generateShareUrl.
    destruct (compressData data) as [c|e]; split; try done; eauto.
    by intros [? ?].
Qed.

(** X6. The share link round trip. When the compressed payload is not
    empty, the URL class hands back for the link a payload that the
    decompressor inverts to the JSON text, and that text parses back to
    the optimized Diagram, [parseSharedUrl (generateShareUrl d)] is [d]
    after the default normalisation. *)
Theorem share_link_roundtrip (d : ArchitectureData) (payload : string) :
  let json := JSON_stringify (optimizeDataForCompression d) in
  let compressed := LZ_compressToEncodedURIComponent json in
  let url := (location_origin +:+ location_pathname) +:+ "?data=" +:+ compressed in
  compressed <> "" ->
  URL_searchParams_get url "data" = Ok (Some payload) ->
  all_space payload = false ->
  LZ_decompressFromEncodedURIComponent payload = Some json ->
  json <> "" ->
  JSON_parse json = Ok (optimizeDataForCompression d) ->
  generateShareUrl (Some d) = Returned url
  /\ parseSharedUrl url = Ok (Some (normalize d)).
Proof.
  intros json compressed url Hc Hurl Hblank Hlz Hjson Hparse. split.
  - unfold generateShareUrl. rewrite compressData_Some. fold json compressed.
    by destruct compressed.
  - unfold parseSharedUrl. rewrite Hurl. simpl.
    destruct payload as [|c r] eqn:Ep; [done|]. simpl. rewrite <- Ep in *.
    rewrite <- restore_optimize_normalize.
    assert (Hd : decompressData payload true
                 = Ok (Some (restoreDataFromOptimized (optimizeDataForCompression d)))).
    { apply decompressData_Some. split; [done|]. left.
      by exists json, (optimizeDataForCompression d). }
    by rewrite Hd.
Qed.

End LinkLaws.

(** A legacy payload on [legacy_layer]. *)
Lemma legacy_base64_accepted_witness :
  @decompressData legacy_layer "bGVnYWN5" true
  = Ok (Some (restoreDataFromOptimized example_document))
  /\ @decompressData legacy_layer "bGVnYWN5" false = Ok None.
Proof.
  pose proof (@legacy_base64_accepted legacy_layer example_url_layer
                "bGVnYWN5" example_json example_document) as Hl.
  destruct Hl as (H1 & H2 & _); [reflexivity|reflexivity|reflexivity|reflexivity|].
  split; [exact H1|exact H2].
Defined.

(** The link of [example_document] on the example layers. *)
Lemma share_link_roundtrip_witness :
  @generateShareUrl example_layer example_url_layer (Some example_document)
  = Returned ("https://example.com/otak-aws?data=N" +:+ example_json)
  /\ @parseSharedUrl example_layer example_url_layer
       ("https://example.com/otak-aws?data=N" +:+ example_json)
     = Ok (Some (normalize example_document)).
Proof.
  pose proof (@share_link_roundtrip example_layer example_url_layer example_document
                (String "N" example_json)) as Hrt.
  simpl in Hrt.
  destruct Hrt as (Hg & Hp);
    [discriminate|reflexivity|reflexivity|reflexivity|discriminate|reflexivity|].
  split; [exact Hg|exact Hp].
Defined.

End ShareLaws.

(** ** The board: descendants, removal, drops, undo *)

Module BoardLaws.
Import Js Hierarchy Emitters Board HierarchyLaws EmitterLaws.

(** *** How much fuel the walk to the root needs *)

Lemma rootDistance_min_fuel cs n id d :
  rootDistance n cs id = Some d -> rootDistance (S d) cs id = Some d.
Proof.
  revert id d. induction n as [|n IH]; intros id d Hd; [done|].
  simpl in Hd. simpl. destruct (find_container cs id) as [c|]; [|done].
  destruct (cont_parentContainerId c) as [p|]; [|by injection Hd as <-].
  apply fmap_Some in Hd as (d' & Hd' & ->). apply IH in Hd'.
  change (S <$> rootDistance (S d') cs p = Some (S d')). by rewrite Hd'.
Qed.

(** On the way to the root there is a Group at every distance. *)
Lemma rootDistance_levels cs n id d :
  rootDistance n cs id = Some d ->
  forall k, (k <= d)%nat -> exists c, c ∈ cs /\ rootDistance n cs (cont_id c) = Some k.
Proof.
  revert id d. induction n as [|n IH]; intros id d Hd k Hk; [done|].
  pose proof Hd as Hd0. simpl in Hd.
  destruct (find_container cs id) as [c|] eqn:Hf; [|done].
  apply find_container_Some in Hf as [Hin Hid]. apply list_elem_of_In in Hin.
  destruct (cont_parentContainerId c) as [p|] eqn:Hp.
  - apply fmap_Some in Hd as (d' & Hd' & ->).
    destruct (decide (k = S d')) as [->|Hne].
    + exists c. split; [done|]. by rewrite Hid.
    + destruct (IH p d' Hd' k) as (c' & Hc' & Hk'); [lia|].
      exists c'. split; [done|]. eapply rootDistance_mono; [done|lia].
  - injection Hd as <-. assert (k = O) as -> by lia.
    exists c. split; [done|]. by rewrite Hid.
Qed.

Lemma rootDistance_bound cs n id d :
  rootDistance n cs id = Some d -> (d < length cs)%nat.
Proof.
  intros Hd.
  assert (Hsub : (Some <$> seq 0 (S d)) ⊆+ ((fun c => rootDistance n cs (cont_id c)) <$> cs)).
  { apply NoDup_submseteq.
    - apply (NoDup_fmap_2 _). apply NoDup_seq.
    - intros x Hx. apply list_elem_of_fmap in Hx as (k & -> & Hk).
      apply elem_of_seq in Hk.
      destruct (rootDistance_levels cs n id d Hd k) as (c & Hc & Hk'); [lia|].
      apply list_elem_of_fmap. by exists c. }
  apply submseteq_length in Hsub. rewrite !length_fmap, length_seq in Hsub. lia.
Qed.

(** A walk that ends at all ends within as many steps as there are
    Groups. *)
Lemma rootDistance_enough cs n id d :
  rootDistance n cs id = Some d -> rootDistance (length cs) cs id = Some d.
Proof.
  intros Hd. pose proof (rootDistance_bound _ _ _ _ Hd).
  eapply rootDistance_mono; [by eapply rootDistance_min_fuel|lia].
Qed.

Lemma well_formed_intro cs :
  NoDup (map cont_id cs) ->
  Forall (fun c => cont_id c <> "") cs ->
  (forall c, c ∈ cs -> exists n d, rootDistance n cs (cont_id c) = Some d) ->
  well_formed cs.
Proof.
  intros Hnd Hne Hd. split; [done|]. split; [done|].
  apply Forall_forall. intros c Hc. destruct (Hd c Hc) as (n & d & Hn).
  exists d. by eapply rootDistance_enough.
Qed.

(** *** [getAllChildrenOfContainer] *)

Section Descendants.
Variables (boardItems : list ServiceItem) (cs : list ContainerItem).
Hypothesis Hwf : well_formed cs.

Lemma getAllChildren_unfold fuel c :
  getAllChildrenOfContainer boardItems cs (S fuel) (cont_id c) =
    grandChildren ← mapM (fun child => getAllChildrenOfContainer boardItems cs fuel
                                         (cont_id child))
                         (childContainers cs c);
    Some (itemsInContainer boardItems c ++ concat (map fst grandChildren),
          childContainers cs c ++ concat (map snd grandChildren)).
Proof. done. Qed.

Lemma getAllChildren_terminates fuel c :
  c ∈ cs -> (length cs <= fuel + depth cs c)%nat ->
  is_Some (getAllChildrenOfContainer boardItems cs fuel (cont_id c)).
Proof.
  revert c. induction fuel as [|fuel IH]; intros c Hc Hfuel.
  - pose proof (rootDistance_lt cs _ _ _ (depth_eq cs Hwf c Hc)). lia.
  - rewrite getAllChildren_unfold.
    assert (is_Some (mapM (fun child => getAllChildrenOfContainer boardItems cs fuel
                                          (cont_id child))
                          (childContainers cs c))) as [chs ->]; [|by eexists].
    apply mapM_is_Some. apply Forall_forall. intros a Ha. apply IH.
    + by apply (under_child cs Hwf c a).
    + rewrite (child_depth cs Hwf c a) by done. lia.
Qed.

Lemma child_not_parent c a : c ∈ cs -> a ∈ childContainers cs c -> a <> c.
Proof.
  intros Hc Ha ->. pose proof (child_depth cs Hwf c c Hc Ha). lia.
Qed.

Lemma under_strict c a g :
  c ∈ cs -> a ∈ childContainers cs c -> g ∈ cs -> under cs a g -> under cs c g /\ g <> c.
Proof.
  intros Hc Ha Hg Hu. split.
  - eapply under_trans; [by apply under_of_child|done].
  - intros ->. destruct (under_depth cs Hwf a c Hu Hc) as [k Hk].
    rewrite (child_depth cs Hwf c a) in Hk by done. lia.
Qed.

Lemma getAllChildren_spec fuel c svcs conts :
  c ∈ cs ->
  getAllChildrenOfContainer boardItems cs fuel (cont_id c) = Some (svcs, conts) ->
  (forall g, g ∈ conts <-> g ∈ cs /\ under cs c g /\ g <> c)
  /\ (forall it, it ∈ svcs <->
                 it ∈ boardItems
                 /\ exists q, q ∈ cs /\ under cs c q
                              /\ item_parentContainerId it = Some (cont_id q)).
Proof.
  revert c svcs conts. induction fuel as [|fuel IH]; intros c svcs conts Hc Hs; [done|].
  rewrite getAllChildren_unfold in Hs.
  apply bind_Some in Hs as (grand & Hgrand & [= <- <-]). apply mapM_Some in Hgrand.
  assert (Hsub : forall a r, a ∈ childContainers cs c ->
                   getAllChildrenOfContainer boardItems cs fuel (cont_id a) = Some r ->
                   (forall g, g ∈ r.2 <-> g ∈ cs /\ under cs a g /\ g <> a)
                   /\ (forall it, it ∈ r.1 <->
                         it ∈ boardItems
                         /\ exists q, q ∈ cs /\ under cs a q
                                      /\ item_parentContainerId it = Some (cont_id q))).
  { intros a [s k] Ha Hr. apply (IH a s k); [by apply (under_child cs Hwf c a)|done]. }
  split.
  - intros g. rewrite elem_of_app. split.
    + intros [Hg|Hg].
      * destruct (under_child cs Hwf c g Hc Hg) as [Hin _].
        split; [done|]. split; [by apply under_of_child|by apply child_not_parent].
      * apply list_elem_of_In, in_concat in Hg as (o & Ho & Hgo).
        apply list_elem_of_In in Ho, Hgo. apply list_elem_of_fmap in Ho as (r & -> & Hr).
        apply list_elem_of_lookup in Hr as [i Hi].
        destruct (Forall2_lookup_r _ _ _ _ _ Hgrand Hi) as (a & Ha & Hra).
        apply list_elem_of_lookup_2 in Ha.
        destruct (Hsub a r Ha Hra) as [Hconts _].
        destruct (proj1 (Hconts g) Hgo) as (Hin & Hu & _).
        split; [done|]. by apply (under_strict c a g).
    + intros (Hg & Hu & Hne).
      destruct (under_top cs c g Hu Hg) as [->|(a & Ha & Hua)]; [done|].
      destruct (decide (g = a)) as [->|Hga]; [by left|]. right.
      destruct (list_elem_of_lookup_1 _ _ Ha) as [i Hi].
      destruct (Forall2_lookup_l _ _ _ _ _ Hgrand Hi) as (r & Hr & Hra).
      destruct (Hsub a r Ha Hra) as [Hconts _].
      apply list_elem_of_In, in_concat. exists r.2. split.
      * apply list_elem_of_In, list_elem_of_fmap. exists r. split; [done|].
        by eapply list_elem_of_lookup_2.
      * apply list_elem_of_In, Hconts. done.
  - intros it. rewrite elem_of_app. split.
    + intros [Hit|Hit].
      * apply list_elem_of_filter in Hit as [Hp Hin]. apply bool_decide_unpack in Hp.
        split; [done|]. exists c. split; [done|]. split; [constructor|done].
      * apply list_elem_of_In, in_concat in Hit as (o & Ho & Hio).
        apply list_elem_of_In in Ho, Hio. apply list_elem_of_fmap in Ho as (r & -> & Hr).
        apply list_elem_of_lookup in Hr as [i Hi].
        destruct (Forall2_lookup_r _ _ _ _ _ Hgrand Hi) as (a & Ha & Hra).
        apply list_elem_of_lookup_2 in Ha.
        destruct (Hsub a r Ha Hra) as [_ Hitems].
        destruct (proj1 (Hitems it) Hio) as (Hin & q & Hq & Hu & Hp).
        split; [done|]. exists q. split; [done|]. split; [|done].
        by apply (under_strict c a q).
    + intros (Hin & q & Hq & Hu & Hp).
      destruct (under_top cs c q Hu Hq) as [->|(a & Ha & Hua)].
      * left. apply list_elem_of_filter. split; [|done]. by apply bool_decide_pack.
      * right. destruct (list_elem_of_lookup_1 _ _ Ha) as [i Hi].
        destruct (Forall2_lookup_l _ _ _ _ _ Hgrand Hi) as (r & Hr & Hra).
        destruct (Hsub a r Ha Hra) as [_ Hitems].
        apply list_elem_of_In, in_concat. exists r.1. split.
        -- apply list_elem_of_In, list_elem_of_fmap. exists r. split; [done|].
           by eapply list_elem_of_lookup_2.
        -- apply list_elem_of_In, Hitems. split; [done|]. by exists q.
Qed.

Lemma under_iff_descendant fuel c svcs conts :
  c ∈ cs ->
  getAllChildrenOfContainer boardItems cs fuel (cont_id c) = Some (svcs, conts) ->
  forall g, g ∈ cs -> under cs c g <-> g = c \/ g ∈ conts.
Proof.
  intros Hc Hs g Hg. destruct (getAllChildren_spec fuel c svcs conts Hc Hs) as [Hconts _].
  split.
  - intros Hu. destruct (decide (g = c)) as [->|Hne]; [by left|].
    right. by apply Hconts.
  - intros [->|Hin]; [constructor|]. by apply Hconts in Hin as (_ & Hu & _).
Qed.

Lemma removed_ids fuel c svcs conts :
  c ∈ cs ->
  getAllChildrenOfContainer boardItems cs fuel (cont_id c) = Some (svcs, conts) ->
  forall g, g ∈ cs -> cont_id g ∈ cont_id c :: map cont_id conts <-> under cs c g.
Proof.
  intros Hc Hs g Hg. rewrite (under_iff_descendant fuel c svcs conts Hc Hs g Hg).
  destruct (getAllChildren_spec fuel c svcs conts Hc Hs) as [Hconts _].
  rewrite elem_of_cons. split.
  - intros [Hid|Hin]; [left; by apply (id_inj cs Hwf)|].
    apply list_elem_of_fmap in Hin as (h & Hid & Hh). right.
    assert (g = h) as ->; [|done].
    apply (id_inj cs Hwf); [done| |done]. by apply Hconts in Hh as (? & _).
  - intros [->|Hin]; [by left|]. right. apply list_elem_of_fmap. by exists g.
Qed.

Lemma getAllChildren_NoDup fuel c svcs conts :
  c ∈ cs ->
  getAllChildrenOfContainer boardItems cs fuel (cont_id c) = Some (svcs, conts) ->
  NoDup conts.
Proof.
  revert c svcs conts. induction fuel as [|fuel IH]; intros c svcs conts Hc Hs; [done|].
  rewrite getAllChildren_unfold in Hs.
  apply bind_Some in Hs as (grand & Hgrand & [= <- <-]). apply mapM_Some in Hgrand.
  assert (Hchildren : NoDup (childContainers cs c)).
  { apply NoDup_filter. by apply NoDup_cs. }
  assert (Hbelow : forall L rs,
            Forall2 (fun a r => getAllChildrenOfContainer boardItems cs fuel (cont_id a)
                                = Some r) L rs ->
            (forall a, a ∈ L -> a ∈ childContainers cs c) ->
            NoDup L ->
            NoDup (concat (map snd rs))
            /\ forall g, g ∈ concat (map snd rs) ->
                         exists a, a ∈ L /\ g ∈ cs /\ under cs a g /\ g <> a).
  { intros L rs HF. induction HF as [|a [s k] L rs Ha HF IHF]; intros Hsub HL.
    - split; [constructor|]. intros g Hg. by apply elem_of_nil in Hg.
    - apply NoDup_cons in HL as [HaL HL].
      destruct IHF as [Hnd Hin]; [intros b Hb; apply Hsub; by right|done|].
      assert (Hac : a ∈ childContainers cs c) by (apply Hsub; by left).
      assert (Hacs : a ∈ cs) by by apply (under_child cs Hwf c a).
      destruct (getAllChildren_spec fuel a s k Hacs Ha) as [Hk _].
      cbn [map concat snd]. split.
      + apply NoDup_app. split; [by apply (IH a s k)|]. split; [|done].
        intros g Hg Hg'. apply Hk in Hg as (Hgcs & Hu & _).
        destruct (Hin g Hg') as (b & Hb & _ & Hub & _).
        assert (a = b) as ->; [|done].
        apply (under_same_depth cs Hwf a b g); [done|done|done|].
        rewrite (child_depth cs Hwf c a), (child_depth cs Hwf c b); [done|done| |done|done].
        apply Hsub. by right.
      + intros g Hg. apply elem_of_app in Hg as [Hg|Hg].
        * apply Hk in Hg as (? & ? & ?). exists a. split; [by left|done].
        * destruct (Hin g Hg) as (b & Hb & ?). exists b. split; [by right|done]. }
  destruct (Hbelow _ _ Hgrand) as [Hnd Hin]; [done|done|].
  apply NoDup_app. split; [done|]. split; [|done].
  intros g Hg Hg'. destruct (Hin g Hg') as (a & Ha & Hgcs & Hu & Hne).
  destruct (under_depth cs Hwf a g Hu Hgcs) as [k Hk].
  assert (k <> O).
  { intros ->. apply Hne. apply (under_depth_eq cs Hwf a g); [done|done|lia]. }
  rewrite (child_depth cs Hwf c a), (child_depth cs Hwf c g) in Hk by done. lia.
Qed.

End Descendants.

(** X7. On a well-formed hierarchy and with as much fuel as there are
    Groups, [getAllChildrenOfContainer] returns: as Groups, every Group
    strictly below the given one, each once, and no other; as Nodes,
    the Nodes of the board whose parent is the given Group or a Group
    below it. *)
Theorem getAllChildrenOfContainer_descendants (boardItems : list ServiceItem)
    (containers : list ContainerItem) (fuel : nat) (c : ContainerItem) :
  well_formed containers ->
  c ∈ containers ->
  (length containers <= fuel)%nat ->
  exists services groups,
    getAllChildrenOfContainer boardItems containers fuel (cont_id c)
    = Some (services, groups)
    /\ (forall g, g ∈ groups <-> g ∈ containers /\ under containers c g /\ g <> c)
    /\ NoDup groups
    /\ (forall it, it ∈ services <->
                   it ∈ boardItems
                   /\ exists q, q ∈ containers /\ under containers c q
                                /\ item_parentContainerId it = Some (cont_id q)).
Proof.
  intros Hwf Hc Hfuel.
  destruct (getAllChildren_terminates boardItems containers Hwf fuel c Hc)
    as [[svcs conts] Hall]; [lia|].
  exists svcs, conts. split; [done|].
  destruct (getAllChildren_spec boardItems containers Hwf fuel c svcs conts Hc Hall)
    as [Hconts Hsvcs].
  split; [done|]. split; [|done].
  by apply (getAllChildren_NoDup boardItems containers Hwf fuel c svcs conts).
Qed.

(** In the chain [a > b > c] with the Node [ec2-1] in [c], the Groups
    below [a] are [b] and [c]. *)
Lemma getAllChildrenOfContainer_descendants_witness :
  getAllChildrenOfContainer example_items [chain_A; chain_B; chain_C] 3 "a"
  = Some (filter (fun it => bool_decide (item_id it = "ec2-1")) example_items,
          [chain_B; chain_C]).
Proof.
  destruct (getAllChildrenOfContainer_descendants example_items
              [chain_A; chain_B; chain_C] 3 chain_A) as (s & g & Hall & _).
  - refine (bool_decide_unpack _ _). vm_compute. exact I.
  - apply list_elem_of_In. simpl. auto.
  - simpl. lia.
  - vm_compute in Hall. injection Hall as <- <-. reflexivity.
Defined.

(** *** Sub-collections that are closed under taking the parent *)

Lemma rootDistance_find cs n id d :
  rootDistance n cs id = Some d -> exists c, find_container cs id = Some c.
Proof.
  destruct n as [|n]; [done|]. simpl.
  destruct (find_container cs id) as [c|]; [eauto|done].
Qed.

Lemma well_formed_filter cs (P : ContainerItem -> bool) :
  well_formed cs ->
  (forall g a, g ∈ cs -> P g = true -> up cs g = Some a -> P a = true) ->
  well_formed (filter P cs).
Proof.
  intros Hwf Hclosed. pose proof Hwf as (Hnd & Hne & Hd).
  assert (Hnd' : NoDup (map cont_id (filter P cs))).
  { eapply sublist_NoDup; [exact Hnd|].
    exact (fmap_sublist cont_id _ _ (sublist_filter _ _)). }
  apply well_formed_intro; [done| |].
  { apply Forall_forall. intros g Hg. apply list_elem_of_filter in Hg as [_ Hg].
    by apply (id_nonempty cs Hwf). }
  assert (Haux : forall n g d, g ∈ cs -> P g = true ->
                   rootDistance n cs (cont_id g) = Some d ->
                   rootDistance n (filter P cs) (cont_id g) = Some d).
  { induction n as [|n IH]; intros g d Hg HP Hdist; [done|].
    simpl in Hdist. rewrite (find_elem cs Hwf g Hg) in Hdist. simpl.
    rewrite (find_container_In (filter P cs) g Hnd').
    2:{ apply list_elem_of_In, list_elem_of_filter. split; [by apply Is_true_true|done]. }
    destruct (cont_parentContainerId g) as [p|] eqn:Hp; [|done].
    apply fmap_Some in Hdist as (d' & Hd' & ->).
    destruct (rootDistance_find _ _ _ _ Hd') as [a Ha].
    pose proof (find_container_Some _ _ _ Ha) as [Hain Haid].
    apply list_elem_of_In in Hain. subst p.
    rewrite (IH a d'); [done|done| |done].
    apply (Hclosed g a); [done|done|]. unfold up. by rewrite Hp. }
  intros g Hg. apply list_elem_of_filter in Hg as [HP Hg].
  exists (length cs), (depth cs g). apply Haux; [done|by apply Is_true_true|].
  by apply depth_eq.
Qed.

(** *** Removal *)

Lemma saveToHistory_collections now st :
  app_boardItems (saveToHistory now st) = app_boardItems st
  /\ app_containers (saveToHistory now st) = app_containers st
  /\ app_connections (saveToHistory now st) = app_connections st
  /\ app_isUndoing (saveToHistory now st) = app_isUndoing st.
Proof. unfold saveToHistory. by destruct (app_isUndoing st) eqn:E. Qed.

(** Every Node is at the root or in a Group of the board. *)
Definition parents_exist (items : list ServiceItem) (groups : list ContainerItem) : Prop :=
  forall it, it ∈ items ->
    item_parentContainerId it = None
    \/ exists g, g ∈ groups /\ item_parentContainerId it = Some (cont_id g).

(** X8. [removeContainer] on a well-formed board removes the Group and
    every Group below it, and nothing else; what is left is again a
    well-formed hierarchy, no Node of the new board points to a Group
    that is gone, and Nodes and Edges are kept. *)
Theorem removeContainer_keeps_hierarchy (fuel : nat) (now : Z) (st : AppState)
    (c : ContainerItem) :
  well_formed (app_containers st) ->
  c ∈ app_containers st ->
  (length (app_containers st) <= fuel)%nat ->
  exists st',
    removeContainer fuel now st (cont_id c) = Some st'
    /\ (forall g, g ∈ app_containers st' <->
                  g ∈ app_containers st /\ ~ under (app_containers st) c g)
    /\ well_formed (app_containers st')
    /\ (parents_exist (app_boardItems st) (app_containers st) ->
        parents_exist (app_boardItems st') (app_containers st'))
    /\ map item_id (app_boardItems st') = map item_id (app_boardItems st)
    /\ app_connections st' = app_connections st.
Proof.
  intros Hwf Hc Hfuel.
  destruct (getAllChildren_terminates (app_boardItems st) (app_containers st) Hwf fuel c Hc)
    as [[svcs conts] Hall]; [lia|].
  destruct (saveToHistory_collections now st) as (Hbi & Hcs & Hes & _).
  unfold removeContainer. rewrite Hall. cbn [mbind option_bind fst snd].
  eexists. split; [reflexivity|]. cbn [app_containers app_boardItems app_connections
                                        withCollections].
  rewrite Hbi, Hcs, Hes.
  pose proof (removed_ids _ _ Hwf fuel c svcs conts Hc Hall) as Hrm.
  destruct (getAllChildren_spec _ _ Hwf fuel c svcs conts Hc Hall) as [_ Hsvcs].
  assert (Hkept : forall g,
            g ∈ filter (fun container =>
                          negb (bool_decide (cont_id container
                                             ∈ cont_id c :: map cont_id conts)))
                       (app_containers st)
            <-> g ∈ app_containers st /\ ~ under (app_containers st) c g).
  { intros g. rewrite list_elem_of_filter. split.
    - intros [Hk Hg]. split; [done|]. intros Hu. apply Hrm in Hu; [|done].
      apply negb_prop_elim in Hk. apply Hk. by apply bool_decide_pack.
    - intros [Hg Hu]. split; [|done]. apply negb_prop_intro. intros Hk.
      apply bool_decide_unpack in Hk. apply Hu. by apply Hrm. }
  split; [exact Hkept|]. split; [|split; [|split]].
  - apply well_formed_filter; [done|]. intros g a Hg Hk Hup.
    apply negb_true_iff, bool_decide_eq_false. intros Hin.
    apply negb_true_iff, bool_decide_eq_false in Hk. apply Hk.
    destruct (up_elem _ _ _ Hup) as [Ha _].
    apply Hrm; [done|]. apply Hrm in Hin; [|done].
    by eapply under_step.
  - intros Hpar it' Hit'. apply list_elem_of_fmap in Hit' as (it & -> & Hit).
    cbn [withItemParent item_parentContainerId].
    destruct (existsb _ svcs) eqn:Hex; [by left|].
    destruct (Hpar it Hit) as [Hnone|(g & Hg & Hp)]; [by left|]. right.
    exists g. split; [|done]. apply Hkept. split; [done|]. intros Hu.
    assert (Hin : it ∈ svcs). { apply Hsvcs. split; [done|]. by exists g. }
    assert (existsb (fun s => bool_decide (item_id s = item_id it)) svcs = true) as Htrue.
    { apply existsb_exists. exists it. split; [by apply list_elem_of_In|].
      by apply bool_decide_eq_true. }
    congruence.
  - rewrite map_map. apply map_ext. done.
  - done.
Qed.

(** The chain [a > b > c] with the Node of [example_items] in [c]:
    removing [b] leaves [a] alone. *)
Lemma removeContainer_keeps_hierarchy_witness :
  exists st',
    removeContainer 3 1700000000000
      {| app_boardItems := example_items;
         app_containers := [chain_A; chain_B; chain_C];
         app_connections := example_connections;
         app_undoHistory := []; app_isUndoing := false |}
      "b" = Some st'
    /\ app_containers st' = [chain_A]
    /\ map item_parentContainerId (app_boardItems st') = [None; None].
Proof.
  destruct (removeContainer_keeps_hierarchy 3 1700000000000
              {| app_boardItems := example_items;
                 app_containers := [chain_A; chain_B; chain_C];
                 app_connections := example_connections;
                 app_undoHistory := []; app_isUndoing := false |}
              chain_B) as (st' & Hst' & _).
  - refine (bool_decide_unpack _ _). vm_compute. exact I.
  - apply list_elem_of_In. simpl. auto.
  - simpl. lia.
  - exists st'. split; [exact Hst'|].
    vm_compute in Hst'. injection Hst' as <-. split; reflexivity.
Defined.

(** X9. [removeItem] removes the Nodes with the given id and every
    Edge that starts or ends there, and nothing else; if every Edge
    joined two Nodes of the board before, every Edge does so after. *)
Theorem removeItem_removes_edges (now : Z) (st : AppState) (itemId : string) :
  let st' := removeItem now st itemId in
  (forall it, it ∈ app_boardItems st' <-> it ∈ app_boardItems st /\ item_id it <> itemId)
  /\ (forall e, e ∈ app_connections st' <->
                e ∈ app_connections st /\ conn_from e <> itemId /\ conn_to e <> itemId)
  /\ app_containers st' = app_containers st
  /\ ((forall e, e ∈ app_connections st ->
         exists a b, a ∈ app_boardItems st /\ b ∈ app_boardItems st
                     /\ conn_from e = item_id a /\ conn_to e = item_id b) ->
      forall e, e ∈ app_connections st' ->
        exists a b, a ∈ app_boardItems st' /\ b ∈ app_boardItems st'
                    /\ conn_from e = item_id a /\ conn_to e = item_id b).
Proof.
  intros st'. subst st'. unfold removeItem.
  destruct (saveToHistory_collections now st) as (Hbi & Hcs & Hes & _).
  cbn [app_containers app_boardItems app_connections withCollections].
  rewrite Hbi, Hcs, Hes.
  assert (Hitems : forall it,
            it ∈ filter (fun item => negb (bool_decide (item_id item = itemId)))
                        (app_boardItems st)
            <-> it ∈ app_boardItems st /\ item_id it <> itemId).
  { intros it. rewrite list_elem_of_filter. split.
    - intros [Hk Hin]. split; [done|]. intros Heq. apply negb_prop_elim in Hk.
      apply Hk. by apply bool_decide_pack.
    - intros [Hin Hne]. split; [|done]. apply negb_prop_intro. intros Hk.
      by apply bool_decide_unpack in Hk. }
  assert (Hedges : forall e,
            e ∈ filter (fun conn => negb (bool_decide (conn_from conn = itemId))
                                    && negb (bool_decide (conn_to conn = itemId)))
                       (app_connections st)
            <-> e ∈ app_connections st /\ conn_from e <> itemId /\ conn_to e <> itemId).
  { intros e. rewrite list_elem_of_filter. split.
    - intros [Hk Hin]. split; [done|]. apply andb_prop_elim in Hk as [Hf Ht].
      apply negb_prop_elim in Hf, Ht.
      split; intros Heq; [apply Hf|apply Ht]; by apply bool_decide_pack.
    - intros (Hin & Hf & Ht). split; [|done]. apply andb_prop_intro.
      split; apply negb_prop_intro; intros Hk; by apply bool_decide_unpack in Hk. }
  split; [exact Hitems|]. split; [exact Hedges|]. split; [done|].
  intros Hall e He. apply Hedges in He as (He & Hf & Ht).
  destruct (Hall e He) as (a & b & Ha & Hb & Hfa & Htb).
  exists a, b. split; [|split; [|done]]; apply Hitems; split; congruence.
Qed.

(** *** The undo history *)

Definition sameDiagram (st1 st2 : AppState) : Prop :=
  app_boardItems st1 = app_boardItems st2
  /\ app_containers st1 = app_containers st2
  /\ app_connections st1 = app_connections st2.

Lemma saveToHistory_history now st :
  app_isUndoing st = false ->
  exists older,
    app_undoHistory (saveToHistory now st)
    = older ++ [ {| hist_boardItems := app_boardItems st;
                    hist_containers := app_containers st;
                    hist_connections := app_connections st;
                    hist_timestamp := now |} ]
    /\ older = drop (S (length (app_undoHistory st)) - maxHistorySize) (app_undoHistory st).
Proof.
  intros Hu. unfold saveToHistory. rewrite Hu. cbn [app_undoHistory].
  rewrite length_app. cbn [length]. rewrite Nat.add_1_r.
  eexists. split; [|reflexivity].
  case_bool_decide as Hlen.
  - rewrite drop_app_le; [done|]. unfold maxHistorySize in *. lia.
  - replace (S (length (app_undoHistory st)) - maxHistorySize)%nat with O; [done|].
    unfold maxHistorySize in *. lia.
Qed.

Lemma executeUndo_after_save now st items groups edges :
  app_isUndoing st = false ->
  let st' := executeUndo (withCollections (saveToHistory now st) items groups edges) in
  sameDiagram st' st
  /\ app_isUndoing st' = true
  /\ app_undoHistory st'
     = drop (S (length (app_undoHistory st)) - maxHistorySize) (app_undoHistory st).
Proof.
  intros Hu st'. subst st'.
  destruct (saveToHistory_history now st Hu) as (older & Hh & Holder).
  unfold executeUndo. cbn [withCollections app_undoHistory]. rewrite Hh, last_snoc.
  cbn [app_boardItems app_containers app_connections app_isUndoing app_undoHistory
       hist_boardItems hist_containers hist_connections sameDiagram].
  unfold sameDiagram. cbn [app_boardItems app_containers app_connections].
  split; [done|]. split; [done|].
  rewrite length_app. cbn [length]. rewrite Nat.add_1_r, Nat.sub_1_r. cbn [Nat.pred].
  by rewrite take_app_length.
Qed.

(** X13. Undo restores, except after [clearBoard]. When the undo flag
    is down, [removeItem], [removeConnection] or [removeContainer]
    followed by [executeUndo] gives back the three collections as they
    were before the handler ran, and raises the flag; with fewer than
    50 saved states the history is back as it was, too. [clearBoard]
    empties the history with the board, so [executeUndo] after it
    changes nothing: clearing cannot be undone. *)
Theorem undo_restores (now : Z) (st : AppState) :
  app_isUndoing st = false ->
  (forall itemId, sameDiagram (executeUndo (removeItem now st itemId)) st)
  /\ (forall connectionId, sameDiagram (executeUndo (removeConnection now st connectionId)) st)
  /\ (app_boardItems (clearBoard now st) = []
      /\ app_containers (clearBoard now st) = []
      /\ app_connections (clearBoard now st) = []
      /\ app_undoHistory (clearBoard now st) = []
      /\ executeUndo (clearBoard now st) = clearBoard now st)
  /\ (forall fuel containerId st',
        removeContainer fuel now st containerId = Some st' ->
        sameDiagram (executeUndo st') st)
  /\ (forall itemId, app_isUndoing (executeUndo (removeItem now st itemId)) = true)
  /\ (forall itemId,
        (length (app_undoHistory st) < maxHistorySize)%nat ->
        app_undoHistory (executeUndo (removeItem now st itemId)) = app_undoHistory st).
Proof.
  intros Hu. split; [|split; [|split; [|split; [|split]]]].
  - intros itemId. unfold removeItem. by apply executeUndo_after_save.
  - intros connectionId. unfold removeConnection. by apply executeUndo_after_save.
  - unfold clearBoard, executeUndo. cbn [app_undoHistory last]. done.
  - intros fuel containerId st' Hrm. unfold removeContainer in Hrm.
    apply bind_Some in Hrm as (allChildren & _ & [= <-]).
    by apply executeUndo_after_save.
  - intros itemId. unfold removeItem. by apply executeUndo_after_save.
  - intros itemId Hlen. unfold removeItem.
    destruct (executeUndo_after_save now st
                (filter (fun item => negb (bool_decide (item_id item = itemId)))
                        (app_boardItems (saveToHistory now st)))
                (app_containers (saveToHistory now st))
                (filter (fun conn => negb (bool_decide (conn_from conn = itemId))
                                     && negb (bool_decide (conn_to conn = itemId)))
                        (app_connections (saveToHistory now st))) Hu) as (_ & _ & Hh).
    rewrite Hh. replace (S (length (app_undoHistory st)) - maxHistorySize)%nat with O; [done|].
    lia.
Qed.

(** Removing the Node [ec2-1] of the example board, then undoing. *)
Lemma undo_restores_witness :
  let st := {| app_boardItems := example_items;
               app_containers := [chain_A; chain_B; chain_C];
               app_connections := example_connections;
               app_undoHistory := []; app_isUndoing := false |} in
  map item_id (app_boardItems (removeItem 1700000000000 st "ec2-1")) = ["user-1"]
  /\ app_connections (removeItem 1700000000000 st "ec2-1") = []
  /\ sameDiagram (executeUndo (removeItem 1700000000000 st "ec2-1")) st.
Proof.
  intros st. split; [reflexivity|]. split; [reflexivity|].
  destruct (undo_restores 1700000000000 st) as (H1 & _); [reflexivity|].
  exact (H1 "ec2-1").
Defined.

(** X14. The history is bounded. While the undo flag is up
    [saveToHistory] does nothing; otherwise it appends the current
    collections, keeps the newest 50 states, and so never leaves more
    than 50. *)
Theorem history_is_bounded (now : Z) (st : AppState) :
  (app_isUndoing st = true -> saveToHistory now st = st)
  /\ (app_isUndoing st = false ->
      last (app_undoHistory (saveToHistory now st))
      = Some {| hist_boardItems := app_boardItems st;
                hist_containers := app_containers st;
                hist_connections := app_connections st;
                hist_timestamp := now |}
      /\ length (app_undoHistory (saveToHistory now st))
         = Nat.min maxHistorySize (S (length (app_undoHistory st)))
      /\ app_undoHistory (saveToHistory now st)
         `suffix_of` app_undoHistory st
                     ++ [ {| hist_boardItems := app_boardItems st;
                             hist_containers := app_containers st;
                             hist_connections := app_connections st;
                             hist_timestamp := now |} ])
  /\ (length (app_undoHistory (executeUndo st)) <= length (app_undoHistory st))%nat.
Proof.
  split; [|split].
  - intros Hu. unfold saveToHistory. by rewrite Hu.
  - intros Hu. destruct (saveToHistory_history now st Hu) as (older & Hh & Holder).
    rewrite Hh. split; [apply last_snoc|]. split.
    + rewrite length_app, Holder, length_drop. cbn [length]. unfold maxHistorySize. lia.
    + rewrite Holder. apply suffix_app. apply suffix_drop.
  - unfold executeUndo. destruct (last (app_undoHistory st)); [|done].
    cbn [app_undoHistory]. rewrite length_take. lia.
Qed.

End BoardLaws.

(** ** Dropping: the hierarchy stays well-formed *)

Module DropLaws.
Import Js Hierarchy Emitters Board HierarchyLaws EmitterLaws BoardLaws.

Lemma find_container_map (f : ContainerItem -> ContainerItem) cs id :
  (forall c, cont_id (f c) = cont_id c) ->
  find_container (map f cs) id = f <$> find_container cs id.
Proof.
  intros Hid. unfold find_container. induction cs as [|c cs IH]; [done|].
  simpl. rewrite Hid. by destruct (bool_decide (cont_id c = id)).
Qed.

Lemma find_container_snoc cs new id :
  find_container (cs ++ [new]) id =
    match find_container cs id with
    | Some c => Some c
    | None => if bool_decide (cont_id new = id) then Some new else None
    end.
Proof.
  unfold find_container. induction cs as [|c cs IH]; [done|].
  simpl. by destruct (bool_decide (cont_id c = id)).
Qed.

(** A check that answers [false] rules the walk out. *)
Lemma checkParent_false_not_reaches fuel cs child p :
  child <> "" -> Forall (fun c => cont_id c <> "") cs ->
  checkParent fuel cs child (Some p) = Some false ->
  ~ reaches cs child p.
Proof.
  intros Hchild Hids Hfalse Hreach.
  destruct (reaches_checkParent cs child p Hchild Hids Hreach) as [n Htrue].
  pose proof (checkParent_mono _ (max n fuel) _ _ _ _ Htrue) as H1.
  pose proof (checkParent_mono _ (max n fuel) _ _ _ _ Hfalse) as H2.
  rewrite H1 in H2 by lia. specialize (H2 ltac:(lia)). done.
Qed.

(** *** Moving a Group under a Group that is not below it *)

Section Reparent.
Variables (cs : list ContainerItem) (f : ContainerItem -> ContainerItem)
          (D : string) (newParent : option string).
Hypothesis Hwf : well_formed cs.
Hypothesis Hid : forall c, cont_id (f c) = cont_id c.
Hypothesis Hparent : forall c,
  cont_parentContainerId (f c)
  = if bool_decide (cont_id c = D) then newParent else cont_parentContainerId c.
Hypothesis Hnew :
  newParent = None
  \/ exists p, p ∈ cs /\ newParent = Some (cont_id p) /\ ~ reaches cs D (cont_id p).

Lemma reparent_outside n x d :
  rootDistance n cs x = Some d -> ~ reaches cs D x ->
  rootDistance n (map f cs) x = Some d.
Proof.
  revert x d. induction n as [|n IH]; intros x d Hd Hnr; [done|].
  simpl in Hd. simpl. rewrite find_container_map by done.
  destruct (find_container cs x) as [c|] eqn:Hf; [|done]. simpl.
  pose proof (find_container_Some _ _ _ Hf) as [_ Hcx].
  rewrite Hparent. rewrite bool_decide_eq_false_2.
  2:{ intros Heq. apply Hnr. rewrite <- Hcx, Heq. constructor. }
  destruct (cont_parentContainerId c) as [p|] eqn:Hp; [|done].
  apply fmap_Some in Hd as (d' & Hd' & ->).
  rewrite (IH p d'); [done|done|].
  intros Hr. apply Hnr. by eapply reaches_up.
Qed.

Lemma reparent_dragged c :
  c ∈ cs -> cont_id c = D -> exists n d, rootDistance n (map f cs) D = Some d.
Proof.
  intros Hc HcD.
  assert (Hfind : find_container (map f cs) D = Some (f c)).
  { rewrite find_container_map by done. rewrite <- HcD.
    by rewrite (find_elem cs Hwf c Hc). }
  assert (Hpar : cont_parentContainerId (f c) = newParent).
  { rewrite Hparent. by rewrite bool_decide_eq_true_2. }
  destruct Hnew as [Hn|(p & Hp & Hn & Hnr)].
  - exists 1%nat, O. simpl. by rewrite Hfind, Hpar, Hn.
  - pose proof (reparent_outside _ _ _ (depth_eq cs Hwf p Hp) Hnr) as Hdist.
    exists (S (length cs)), (S (depth cs p)). simpl. rewrite Hfind, Hpar, Hn.
    by rewrite Hdist.
Qed.

Lemma reparent_all n x d :
  rootDistance n cs x = Some d -> exists n' d', rootDistance n' (map f cs) x = Some d'.
Proof.
  revert x d. induction n as [|n IH]; intros x d Hd; [done|].
  simpl in Hd. destruct (find_container cs x) as [c|] eqn:Hf; [|done].
  pose proof (find_container_Some _ _ _ Hf) as [Hc Hcx]. apply list_elem_of_In in Hc.
  destruct (decide (x = D)) as [->|HxD]; [by apply (reparent_dragged c)|].
  assert (Hfind : find_container (map f cs) x = Some (f c)).
  { rewrite find_container_map by done. by rewrite Hf. }
  assert (Hpar : cont_parentContainerId (f c) = cont_parentContainerId c).
  { rewrite Hparent. rewrite bool_decide_eq_false_2; [done|congruence]. }
  destruct (cont_parentContainerId c) as [p|] eqn:Hp.
  - apply fmap_Some in Hd as (d' & Hd' & ->).
    destruct (IH p d' Hd') as (n' & d'' & Hn').
    exists (S n'), (S d''). simpl. rewrite Hfind, Hpar. by rewrite Hn'.
  - exists 1%nat, O. simpl. by rewrite Hfind, Hpar.
Qed.

Lemma well_formed_reparent : well_formed (map f cs).
Proof.
  pose proof Hwf as (Hnd & Hne & _).
  apply well_formed_intro.
  - rewrite map_map. by rewrite (map_ext _ cont_id Hid).
  - apply Forall_forall. intros c' Hc'. apply list_elem_of_fmap in Hc' as (c & -> & Hc).
    rewrite Hid. by apply (id_nonempty cs Hwf).
  - intros c' Hc'. apply list_elem_of_fmap in Hc' as (c & -> & Hc).
    rewrite Hid. apply (reparent_all _ _ _ (depth_eq cs Hwf c Hc)).
Qed.

End Reparent.

(** *** Adding a Group with a new id *)

Lemma rootDistance_snoc cs new n x d :
  rootDistance n cs x = Some d -> rootDistance n (cs ++ [new]) x = Some d.
Proof.
  revert x d. induction n as [|n IH]; intros x d Hd; [done|].
  simpl in Hd. simpl. rewrite find_container_snoc.
  destruct (find_container cs x) as [c|]; [|done].
  destruct (cont_parentContainerId c) as [p|]; [|done].
  apply fmap_Some in Hd as (d' & Hd' & ->). by rewrite (IH p d').
Qed.

Lemma well_formed_snoc cs new :
  well_formed cs ->
  cont_id new <> "" ->
  (forall c, c ∈ cs -> cont_id c <> cont_id new) ->
  (cont_parentContainerId new = None
   \/ exists p, p ∈ cs /\ cont_parentContainerId new = Some (cont_id p)) ->
  well_formed (cs ++ [new]).
Proof.
  intros Hwf Hne Hfresh Hpar. pose proof Hwf as (Hnd & Hids & _).
  apply well_formed_intro.
  - rewrite map_app. apply NoDup_app. split; [done|]. split; [|apply NoDup_singleton].
    intros x Hx Hx'. apply list_elem_of_fmap in Hx as (c & -> & Hc).
    apply list_elem_of_singleton in Hx'. by apply (Hfresh c).
  - apply Forall_app. split; [done|]. by apply Forall_singleton.
  - intros c Hc. apply elem_of_app in Hc as [Hc|Hc].
    + exists (length cs), (depth cs c). apply rootDistance_snoc. by apply depth_eq.
    + apply list_elem_of_singleton in Hc as ->.
      assert (Hfind : find_container (cs ++ [new]) (cont_id new) = Some new).
      { rewrite find_container_snoc.
        destruct (find_container cs (cont_id new)) as [c|] eqn:Hf.
        - apply find_container_Some in Hf as [Hc Hcid]. apply list_elem_of_In in Hc.
          by destruct (Hfresh c Hc).
        - by rewrite bool_decide_eq_true_2. }
      destruct Hpar as [Hnone|(p & Hp & Hsome)].
      * exists 1%nat, O. simpl. by rewrite Hfind, Hnone.
      * exists (S (length cs)), (S (depth cs p)). simpl. rewrite Hfind, Hsome.
        by rewrite (rootDistance_snoc cs new _ _ _ (depth_eq cs Hwf p Hp)).
Qed.

(** *** [handleUnifiedDrop] for a Group *)

Lemma idOrNull_cases cs (r : option ContainerItem) :
  well_formed cs ->
  (forall g, r = Some g -> g ∈ cs) ->
  idOrNull r = None \/ exists g, r = Some g /\ g ∈ cs /\ idOrNull r = Some (cont_id g).
Proof.
  intros Hwf Hr. destruct r as [g|]; [|by left]. right. exists g.
  split; [done|]. split; [by apply Hr|]. simpl. unfold or_else. simpl.
  pose proof (id_nonempty cs Hwf g (Hr g eq_refl)). by destruct (cont_id g).
Qed.

Lemma pretty_tail_nonempty (s : string) (z : Z) : s +:+ "-" +:+ pretty z <> "".
Proof. by destruct s. Qed.

(** X10. Dropping a Group never breaks the hierarchy. On a well-formed
    board, with fuel for the checks, [handleUnifiedDrop] for a dragged
    Group returns; the Groups of the new board are again a well-formed
    hierarchy (unique ids, every parent there, no cycle), whether the
    drop was refused by the cycle check, moved a Group of the board, or
    added a new Group under an id that is not yet in use. Moving keeps
    the ids, and keeps every Node in a Group of the board. *)
Theorem dropContainer_keeps_hierarchy (snapToGrid : bool)
    (gridSize serviceSize boardWidth boardHeight : Z)
    (fuel : nat) (now : Z) (st : AppState) (draggedItem : ContainerItem) (x y : Z) :
  well_formed (app_containers st) ->
  (length (app_containers st) + 2 <= fuel)%nat ->
  cont_id draggedItem <> "" ->
  (forall c, c ∈ app_containers st ->
             cont_id c <> cont_id draggedItem +:+ "-" +:+ pretty now) ->
  exists st',
    dropContainer snapToGrid gridSize boardWidth boardHeight fuel now st draggedItem x y
    = Some st'
    /\ well_formed (app_containers st')
    /\ ((exists c, c ∈ app_containers st /\ cont_id c = cont_id draggedItem) ->
        map cont_id (app_containers st') = map cont_id (app_containers st)
        /\ (parents_exist (app_boardItems st) (app_containers st) ->
            parents_exist (app_boardItems st') (app_containers st'))).
Proof.
  intros Hwf Hfuel Hdrag Hfresh. pose proof Hwf as (Hnd & Hids & _).
  unfold dropContainer. cbv zeta.
  match goal with
  | |- context [findParentContainer ?a ?b ?c ?d ?e ?g] =>
      set (parentContainer := findParentContainer a b c d e g);
      assert (Hpc : forall p, parentContainer = Some p ->
                      p ∈ app_containers st /\ cont_id p <> cont_id draggedItem)
  end.
  { intros p Hp. apply findParentContainer_Some in Hp as (Hin & Hex & _).
    split; [done|congruence]. }
  (* the cycle check returns *)
  assert (Hcheck : exists b,
            match parentContainer with
            | Some parent =>
                wouldCreateCircularReference fuel (app_containers st)
                  (cont_id draggedItem) (cont_id parent)
            | None => Some false
            end = Some b
            /\ (b = false ->
                forall p, parentContainer = Some p ->
                          ~ reaches (app_containers st) (cont_id draggedItem) (cont_id p))).
  { destruct parentContainer as [p|] eqn:Hp; [|by exists false].
    destruct (Hpc p eq_refl) as [Hpin Hpne].
    unfold wouldCreateCircularReference. rewrite bool_decide_eq_false_2 by congruence.
    destruct (checkParent_total (app_containers st) (cont_id draggedItem)
                (Some (cont_id p)) Hwf) as [b Hb].
    apply (checkParent_mono _ fuel) in Hb; [|lia].
    exists b. split; [done|]. intros -> q [= <-].
    by apply (checkParent_false_not_reaches fuel). }
  destruct Hcheck as (b & -> & Hsafe). cbn [mbind option_bind].
  destruct b.
  { exists st. split; [done|]. split; [done|]. by intros _. }
  specialize (Hsafe eq_refl).
  destruct (idOrNull_cases (app_containers st) parentContainer Hwf
              (fun g Hg => proj1 (Hpc g Hg))) as [Hnone|(p & Hp & Hpin & Hsome)].
  - (* dropped at the root *)
    destruct (existsb _ (app_containers st)) eqn:Hex.
    + apply existsb_exists in Hex as (c & Hc & Hcid).
      apply list_elem_of_In in Hc. apply bool_decide_eq_true in Hcid.
      destruct (getAllChildren_terminates (app_boardItems st) (app_containers st)
                  Hwf fuel c Hc) as [all Hall]; [lia|].
      rewrite <- Hcid, Hall. cbn [mbind option_bind].
      eexists. split; [reflexivity|].
      cbn [app_containers app_boardItems withCollections].
      rewrite map_map.
      match goal with
      | |- well_formed (map ?h _) /\ _ =>
          assert (Hh : forall g, cont_id (h g) = cont_id g);
          [|assert (Hhp : forall g,
                      cont_parentContainerId (h g)
                      = if bool_decide (cont_id g = cont_id c)
                        then idOrNull parentContainer else cont_parentContainerId g)]
      end.
      { intros g. cbv beta. repeat case_match; done. }
      { intros g. cbv beta. repeat case_match; done. }
      split.
      * apply (well_formed_reparent _ _ (cont_id c) (idOrNull parentContainer));
          [done|done|done|by left].
      * intros _. split; [rewrite map_map; by apply map_ext|].
        intros Hpar it' Hit'. apply list_elem_of_fmap in Hit' as (it & -> & Hit).
        destruct (Hpar it Hit) as [Hn|(g & Hg & Hgp)].
        -- left. by repeat case_match.
        -- right. eexists. split; [apply list_elem_of_fmap; by exists g|].
           rewrite Hh. by repeat case_match.
    + rewrite Hnone. eexists. split; [reflexivity|].
      cbn [app_containers app_boardItems withCollections].
      destruct (saveToHistory_collections now st) as (_ & -> & _).
      split.
      * apply well_formed_snoc; [done|apply pretty_tail_nonempty|done|by left].
      * intros (c & Hc & Hcid). exfalso.
        assert (existsb (fun container =>
                           bool_decide (cont_id container = cont_id draggedItem))
                        (app_containers st) = true) as Htrue; [|congruence].
        apply existsb_exists. exists c. split; [by apply list_elem_of_In|].
        by apply bool_decide_eq_true.
  - (* dropped into the Group [p] *)
    pose proof (Hsafe p Hp) as Hnr.
    destruct (existsb _ (app_containers st)) eqn:Hex.
    + apply existsb_exists in Hex as (c & Hc & Hcid).
      apply list_elem_of_In in Hc. apply bool_decide_eq_true in Hcid.
      destruct (getAllChildren_terminates (app_boardItems st) (app_containers st)
                  Hwf fuel c Hc) as [all Hall]; [lia|].
      rewrite <- Hcid, Hall. cbn [mbind option_bind].
      eexists. split; [reflexivity|].
      cbn [app_containers app_boardItems withCollections].
      rewrite map_map.
      match goal with
      | |- well_formed (map ?h _) /\ _ =>
          assert (Hh : forall g, cont_id (h g) = cont_id g);
          [|assert (Hhp : forall g,
                      cont_parentContainerId (h g)
                      = if bool_decide (cont_id g = cont_id c)
                        then idOrNull parentContainer else cont_parentContainerId g)]
      end.
      { intros g. cbv beta. repeat case_match; done. }
      { intros g. cbv beta. repeat case_match; done. }
      split.
      * apply (well_formed_reparent _ _ (cont_id c) (idOrNull parentContainer));
          [done|done|done|].
        right. exists p. split; [done|]. split; [done|]. by rewrite Hcid.
      * intros _. split; [rewrite map_map; by apply map_ext|].
        intros Hpar it' Hit'. apply list_elem_of_fmap in Hit' as (it & -> & Hit).
        destruct (Hpar it Hit) as [Hn|(g & Hg & Hgp)].
        -- left. by repeat case_match.
        -- right. eexists. split; [apply list_elem_of_fmap; by exists g|].
           rewrite Hh. by repeat case_match.
    + rewrite Hsome. eexists. split; [reflexivity|].
      cbn [app_containers app_boardItems withCollections].
      destruct (saveToHistory_collections now st) as (_ & -> & _).
      split.
      * apply well_formed_snoc; [done|apply pretty_tail_nonempty|done|].
        right. by exists p.
      * intros (c & Hc & Hcid). exfalso.
        assert (existsb (fun container =>
                           bool_decide (cont_id container = cont_id draggedItem))
                        (app_containers st) = true) as Htrue; [|congruence].
        apply existsb_exists. exists c. split; [by apply list_elem_of_In|].
        by apply bool_decide_eq_true.
Qed.

End DropLaws.

(** ** Dropping a Node, and fitting a Group to its Nodes *)

Module GridLaws.
Import Js Hierarchy Emitters Board HierarchyLaws EmitterLaws BoardLaws DropLaws.

(** A Group of the chain dragged as an 80 by 80 copy of [a] and dropped
    inside [c]: the cycle check refuses the drop and the board is
    unchanged. *)
Lemma dropContainer_keeps_hierarchy_witness :
  let st := {| app_boardItems := example_items;
               app_containers := [chain_A; chain_B; chain_C];
               app_connections := example_connections;
               app_undoHistory := []; app_isUndoing := false |} in
  dropContainer false 20 1000 800 5 1700000000000 st
    (withGeometry chain_A 0 0 80 80) 100 100 = Some st
  /\ well_formed (app_containers st).
Proof.
  intros st.
  destruct (dropContainer_keeps_hierarchy false 20 80 1000 800 5 1700000000000 st
              (withGeometry chain_A 0 0 80 80) 100 100) as (st' & Hst' & Hwf' & _).
  - refine (bool_decide_unpack _ _). vm_compute. exact I.
  - simpl. lia.
  - discriminate.
  - intros c Hc. apply list_elem_of_In in Hc. simpl in Hc.
    destruct Hc as [<-|[<-|[<-|[]]]]; vm_compute; discriminate.
  - vm_compute in Hst'. injection Hst' as <-. split; [reflexivity|exact Hwf'].
Defined.

(** X11. A dropped Node is placed inside its parent. After
    [handleUnifiedDrop] for a Node, on a board whose Groups have ids
    that are not empty and for numbers in the range of the integer
    arithmetic: the Node is at the drop position, clamped to the board
    and snapped to the grid; its parent [p] is [null] when no Group
    passes the containment test at that position, and otherwise the id
    of a Group of the board that passes it and has the smallest area
    among those that do. A Node of the board with the dragged id is
    moved there in place, without a new undo step; otherwise a new Node
    with a fresh id is appended, after the board has been saved. The
    Groups and Edges are as before, and every Node is at the root or in
    a Group of the board if that was so before. *)
Theorem dropService_parent_encloses (snapToGrid : bool)
    (gridSize serviceSize boardWidth boardHeight : Z)
    (now : Z) (st : AppState) (draggedItem : ServiceItem) (x y : Z) :
  Forall (fun c => cont_id c <> "") (app_containers st) ->
  0 < gridSize -> small gridSize -> small serviceSize ->
  small boardWidth -> small boardHeight -> small x -> small y ->
  let final :=
    snapToGridPosition snapToGrid gridSize
      (Z.max 0 (Z.min x (boardWidth - serviceSize)))
      (Z.max 0 (Z.min y (boardHeight - serviceSize))) in
  let st' := dropService snapToGrid gridSize serviceSize boardWidth boardHeight
               now st draggedItem x y in
  exists p : option string,
    ((p = None
      /\ forall q, q ∈ app_containers st ->
           isItemInContainer final.1 final.2 serviceSize serviceSize q = false)
     \/ exists q, q ∈ app_containers st
          /\ p = Some (cont_id q)
          /\ isItemInContainer final.1 final.2 serviceSize serviceSize q = true
          /\ forall q', q' ∈ app_containers st ->
               isItemInContainer final.1 final.2 serviceSize serviceSize q' = true ->
               double_le (double_area q) (double_area q'))
    /\ app_containers st' = app_containers st
    /\ app_connections st' = app_connections st
    /\ ((exists it, it ∈ app_boardItems st /\ item_id it = item_id draggedItem) ->
        app_boardItems st'
        = map (fun it => if bool_decide (item_id it = item_id draggedItem)
                         then withItemParent (withItemPosition it final.1 final.2) p
                         else it)
              (app_boardItems st)
        /\ app_undoHistory st' = app_undoHistory st)
    /\ ((forall it, it ∈ app_boardItems st -> item_id it <> item_id draggedItem) ->
        app_boardItems st'
        = app_boardItems st
          ++ [ {| item_id := item_id draggedItem +:+ "-" +:+ pretty now;
                  item_name := item_name draggedItem;
                  item_customName := item_customName draggedItem;
                  item_color := item_color draggedItem;
                  item_category := item_category draggedItem;
                  item_x := final.1; item_y := final.2;
                  item_parentContainerId := p;
                  item_type := "service" |} ]
        /\ app_undoHistory st' = app_undoHistory (saveToHistory now st))
    /\ (parents_exist (app_boardItems st) (app_containers st) ->
        parents_exist (app_boardItems st') (app_containers st')).
Proof.
  intros Hids _ _ _ _ _ _ _ final st'. subst st'. unfold dropService. cbv zeta.
  fold final.
  set (parentContainer :=
         findParentContainer (app_containers st) final.1 final.2
           serviceSize serviceSize None).
  pose proof (head_sort_filter_first_smallest final.1 final.2 serviceSize serviceSize
                None (app_containers st)) as Hfs.
  change (first_smallest final.1 final.2 serviceSize serviceSize None
            (app_containers st) parentContainer) in Hfs.
  exists (idOrNull parentContainer).
  assert (Hplaced :
    (idOrNull parentContainer = None
     /\ forall q, q ∈ app_containers st ->
          isItemInContainer final.1 final.2 serviceSize serviceSize q = false)
    \/ exists q, q ∈ app_containers st
         /\ idOrNull parentContainer = Some (cont_id q)
         /\ isItemInContainer final.1 final.2 serviceSize serviceSize q = true
         /\ forall q', q' ∈ app_containers st ->
              isItemInContainer final.1 final.2 serviceSize serviceSize q' = true ->
              double_le (double_area q) (double_area q')).
  { destruct parentContainer as [q|]; simpl in Hfs.
    - right. destruct Hfs as (pre & post & Hcs & [_ Hq] & Hpre & Hpost).
      assert (Hqin : q ∈ app_containers st).
      { rewrite Hcs. apply elem_of_app. right. apply elem_of_cons. by left. }
      exists q. split; [done|]. split.
      { simpl. unfold or_else. simpl.
        rewrite Forall_forall in Hids. specialize (Hids q Hqin).
        by destruct (cont_id q). }
      split; [done|]. intros q' Hq' Hin'. rewrite Hcs in Hq'.
      apply elem_of_app in Hq' as [Hq'|Hq'].
      + apply double_leb_total. apply Hpre; [by apply list_elem_of_In|done].
      + apply elem_of_cons in Hq' as [->|Hq']; [apply double_leb_refl|].
        apply Hpost; [by apply list_elem_of_In|done].
    - left. split; [done|]. intros q Hq.
      destruct (isItemInContainer final.1 final.2 serviceSize serviceSize q) eqn:Hin;
        [|done].
      exfalso. apply (Hfs q); [by apply list_elem_of_In|done]. }
  split; [exact Hplaced|].
  destruct (existsb _ (app_boardItems st)) eqn:Hex.
  - cbn [app_containers app_connections app_boardItems app_undoHistory withCollections].
    split; [done|]. split; [done|]. split; [done|]. split.
    + intros Hnone. exfalso. apply existsb_exists in Hex as (it & Hit & Hid).
      apply bool_decide_eq_true_1 in Hid. apply list_elem_of_In in Hit.
      by apply (Hnone it).
    + intros Hpar it' Hit'. apply list_elem_of_fmap in Hit' as (it & -> & Hit).
      case_bool_decide; [|by apply Hpar].
      cbn [withItemParent item_parentContainerId].
      destruct Hplaced as [[Hn _]|(q & Hq & Hp & _)]; [by left|].
      right. by exists q.
  - cbn [app_containers app_connections app_boardItems app_undoHistory withCollections].
    destruct (saveToHistory_collections now st) as (-> & -> & -> & _).
    split; [done|]. split; [done|]. split.
    + intros (it & Hit & Hid). exfalso.
      assert (existsb (fun item => bool_decide (item_id item = item_id draggedItem))
                (app_boardItems st) = true) as Hex'; [|congruence].
      apply existsb_exists. exists it. split; [by apply list_elem_of_In|].
      by apply bool_decide_eq_true_2.
    + split; [done|].
      intros Hpar it' Hit'. apply elem_of_app in Hit' as [Hit'|Hit']; [by apply Hpar|].
      apply list_elem_of_singleton in Hit' as ->. cbn [item_parentContainerId].
      destruct Hplaced as [[Hn _]|(q & Hq & Hp & _)]; [by left|].
      right. by exists q.
Qed.

(** The Node [user-1] of the example board dropped at (100, 100): it
    is moved to (80, 80) and lands in the Group [c]. *)
Lemma dropService_parent_encloses_witness :
  let st := {| app_boardItems := example_items;
               app_containers := [chain_A; chain_B; chain_C];
               app_connections := example_connections;
               app_undoHistory := []; app_isUndoing := false |} in
  let dragged := {| item_id := "user-1"; item_name := "User";
                    item_customName := None; item_color := "#4F46E5";
                    item_category := "Actors"; item_x := 0; item_y := 0;
                    item_parentContainerId := None; item_type := "service" |} in
  map (fun it => (item_id it, item_x it, item_y it, item_parentContainerId it))
      (app_boardItems (dropService true 80 80 1000 800 1700000000000 st dragged 100 100))
  = [("ec2-1", 120, 120, Some "c"); ("user-1", 80, 80, Some "c")]
  /\ app_containers (dropService true 80 80 1000 800 1700000000000 st dragged 100 100)
     = [chain_A; chain_B; chain_C].
Proof.
  intros st dragged. split; [reflexivity|].
  destruct (dropService_parent_encloses true 80 80 1000 800 1700000000000 st
              dragged 100 100) as (p & _ & Hcs & _).
  - repeat constructor; discriminate.
  - lia.
  - unfold small. simpl. lia.
  - unfold small. simpl. lia.
  - unfold small. simpl. lia.
  - unfold small. simpl. lia.
  - unfold small. simpl. lia.
  - unfold small. simpl. lia.
  - exact Hcs.
Defined.

(** *** [adjustContainerSize] *)











End GridLaws.

(** ** The order in which Groups are rendered *)

Module RenderLaws.
Import Js Hierarchy Emitters Board HierarchyLaws EmitterLaws BoardLaws.

(** *** The sort *)

Lemma sort_insert_perm {A} (cmp : A -> A -> Z) a l : sort_insert cmp a l ≡ₚ a :: l.
Proof.
  induction l as [|b l IH]; simpl; [done|].
  destruct (cmp a b <=? 0); [done|]. rewrite IH. apply Permutation_swap.
Qed.

Lemma sort_perm {A} (cmp : A -> A -> Z) l : sort cmp l ≡ₚ l.
Proof.
  induction l as [|a l IH]; simpl; [done|]. by rewrite sort_insert_perm, IH.
Qed.

(** Every element is at most as large as the ones after it. *)
Fixpoint ascending {A} (key : A -> nat) (l : list A) : Prop :=
  match l with
  | [] => True
  | a :: r => Forall (fun b => (key a <= key b)%nat) r /\ ascending key r
  end.

Lemma sort_insert_ascending {A} (key : A -> nat) a l :
  ascending key l ->
  ascending key (sort_insert (fun a b => Z.of_nat (key a) - Z.of_nat (key b)) a l).
Proof.
  induction l as [|b l IH]; intros Hl; simpl.
  - split; [constructor|done].
  - destruct Hl as [Hb Hl]. destruct (Z.leb_spec (Z.of_nat (key a) - Z.of_nat (key b)) 0).
    + split; [|done]. constructor; [lia|].
      eapply Forall_impl; [exact Hb|]. intros c Hc. simpl in Hc. lia.
    + split; [|by apply IH].
      rewrite sort_insert_perm. constructor; [lia|done].
Qed.

Lemma sort_ascending {A} (key : A -> nat) l :
  ascending key (sort (fun a b => Z.of_nat (key a) - Z.of_nat (key b)) l).
Proof.
  induction l as [|a l IH]; simpl; [done|]. by apply sort_insert_ascending.
Qed.

Lemma ascending_lookup {A} (key : A -> nat) l i j a b :
  ascending key l -> l !! i = Some a -> l !! j = Some b -> (i < j)%nat ->
  (key a <= key b)%nat.
Proof.
  revert i j. induction l as [|c l IH]; intros i j Hl Hi Hj Hij; [done|].
  destruct Hl as [Hc Hl]. destruct i as [|i], j as [|j]; try lia.
  - simpl in Hi, Hj. injection Hi as <-. rewrite Forall_forall in Hc. apply Hc.
    by eapply list_elem_of_lookup_2.
  - simpl in Hi, Hj. apply (IH i j); [done|done|done|lia].
Qed.

(** *** [getContainerDepth] *)

Lemma getContainerDepth_rootDistance cs n x d :
  Forall (fun c => cont_id c <> "") cs ->
  rootDistance n cs x = Some d -> getContainerDepth cs n x = Some d.
Proof.
  intros Hids. revert x d. induction n as [|n IH]; intros x d Hd; [done|].
  simpl in Hd. simpl. destruct (find_container cs x) as [c|]; [|done].
  destruct (cont_parentContainerId c) as [p|] eqn:Hp; [|done].
  apply fmap_Some in Hd as (d' & Hd' & ->).
  destruct (rootDistance_find _ _ _ _ Hd') as [a Ha].
  apply find_container_Some in Ha as [Ha Hap].
  rewrite Forall_forall in Hids. apply list_elem_of_In in Ha.
  specialize (Hids a Ha). rewrite Hap in Hids.
  destruct p as [|ch p]; [done|]. simpl. by rewrite (IH _ _ Hd').
Qed.

(** X15. Groups are rendered parents first. On a well-formed hierarchy,
    with as much fuel as there are Groups, the render block's list is
    a permutation of the Groups, each with its distance from the root
    as depth, in ascending depth; so every Group comes after its
    parent. *)
Theorem sortedContainers_parents_first (containers : list ContainerItem) (fuel : nat) :
  well_formed containers ->
  (length containers <= fuel)%nat ->
  exists order,
    sortedContainers containers fuel = Some order
    /\ map fst order ≡ₚ containers
    /\ Forall (fun cd => rootDistance (length containers) containers (cont_id cd.1)
                         = Some cd.2) order
    /\ ascending snd order
    /\ (forall i j c a,
          order !! i = Some c -> order !! j = Some a ->
          up containers c.1 = Some a.1 -> (j < i)%nat).
Proof.
  intros Hwf Hfuel. pose proof Hwf as (_ & Hids & _).
  assert (Hdepth : forall c, c ∈ containers ->
            getContainerDepth containers fuel (cont_id c) = Some (depth containers c)).
  { intros c Hc. apply getContainerDepth_rootDistance; [done|].
    eapply rootDistance_mono; [by apply depth_eq|done]. }
  unfold sortedContainers.
  set (key := fun c => default O (getContainerDepth containers fuel (cont_id c))).
  set (sorted := sort (fun a b => Z.of_nat (key a) - Z.of_nat (key b)) containers).
  assert (Hperm : sorted ≡ₚ containers) by apply sort_perm.
  assert (Hkey : forall c, c ∈ containers -> key c = depth containers c).
  { intros c Hc. unfold key. by rewrite Hdepth. }
  assert (Hmap : mapM (fun container =>
                         d ← getContainerDepth containers fuel (cont_id container);
                         Some (container, d)) sorted
                 = Some (map (fun c => (c, depth containers c)) sorted)).
  { apply mapM_Some. apply Forall2_fmap_r, Forall_Forall2_diag, Forall_forall.
    intros c Hc. rewrite Hperm in Hc. by rewrite Hdepth. }
  exists (map (fun c => (c, depth containers c)) sorted).
  split; [exact Hmap|].
  assert (Hasc : ascending snd (map (fun c => (c, depth containers c)) sorted)).
  { pose proof (sort_ascending key containers) as Hs. fold sorted in Hs.
    assert (Hin : forall c, c ∈ sorted -> c ∈ containers) by (intros c; by rewrite Hperm).
    clear Hperm Hmap. induction sorted as [|c l IH]; [done|].
    destruct Hs as [Hc Hl]. simpl. split.
    - apply Forall_fmap. apply Forall_forall. intros b Hb. simpl.
      rewrite Forall_forall in Hc. specialize (Hc b Hb).
      rewrite !Hkey in Hc; [done| |]; apply Hin; [by right|by left].
    - apply IH; [done|]. intros b Hb. apply Hin. by right. }
  split; [|split; [|split]].
  - rewrite map_map. simpl. by rewrite map_id.
  - apply Forall_fmap, Forall_forall. intros c Hc. simpl. rewrite Hperm in Hc.
    by apply depth_eq.
  - exact Hasc.
  - intros i j [c dc] [a da] Hi Hj Hup. simpl in Hup.
    pose proof Hi as Hi'. pose proof Hj as Hj'.
    apply list_lookup_fmap_Some in Hi' as (c0 & Heq & Hc0). injection Heq as -> ->.
    apply list_lookup_fmap_Some in Hj' as (a0 & Heq & Ha0). injection Heq as -> ->.
    assert (Hc : c0 ∈ containers).
    { rewrite <- Hperm. by eapply list_elem_of_lookup_2. }
    pose proof (depth_up containers Hwf c0 a0 Hc Hup) as Hd.
    destruct (decide (j < i)%nat) as [|Hge]; [done|]. exfalso.
    destruct (decide (i = j)) as [->|Hne].
    + rewrite Hi in Hj. injection Hj as <- _. lia.
    + pose proof (ascending_lookup snd _ i j _ _ Hasc Hi Hj ltac:(lia)) as Hle.
      simpl in Hle. lia.
Qed.

(** The chain given leaf first is rendered root first. *)
Lemma sortedContainers_parents_first_witness :
  sortedContainers [chain_C; chain_B; chain_A] 3
  = Some [(chain_A, O); (chain_B, 1%nat); (chain_C, 2%nat)].
Proof.
  destruct (sortedContainers_parents_first [chain_C; chain_B; chain_A] 3)
    as (order & Ho & _).
  - refine (bool_decide_unpack _ _). vm_compute. exact I.
  - simpl. lia.
  - vm_compute in Ho. injection Ho as <-. reflexivity.
Defined.

End RenderLaws.

(** ** More on the parser: detection, ids, labels *)

Module ImportLaws.
Import Js Regex Parser Emitters Board Importer CompressionLaws HierarchyLaws ParserLaws
       EmitterLaws.

(** *** Substrings *)

Lemma includes_unfold s p :
  includes s p = startsWith s p
                 || match s with
                    | EmptyString => false
                    | String _ s' => includes s' p
                    end.
Proof. by destruct s. Qed.

Lemma startsWith_nil s : startsWith s "" = true.
Proof. by destruct s. Qed.

Lemma startsWith_empty p : startsWith "" p = true -> p = "".
Proof. by destruct p. Qed.

Lemma includes_nil s : includes s "" = true.
Proof. by rewrite includes_unfold, startsWith_nil. Qed.

Lemma startsWith_app s t p : startsWith s p = true -> startsWith (s +:+ t) p = true.
Proof.
  revert s. induction p as [|a p IH]; intros s Hs; [apply startsWith_nil|].
  destruct s as [|b s]; [done|]. simpl in *.
  destruct (Ascii.eqb a b); [by apply IH|done].
Qed.

Lemma includes_app_r s t p : includes s p = true -> includes (s +:+ t) p = true.
Proof.
  induction s as [|c s IH]; intros Hs.
  - rewrite includes_unfold in Hs. rewrite orb_false_r in Hs.
    apply startsWith_empty in Hs as ->. apply includes_nil.
  - rewrite includes_unfold in Hs.
    change (String c s +:+ t) with (String c (s +:+ t)). rewrite includes_unfold.
    apply orb_true_iff in Hs as [Hs|Hs]; apply orb_true_iff.
    + left. by apply (startsWith_app (String c s)).
    + right. by apply IH.
Qed.

Lemma includes_cons c s p : includes s p = true -> includes (String c s) p = true.
Proof. intros Hs. rewrite includes_unfold. apply orb_true_iff. by right. Qed.

Lemma includes_app_l s t p : includes t p = true -> includes (s +:+ t) p = true.
Proof.
  intros Ht. induction s as [|c s IH]; [done|]. simpl. by apply includes_cons.
Qed.

Lemma trim_start_suffix s : exists a, s = a +:+ trim_start s.
Proof.
  induction s as [|c s [a IH]]; [by exists ""|]. simpl.
  destruct (is_space c); [|by exists ""].
  exists (String c a). change (String c s = String c (a +:+ trim_start s)). by f_equal.
Qed.

Lemma trim_end_prefix s : exists b, s = trim_end s +:+ b.
Proof.
  induction s as [|c s [b IH]]; [by exists ""|]. simpl.
  destruct (trim_end s) as [|c' r] eqn:Hr.
  - destruct (is_space c); [by exists (String c s)|]. exists s. done.
  - exists b. change (String c s = String c (String c' r +:+ b)). by f_equal.
Qed.

Lemma includes_trim s p : includes (trim s) p = true -> includes s p = true.
Proof.
  intros Hp. unfold trim in Hp.
  destruct (trim_start_suffix s) as [a Ha]. destruct (trim_end_prefix (trim_start s)) as [b Hb].
  rewrite Ha. apply includes_app_l. rewrite Hb. by apply includes_app_r.
Qed.

Lemma split_lines_head text :
  exists l ls rest, split_lines text = l :: ls /\ text = l +:+ rest.
Proof.
  induction text as [|c r (l & ls & rest & Hs & Hr)]; [by exists "", [], ""|].
  simpl. destruct (Ascii.eqb c "010").
  - by exists "", (split_lines r), (String c r).
  - rewrite Hs. exists (String c l), ls, rest. split; [done|].
    change (String c r = String c (l +:+ rest)). by f_equal.
Qed.

Lemma includes_split_lines text l p :
  l ∈ split_lines text -> includes l p = true -> includes text p = true.
Proof.
  revert l. induction text as [|c r IH]; intros l Hl Hp.
  - simpl in Hl. by apply list_elem_of_singleton in Hl as ->.
  - simpl in Hl. destruct (Ascii.eqb c "010").
    + apply elem_of_cons in Hl as [->|Hl].
      * rewrite includes_unfold, orb_false_r in Hp. apply startsWith_empty in Hp as ->.
        apply includes_nil.
      * apply includes_cons. by apply (IH l).
    + destruct (split_lines_head r) as (l0 & ls & rest & Hs & Hr).
      rewrite Hs in Hl, IH. apply elem_of_cons in Hl as [->|Hl].
      * rewrite Hr. by apply (includes_app_r (String c l0)).
      * apply includes_cons. apply (IH l); [by right|done].
Qed.

Lemma includes_linesOf text l p :
  l ∈ linesOf text -> includes l p = true -> includes text p = true.
Proof.
  intros Hl Hp. unfold linesOf in Hl. apply list_elem_of_filter in Hl as [_ Hl].
  apply list_elem_of_fmap in Hl as (l0 & -> & Hl0).
  apply (includes_split_lines text l0); [done|]. by apply includes_trim.
Qed.

Lemma all_space_includes s c p :
  all_space s = true -> includes s (String c p) = true -> is_space c = true.
Proof.
  induction s as [|b s IH]; intros Hs Hp; [done|].
  simpl in Hs. apply andb_prop in Hs as [Hb Hs].
  rewrite includes_unfold in Hp. apply orb_true_iff in Hp as [Hp|Hp]; [|by apply IH].
  simpl in Hp. destruct (Ascii.eqb_spec c b) as [->|]; done.
Qed.

(** *** Text in which the parser finds nothing *)

(** No line of [text] can be the line of a Node or of a Group. *)
Definition no_defs (text : string) : Prop :=
  includes text "icon:" = false
  \/ (includes text "[label:" = false /\ includes text "{" = false).

Lemma lineKind_no_defs text l :
  no_defs text -> l ∈ linesOf text -> lineKind l <> ItemDef /\ lineKind l <> GroupStart.
Proof.
  intros Hno Hl.
  assert (Hsub : forall p, includes text p = false -> includes l p = false).
  { intros p Hp. destruct (includes l p) eqn:Hlp; [|done].
    by rewrite (includes_linesOf text l p Hl Hlp) in Hp. }
  unfold lineKind. destruct (startsWith l "//" || startsWith l "direction"); [done|].
  destruct Hno as [Hicon|[Hlabel Hbrace]].
  - rewrite (Hsub _ Hicon). rewrite !andb_false_r. simpl.
    by repeat case_match.
  - rewrite (Hsub _ Hlabel), (Hsub _ Hbrace). rewrite !andb_false_r. simpl.
    by repeat case_match.
Qed.

Definition nothing_parsed (st : ParseState) : Prop :=
  ps_items st = [] /\ ps_containers st = [] /\ ps_connections st = []
  /\ ps_itemIdMap st = ∅.

Lemma parse_line_nothing now random36 i st line :
  lineKind line <> ItemDef -> lineKind line <> GroupStart ->
  nothing_parsed st -> nothing_parsed (parse_line now random36 i st line).
Proof.
  intros Hi Hg (H1 & H2 & H3 & H4). unfold parse_line.
  destruct (lineKind line); try done.
  destruct (search connectionRegex line) as [caps|]; [|done].
  rewrite H4, !lookup_empty. done.
Qed.

Lemma parse_lines_nothing now random36 lines i st :
  (forall l, l ∈ lines -> lineKind l <> ItemDef /\ lineKind l <> GroupStart) ->
  nothing_parsed st -> nothing_parsed (parse_lines now random36 i st lines).
Proof.
  revert i st. induction lines as [|l lines IH]; intros i st Hl Hst; [done|].
  simpl. apply IH; [intros l' Hl'; apply Hl; by right|].
  destruct (Hl l) as [? ?]; [by left|]. by apply parse_line_nothing.
Qed.

Lemma unknown_no_defs JSON_probe text :
  detectFormat JSON_probe text = "unknown" -> no_defs text.
Proof.
  unfold detectFormat. destruct (trim text) as [|c r] eqn:Ht; simpl.
  - intros _. left. apply trim_empty_iff in Ht.
    destruct (includes text "icon:") eqn:Hi; [|done].
    by pose proof (all_space_includes _ _ _ Ht Hi).
  - destruct (JSON_probe text); [done|].
    destruct (includes text "icon:") eqn:Hicon; [|by left].
    destruct (includes text "[label:") eqn:Hlabel, (includes text "{") eqn:Hbrace;
      [..|intros _; by right];
      by destruct (includes text "direction right"), (includes text "Group "),
                  (includes text "[icon:"), (includes text "aws-"),
                  (includes text "git-branch").
Qed.

(** X16. What the detector calls unknown holds nothing for the parser:
    if [detectFormat] answers unknown for a text, whatever the
    JSON probe says, [parseEraserFormat] finds no Node, no Group and no
    Edge in it. So a text from which the parser would build anything is
    never refused as unknown. *)
Theorem unknown_text_parses_to_nothing (JSON_probe : string -> bool)
    (now : nat -> Z) (random36 : nat -> string) (text : string) :
  detectFormat JSON_probe text = "unknown" ->
  parseEraserFormat now random36 text
  = {| res_items := []; res_containers := []; res_connections := [] |}.
Proof.
  intros Hu. apply unknown_no_defs in Hu.
  destruct (parse_lines_nothing now random36 (linesOf text) 0 initialState)
    as (H1 & H2 & H3 & _).
  - intros l Hl. by apply (lineKind_no_defs text).
  - done.
  - unfold parseEraserFormat, resultOf. by rewrite H1, H2, H3.
Qed.

(** A plain sentence is unknown text. *)
Lemma unknown_text_parses_to_nothing_witness :
  detectFormat (fun _ => false) "hello > world" = "unknown"
  /\ parseEraserFormat example_now example_random36 "hello > world"
     = {| res_items := []; res_containers := []; res_connections := [] |}.
Proof.
  split; [reflexivity|].
  apply (unknown_text_parses_to_nothing (fun _ => false)). reflexivity.
Defined.

(** X17. What the eraser emitter writes is never refused by the
    detector: the text starts with the [direction right] header, so
    [detectFormat] answers eraser, or json if the JSON probe accepts
    the text, and never unknown. *)
Theorem eraser_export_is_detected (JSON_probe : string -> bool)
    (boardItems : list ServiceItem) (containers : list ContainerItem)
    (connections : list Connection) (fuel : nat) (code : string) :
  mermaidCode boardItems containers connections "eraser" fuel = Some code ->
  detectFormat JSON_probe code <> "unknown"
  /\ (JSON_probe code = false -> detectFormat JSON_probe code = "eraser").
Proof.
  intros Hcode. unfold mermaidCode in Hcode. simpl in Hcode.
  apply bind_Some in Hcode as (pieces & Hp & [= <-]).
  unfold exportEraser in Hp. apply bind_Some in Hp as (groups & _ & [= <-]).
  cbn [foldr app text].
  match goal with
  | |- context [detectFormat _ (?h +:+ ?rest)] => set (tail := rest)
  end.
  assert (Hstart : includes (("direction right" +:+ nl +:+ nl) +:+ tail) "direction right"
                   = true).
  { rewrite includes_unfold. apply orb_true_iff. left. done. }
  assert (Htrim : truthy_string (trim (("direction right" +:+ nl +:+ nl) +:+ tail)) = true).
  { unfold trim. simpl trim_start.
    match goal with |- context [trim_end (String ?c ?r)] =>
      change (trim_end (String c r))
        with (match trim_end r with
              | EmptyString => if is_space c then EmptyString else String c EmptyString
              | r' => String c r'
              end)
    end.
    by destruct (trim_end _). }
  unfold detectFormat. rewrite Htrim. simpl negb. cbv iota.
  rewrite Hstart. simpl orb. destruct (JSON_probe _); split; done.
Qed.

(** The text of the example board. *)
Lemma eraser_export_is_detected_witness :
  exists code,
    mermaidCode example_items [chain_A; chain_B; chain_C] example_connections "eraser" 3
    = Some code
    /\ detectFormat (fun _ => false) code = "eraser".
Proof.
  destruct (mermaidCode example_items [chain_A; chain_B; chain_C] example_connections
              "eraser" 3) as [code|] eqn:Hcode; [|by vm_compute in Hcode].
  exists code. split; [reflexivity|].
  by apply (eraser_export_is_detected (fun _ => false) _ _ _ _ _ Hcode).
Defined.

End ImportLaws.

(** ** What the parser keeps of a text: labels and ids *)

Module LabelLaws.
Import Js Hierarchy Regex Parser Emitters Board Importer CompressionLaws HierarchyLaws
       ParserLaws EmitterLaws BoardLaws ImportLaws.

(** *** Captures of the patterns *)

Fixpoint groups (r : regex) : list nat :=
  match r with
  | Eps | Lit _ | Star _ | Plus _ => []
  | Opt r' => groups r'
  | Seq r1 r2 => groups r1 ++ groups r2
  | Group n r' => n :: groups r'
  end.

Lemma star_match_k {R} p s (k : string -> option R) x :
  star_match p s k = Some x ->
  exists s', (String.length s' <= String.length s)%nat /\ k s' = Some x.
Proof.
  induction s as [|c s IH]; simpl; [by exists ""|].
  destruct (p c); [|by exists (String c s)].
  destruct (star_match p s k) as [r|] eqn:Hs.
  - intros [= ->]. destruct (IH eq_refl) as (s' & Hlen & Hk). exists s'. split; [lia|done].
  - intros Hk. by exists (String c s).
Qed.

(** A match calls its continuation; what holds of the captures before
    holds after, if no group of the pattern can spoil it. *)
Lemma rmatch_preserves {R} r (P : gmap nat string -> Prop) :
  (forall n v caps, n ∈ groups r -> P caps -> P (<[n:=v]> caps)) ->
  forall s caps (k : string -> gmap nat string -> option R) x,
    rmatch r s caps k = Some x -> P caps ->
    exists s' caps', P caps' /\ k s' caps' = Some x.
Proof.
  induction r as [|c|p|p|r IH|r1 IH1 r2 IH2|n r IH]; intros HP s caps k x Hm Hc;
    simpl in Hm.
  - eauto.
  - destruct s as [|c' s]; [done|]. destruct (Ascii.eqb c c'); [eauto|done].
  - apply star_match_k in Hm as (s' & _ & Hk). eauto.
  - destruct s as [|c s]; [done|]. destruct (p c); [|done].
    apply star_match_k in Hm as (s' & _ & Hk). eauto.
  - destruct (rmatch r s caps k) as [y|] eqn:Hr.
    + injection Hm as ->. by apply (IH HP s caps k).
    + eauto.
  - destruct (IH1 (fun n v c Hn => HP n v c (proj2 (elem_of_app _ _ _) (or_introl Hn)))
                s caps _ x Hm Hc) as (s1 & c1 & Hc1 & Hm1).
    apply (IH2 (fun n v c Hn => HP n v c (proj2 (elem_of_app _ _ _) (or_intror Hn)))
             s1 c1 k x Hm1 Hc1).
  - destruct (IH (fun m v c Hm' => HP m v c (proj2 (elem_of_cons _ _ _) (or_intror Hm')))
                s caps _ x Hm Hc) as (s1 & c1 & Hc1 & Hk).
    exists s1, (<[n:=consumed s s1]> c1). split; [|done].
    apply HP; [by left|done].
Qed.

Lemma consumed_nonempty c s s' :
  (String.length s' <= String.length s)%nat -> consumed (String c s) s' <> "".
Proof.
  intros Hlen. unfold consumed. simpl String.length.
  destruct (S (String.length s) - String.length s')%nat eqn:Hd; [lia|]. done.
Qed.

Definition captured (n : nat) (caps : gmap nat string) : Prop :=
  exists l, caps !! n = Some l /\ l <> "".

Lemma rmatch_seq {R} r1 r2 (P : gmap nat string -> Prop) s caps
    (k : string -> gmap nat string -> option R) x :
  (forall n v caps, n ∈ groups r1 -> P caps -> P (<[n:=v]> caps)) ->
  rmatch (Seq r1 r2) s caps k = Some x -> P caps ->
  exists s' caps', P caps' /\ rmatch r2 s' caps' k = Some x.
Proof. intros HP Hm Hc. by apply (rmatch_preserves r1 P HP s caps _ x Hm). Qed.

Lemma rmatch_seq_group {R} n p r2 s caps
    (k : string -> gmap nat string -> option R) x :
  rmatch (Seq (Group n (Plus p)) r2) s caps k = Some x ->
  exists s' caps', captured n caps' /\ rmatch r2 s' caps' k = Some x.
Proof.
  simpl. destruct s as [|c s]; [done|]. destruct (p c); [|done]. intros Hm.
  apply star_match_k in Hm as (s' & Hlen & Hk).
  exists s', (<[n:=consumed (String c s) s']> caps). split; [|done].
  exists (consumed (String c s) s'). split; [by rewrite lookup_insert_eq|].
  by apply consumed_nonempty.
Qed.

Lemma captured_insert n m v caps : n <> m -> captured n caps -> captured n (<[m:=v]> caps).
Proof.
  intros Hne (l & Hl & Hnz). exists l. split; [|done]. by rewrite lookup_insert_ne.
Qed.

(** The label of a Node line, capture 2, is never empty. *)
Lemma itemRegex_label {R} s caps (k : string -> gmap nat string -> option R) x :
  rmatch itemRegex s caps k = Some x ->
  exists s' caps', captured 2 caps' /\ k s' caps' = Some x.
Proof.
  unfold itemRegex. cbn [seqs]. intros Hm.
  do 5 (apply (rmatch_seq _ _ (fun _ => True)) in Hm as (? & ? & _ & Hm); [|done|done]).
  apply rmatch_seq_group in Hm as (s1 & c1 & Hc1 & Hm).
  apply (rmatch_preserves _ (captured 2)) in Hm; [done| |done].
  intros n v c Hn Hc. apply captured_insert; [|done].
  simpl in Hn. apply list_elem_of_singleton in Hn. lia.
Qed.

Lemma search_rmatch r s caps :
  search r s = Some caps ->
  exists s', rmatch r s' ∅ (fun _ caps => Some caps) = Some caps.
Proof.
  induction s as [|c s IH]; simpl.
  - destruct (rmatch r "" ∅ _) as [y|] eqn:Hr; [|done]. intros [= <-]. eauto.
  - destruct (rmatch r (String c s) ∅ _) as [y|] eqn:Hr; [|done]. intros [= <-]. eauto.
Qed.

Lemma search_item_label line caps :
  search itemRegex line = Some caps -> cap caps 2 <> "".
Proof.
  intros Hs. apply search_rmatch in Hs as [s Hm].
  apply itemRegex_label in Hm as (s' & caps' & (l & Hl & Hnz) & [= <-]).
  unfold cap. by rewrite Hl.
Qed.

Lemma search_group_label line caps :
  search groupRegex line = Some caps -> cap caps 2 <> "".
Proof.
  intros Hs. apply search_rmatch in Hs as [s Hm].
  unfold groupRegex in Hm. cbn [seqs] in Hm.
  change (rmatch itemRegex s ∅
            (fun s' caps' =>
               rmatch (Seq (Star space) (Seq (Lit "{") Eps)) s' caps'
                 (fun _ caps => Some caps)) = Some caps) in Hm.
  apply itemRegex_label in Hm as (s' & caps' & Hc & Hm).
  apply (rmatch_preserves _ (captured 2)) in Hm as (? & ? & (l & Hl & Hnz) & [= <-]);
    [|by intros n v c Hn; simpl in Hn; apply elem_of_nil in Hn|done].
  unfold cap. by rewrite Hl.
Qed.

(** *** Labels *)

(** The quoted label of a Node line. *)
Definition labelOf (line : string) : option string :=
  match lineKind line with
  | ItemDef => (fun caps => cap caps 2) <$> search itemRegex line
  | _ => None
  end.

(** The quoted label of a Group line. *)
Definition groupLabelOf (line : string) : option string :=
  match lineKind line with
  | GroupStart => (fun caps => cap caps 2) <$> search groupRegex line
  | _ => None
  end.

Lemma nodeName_newItem now i st itemName iconName :
  itemName <> "" -> nodeName (newItem now i st itemName iconName) = itemName.
Proof.
  intros Hne. unfold nodeName, newItem. cbn [item_customName item_name].
  case_bool_decide as Heq; [done|]. by destruct itemName.
Qed.

Lemma parse_line_labels now random36 i st line :
  map nodeName (ps_items (parse_line now random36 i st line))
  = map nodeName (ps_items st) ++ option_list (labelOf line)
  /\ map cont_name (ps_containers (parse_line now random36 i st line))
     = map cont_name (ps_containers st) ++ option_list (groupLabelOf line).
Proof.
  unfold parse_line, labelOf, groupLabelOf.
  destruct (lineKind line); simpl; rewrite ?app_nil_r; try done.
  - destruct (search groupRegex line) as [caps|]; simpl; rewrite ?app_nil_r; [|done].
    by rewrite map_app.
  - destruct (search itemRegex line) as [caps|] eqn:Hs; simpl; rewrite ?app_nil_r; [|done].
    rewrite map_app. simpl. rewrite nodeName_newItem; [done|].
    by apply (search_item_label line).
  - destruct (search connectionRegex line) as [caps|]; simpl; [|done].
    by destruct (ps_itemIdMap st !! cap caps 1), (ps_itemIdMap st !! cap caps 2).
Qed.

Lemma omap_cons_option_list {A B} (f : A -> option B) a l :
  omap f (a :: l) = option_list (f a) ++ omap f l.
Proof. simpl. by destruct (f a). Qed.

Lemma parse_lines_labels now random36 lines i st :
  map nodeName (ps_items (parse_lines now random36 i st lines))
  = map nodeName (ps_items st) ++ omap labelOf lines
  /\ map cont_name (ps_containers (parse_lines now random36 i st lines))
     = map cont_name (ps_containers st) ++ omap groupLabelOf lines.
Proof.
  revert i st. induction lines as [|l lines IH]; intros i st.
  - simpl. by rewrite !app_nil_r.
  - cbn [parse_lines]. destruct (IH (S i) (parse_line now random36 i st l)) as [-> ->].
    destruct (parse_line_labels now random36 i st l) as [-> ->].
    rewrite !omap_cons_option_list. by rewrite <- !app_assoc.
Qed.

(** X18. Labels are kept. The names that the emitters write for the
    Nodes of a parsed text ([customName || name]) are the quoted labels
    of its Node lines, in order, whatever service the label and the
    icon were classified as; none is empty. The names of the Groups are
    the quoted labels of the Group lines, in order. *)
Theorem parsed_labels_are_kept (now : nat -> Z) (random36 : nat -> string)
    (text : string) :
  let r := parseEraserFormat now random36 text in
  map nodeName (res_items r) = omap labelOf (linesOf text)
  /\ map cont_name (res_containers r) = omap groupLabelOf (linesOf text)
  /\ Forall (fun it => nodeName it <> "") (res_items r)
  /\ Forall (fun g => cont_name g <> "") (res_containers r).
Proof.
  intros r. subst r. unfold parseEraserFormat, resultOf. cbn [res_items res_containers].
  destruct (parse_lines_labels now random36 (linesOf text) 0 initialState) as [Hi Hg].
  simpl in Hi, Hg. split; [done|]. split; [done|]. split.
  - apply Forall_fmap with (f := nodeName) (P := fun n => n <> ""). 
    change (Forall (fun n => n <> "") (map nodeName
              (ps_items (parse_lines now random36 0 initialState (linesOf text))))).
    rewrite Hi. apply Forall_forall. intros n Hn.
    apply list_elem_of_omap in Hn as (l & _ & Hl). unfold labelOf in Hl.
    destruct (lineKind l); try done.
    apply fmap_Some in Hl as (caps & Hs & ->). by apply (search_item_label l).
  - apply Forall_fmap with (f := cont_name) (P := fun n => n <> "").
    change (Forall (fun n => n <> "") (map cont_name
              (ps_containers (parse_lines now random36 0 initialState (linesOf text))))).
    rewrite Hg. apply Forall_forall. intros n Hn.
    apply list_elem_of_omap in Hn as (l & _ & Hl). unfold groupLabelOf in Hl.
    destruct (lineKind l); try done.
    apply fmap_Some in Hl as (caps & Hs & ->). by apply (search_group_label l).
Qed.

End LabelLaws.

(** ** Ids of parsed Nodes, and the import handler *)

Module IdLaws.
Import Js Hierarchy Regex Parser Emitters Board Importer CompressionLaws HierarchyLaws
       ParserLaws EmitterLaws BoardLaws ImportLaws.

Lemma string_app_cons c (s t : string) : String c s +:+ t = String c (s +:+ t).
Proof. done. Qed.

Lemma string_app_nil (t : string) : "" +:+ t = t.
Proof. done. Qed.

Lemma string_app_assoc (s t u : string) : (s +:+ t) +:+ u = s +:+ t +:+ u.
Proof.
  induction s as [|c s IH]; [done|]. rewrite !string_app_cons. by f_equal.
Qed.

Lemma no_dash_app_dash x b : no_dash (x +:+ String "-" b) = false.
Proof.
  induction x as [|c x IH]; [done|]. rewrite string_app_cons.
  cbn [no_dash]. apply andb_false_iff. by right.
Qed.

(** A text is cut in one way only at its last dash. *)
Lemma dash_suffix_inj x y a b :
  no_dash a = true -> no_dash b = true ->
  x +:+ "-" +:+ a = y +:+ "-" +:+ b -> x = y /\ a = b.
Proof.
  revert y. induction x as [|c x IH]; intros [|c' y] Ha Hb Heq;
    rewrite ?string_app_cons, ?string_app_nil in Heq.
  - by injection Heq as ->.
  - injection Heq as <- Heq. rewrite Heq in Ha. by rewrite no_dash_app_dash in Ha.
  - injection Heq as -> Heq. rewrite <- Heq in Hb. by rewrite no_dash_app_dash in Hb.
  - injection Heq as -> Heq. destruct (IH y Ha Hb Heq) as [-> ->]. done.
Qed.

Lemma pretty_Z_no_dash (t : Z) : 0 <= t -> no_dash (pretty t) = true.
Proof.
  intros Ht. destruct t as [|p|p]; [done| |lia].
  unfold pretty, pretty_Z, pretty, pretty_positive, pretty, pretty_N.
  case_decide; [done|]. by apply pretty_N_go_no_dash.
Qed.

Lemma dash_reassoc (s n t : string) :
  s +:+ "-" +:+ n +:+ "-" +:+ t = (s +:+ "-" +:+ n) +:+ "-" +:+ t.
Proof. by rewrite string_app_assoc. Qed.

(** The id of the Node number [n] of a parse, for a clock that is not
    negative. *)
Definition item_id_shape (n : nat) (it : ServiceItem) : Prop :=
  exists (s : string) (t : Z),
    0 <= t /\ item_id it = s +:+ "-" +:+ pretty n +:+ "-" +:+ pretty t.

Lemma item_id_shape_inj n m a b :
  item_id_shape n a -> item_id_shape m b -> item_id a = item_id b -> n = m.
Proof.
  intros (s & t & Ht & Ha) (s' & t' & Ht' & Hb) Heq. rewrite Ha, Hb in Heq.
  rewrite (dash_reassoc s), (dash_reassoc s') in Heq.
  apply dash_suffix_inj in Heq as [Heq _]; [|by apply pretty_Z_no_dash..].
  apply dash_suffix_inj in Heq as [_ Heq]; [|apply pretty_nat_no_dash..].
  by apply (inj pretty) in Heq.
Qed.

Section Ids.
Variables (now : nat -> Z) (random36 : nat -> string).
Hypothesis Hnow : forall i, 0 <= now i.

Lemma parse_line_item_ids i st line :
  ps_itemCounter st = length (ps_items st) ->
  (forall n it, ps_items st !! n = Some it -> item_id_shape n it) ->
  forall n it, ps_items (parse_line now random36 i st line) !! n = Some it ->
               item_id_shape n it.
Proof.
  intros Hc Hsh. unfold parse_line. destruct (lineKind line); simpl; try done.
  - by destruct (search groupRegex line).
  - destruct (search itemRegex line) as [caps|]; simpl; [|done].
    intros n it Hn. apply lookup_app_Some in Hn as [Hn|[Hlen Hn]]; [by apply Hsh|].
    apply list_lookup_singleton_Some in Hn as [Hn <-].
    assert (n = length (ps_items st)) as -> by lia.
    eexists _, (now i). split; [done|]. unfold newItem. cbn [item_id]. by rewrite Hc.
  - destruct (search connectionRegex line) as [caps|]; simpl; [|done].
    by destruct (ps_itemIdMap st !! cap caps 1), (ps_itemIdMap st !! cap caps 2).
Qed.

Lemma parse_lines_item_ids lines i st :
  invariant st ->
  (forall n it, ps_items st !! n = Some it -> item_id_shape n it) ->
  forall n it, ps_items (parse_lines now random36 i st lines) !! n = Some it ->
               item_id_shape n it.
Proof.
  revert i st. induction lines as [|l lines IH]; intros i st Hinv Hsh; [done|].
  simpl. apply IH.
  - by apply parse_line_invariant.
  - apply parse_line_item_ids; [by destruct Hinv|done].
Qed.

Lemma parsed_item_ids_NoDup lines :
  NoDup (map item_id (ps_items (parse_lines now random36 0 initialState lines))).
Proof.
  set (st := parse_lines now random36 0 initialState lines).
  assert (Hsh : forall n it, ps_items st !! n = Some it -> item_id_shape n it).
  { apply parse_lines_item_ids; [apply invariant_initial|].
    intros ? ? Hl. simpl in Hl. by rewrite lookup_nil in Hl. }
  apply NoDup_alt. intros i j x Hi Hj. rewrite list_lookup_fmap in Hi, Hj.
  destruct (ps_items st !! i) as [a|] eqn:Ha; [|done].
  destruct (ps_items st !! j) as [b|] eqn:Hb; [|done].
  simpl in Hi, Hj. injection Hi as Hi. injection Hj as Hj.
  eapply item_id_shape_inj; [by apply Hsh..|congruence].
Qed.

End Ids.

(** X19. The parser gives every Node an id of its own. For a clock
    that never returns a negative time, no two Nodes of a parse result
    have the same id, whatever the text; with the uniqueness of the
    Group ids and the fact that no Node id is a Group id, every id of
    the result names one entity. *)
Theorem parsed_node_ids_unique (now : nat -> Z) (random36 : nat -> string)
    (text : string) :
  (forall i, 0 <= now i) ->
  let r := parseEraserFormat now random36 text in
  NoDup (map item_id (res_items r))
  /\ NoDup (map cont_id (res_containers r))
  /\ (forall it g, it ∈ res_items r -> g ∈ res_containers r -> item_id it <> cont_id g).
Proof.
  intros Hnow r. subst r. unfold parseEraserFormat, resultOf.
  cbn [res_items res_containers]. split; [by apply parsed_item_ids_NoDup|]. split.
  - by destruct (parsed_containers_well_formed now random36 (linesOf text)) as [Hnd _].
  - intros it g Hit Hg Heq.
    destruct (parse_lines_ids now random36 (linesOf text) 0 initialState) as [Hi Hc].
    + intros ? Hin. destruct Hin.
    + intros ? Hin. destruct Hin.
    + apply list_elem_of_In in Hit, Hg. specialize (Hi it Hit). specialize (Hc g Hg).
      rewrite Heq in Hi. congruence.
Qed.

(** Two Nodes of the same service on the example clock, which does not
    advance: the counter keeps the ids apart. *)
Lemma parsed_node_ids_unique_witness :
  map item_id (res_items (parseEraserFormat example_now example_random36
                            (dsl "A [label: 'EC2', icon: aws-ec2]
B [label: 'EC2', icon: aws-ec2]")))
  = ["ec2-0-1700000000000"; "ec2-1-1700000000000"]
  /\ NoDup (map item_id (res_items (parseEraserFormat example_now example_random36
                                      (dsl "A [label: 'EC2', icon: aws-ec2]
B [label: 'EC2', icon: aws-ec2]")))).
Proof.
  split; [reflexivity|].
  refine (proj1 (parsed_node_ids_unique example_now example_random36 _ _)).
  intros i. unfold example_now. lia.
Defined.

(** *** [executeImport] *)

Lemma executeUndo_saved clock st st' :
  app_isUndoing st = false ->
  app_undoHistory st' = app_undoHistory (saveToHistory clock st) ->
  sameDiagram (executeUndo st') st.
Proof.
  intros Hu Hh. destruct (saveToHistory_history clock st Hu) as (older & Hs & _).
  unfold executeUndo. rewrite Hh, Hs, last_snoc. done.
Qed.

(** X20. What [executeImport] leaves on the board. For text that is
    detected as the DSL, the new board is consistent: its Groups are a
    well-formed hierarchy, every Node is at the root or in a Group of
    the board, and every Edge joins two Nodes of the board. For text
    that is detected as unknown, and for blank text, the three
    collections are unchanged. In every case one undo, when the undo
    flag was down and the text not blank, brings the old collections
    back. *)
Theorem executeImport_consistent (JSON_probe : string -> bool)
    (JSON_import : string ->
                   result (list ServiceItem * list ContainerItem * list Connection))
    (now : nat -> Z) (random36 : nat -> string) (clock : Z)
    (st : AppState) (importText : string) :
  let st' := executeImport JSON_probe JSON_import now random36 clock st importText in
  (detectFormat JSON_probe importText = "eraser" ->
     well_formed (app_containers st')
     /\ parents_exist (app_boardItems st') (app_containers st')
     /\ forall e, e ∈ app_connections st' ->
          exists a b, a ∈ app_boardItems st' /\ b ∈ app_boardItems st'
                      /\ conn_from e = item_id a /\ conn_to e = item_id b)
  /\ (detectFormat JSON_probe importText = "unknown" -> sameDiagram st' st)
  /\ (app_isUndoing st = false -> trim importText <> "" ->
      sameDiagram (executeUndo st') st).
Proof.
  intros st'. subst st'. unfold executeImport.
  destruct (saveToHistory_collections clock st) as (Hbi & Hcs & Hes & _).
  split; [|split].
  - intros Hd. assert (Ht : trim importText <> "").
    { intros Ht. unfold detectFormat in Hd. by rewrite Ht in Hd. }
    destruct (trim importText) as [|c r]; [done|]. simpl negb. cbv iota.
    rewrite Hd. rewrite bool_decide_eq_false_2 by done.
    rewrite bool_decide_eq_true_2 by done.
    cbn [app_containers app_boardItems app_connections withCollections].
    unfold parseEraserFormat, resultOf. cbn [res_items res_containers res_connections].
    pose proof (parse_lines_invariant now random36 (linesOf importText) 0 initialState
                  invariant_initial) as Hinv.
    split; [apply parsed_containers_well_formed|]. split.
    + intros it Hit. apply list_elem_of_In in Hit.
      destruct (inv_item_parent _ Hinv it Hit) as [Hn|(g & Hg & Hp)]; [by left|].
      right. exists g. split; [by apply list_elem_of_In|done].
    + intros e He. apply list_elem_of_In in He.
      destruct (inv_edges _ Hinv e He) as (a & b & Ha & Hb & Hf & Ht').
      exists a, b. split; [by apply list_elem_of_In|]. split; [by apply list_elem_of_In|done].
  - intros Hd. destruct (negb (truthy_string (trim importText))); [done|].
    rewrite Hd. rewrite !bool_decide_eq_false_2 by done. done.
  - intros Hu Ht. destruct (trim importText) as [|c r]; [done|]. simpl negb. cbv iota.
    apply (executeUndo_saved clock); [done|].
    repeat case_match; done.
Qed.

End IdLaws.

(** ** More on the emitters *)

Module EmitMoreLaws.
Import Js Hierarchy Regex Parser Emitters Board CompressionLaws HierarchyLaws
       ParserLaws EmitterLaws BoardLaws.

(** X21. Which Nodes the emitters declare. On a well-formed hierarchy
    both emitters return their output; the text that goes to the
    clipboard is its pieces one after the other, and the piece of a
    Node, an Edge or a style directive holds the line of that entity.
    Both outputs have the declaration line of a Node of the Diagram
    exactly when its parent is falsy or names a Group of the Diagram; a
    Node whose parent names no Group is declared by neither. The
    flowchart has a style directive for every Node all the same, and
    both have a line for every Edge, whether its ends are declared or
    not. *)
Theorem declared_nodes (boardItems : list ServiceItem) (containers : list ContainerItem)
    (connections : list Connection) (fuel : nat) :
  well_formed containers ->
  (length containers <= fuel)%nat ->
  exists eraser flowchart,
    exportEraser boardItems containers connections fuel = Some eraser
    /\ exportFlowchart boardItems containers connections fuel = Some flowchart
    /\ (forall exportFormat,
          mermaidCode boardItems containers connections exportFormat fuel
          = Some (text_of (if bool_decide (exportFormat = "eraser")
                           then eraser else flowchart)))
    /\ Forall (written (eraser_line boardItems containers)) eraser
    /\ Forall (written (flowchart_line containers)) flowchart
    /\ (forall it,
          NodeLine it ∈ map tag eraser <->
          it ∈ boardItems
          /\ (truthy (item_parentContainerId it) = false
              \/ exists q, q ∈ containers
                           /\ item_parentContainerId it = Some (cont_id q)))
    /\ (forall it, NodeLine it ∈ map tag flowchart <-> NodeLine it ∈ map tag eraser)
    /\ (forall it, StyleLine it ∈ map tag flowchart <-> it ∈ boardItems)
    /\ (forall e, EdgeLine e ∈ map tag eraser <-> e ∈ connections)
    /\ (forall e, EdgeLine e ∈ map tag flowchart <-> e ∈ connections).
Proof.
  intros Hwf Hfuel.
  destruct (roots_terminate boardItems containers Hwf fuel Hfuel) as [os HF].
  destruct (exportEraser_tag_list boardItems containers connections fuel os HF)
    as (eraser & He & Hte).
  destruct (exportFlowchart_tag_list boardItems containers connections fuel os HF)
    as (flowchart & Hf & Htf).
  exists eraser, flowchart. split; [done|]. split; [done|].
  split; [intros fmt; by apply mermaidCode_text_of|].
  split; [by apply (exportEraser_lines boardItems containers Hwf connections fuel)|].
  split; [by apply (exportFlowchart_lines boardItems containers Hwf connections fuel)|].
  rewrite Hte, Htf.
  split; [|split; [|split; [|split]]].
  - intros it. by apply (eraser_tags_NodeLine boardItems containers connections fuel os).
  - intros it.
    rewrite (eraser_tags_NodeLine boardItems containers connections fuel os Hwf HF).
    by apply (flowchart_tags_NodeLine boardItems containers connections fuel os).
  - intros it. by apply (flowchart_tags_StyleLine boardItems containers connections fuel os).
  - intros e. by apply (eraser_tags_EdgeLine boardItems containers connections fuel os).
  - intros e. by apply (flowchart_tags_EdgeLine boardItems containers connections fuel os).
Qed.

(** A Node with a parent that names no Group: neither emitter declares
    it, and the flowchart styles it. *)
Definition stray_node : ServiceItem :=
  {| item_id := "s3-9"; item_name := "S3"; item_customName := None;
     item_color := "#569A31"; item_category := "Storage"; item_x := 0; item_y := 0;
     item_parentContainerId := Some "gone"; item_type := "service" |}.

Lemma declared_nodes_witness :
  exists eraser flowchart,
    exportEraser [stray_node] [chain_A] [] 1 = Some eraser
    /\ exportFlowchart [stray_node] [chain_A] [] 1 = Some flowchart
    /\ Forall (written (eraser_line [stray_node] [chain_A])) eraser
    /\ Forall (written (flowchart_line [chain_A])) flowchart
    /\ ~ NodeLine stray_node ∈ map tag eraser
    /\ ~ NodeLine stray_node ∈ map tag flowchart
    /\ StyleLine stray_node ∈ map tag flowchart.
Proof.
  destruct (declared_nodes [stray_node] [chain_A] [] 1)
    as (e & f & He & Hf & _ & Hle & Hlf & Hne & Hnf & Hsf & _).
  - refine (bool_decide_unpack _ _). vm_compute. exact I.
  - simpl. lia.
  - exists e, f. split; [exact He|]. split; [exact Hf|].
    split; [exact Hle|]. split; [exact Hlf|].
    assert (Hno : ~ NodeLine stray_node ∈ map tag e).
    { intros Hin. apply Hne in Hin as [_ [Hp|(q & Hq & Hp)]]; [done|].
      apply list_elem_of_singleton in Hq as ->. done. }
    split; [exact Hno|]. split.
    + intros Hin. by apply Hnf in Hin.
    + apply Hsf. by apply list_elem_of_singleton.
Defined.

(** X22. Import, then export. With the Diagram that the parser returns
    for any text, both emitters return their output (the number of
    Groups is fuel enough); the text that goes to the clipboard is its
    pieces one after the other, and the piece of a Node, a Group, an
    Edge or a style directive holds the line of that entity. Both
    outputs have the declaration line of exactly the Nodes of the
    parse and a line for exactly its Edges, and the flowchart a style
    directive for exactly its Nodes: nothing that was parsed is lost by
    the export. *)
Theorem parsed_diagram_fully_exported (now : nat -> Z) (random36 : nat -> string)
    (text : string) :
  exists eraser flowchart,
    exportEraser (res_items (parseEraserFormat now random36 text))
      (res_containers (parseEraserFormat now random36 text))
      (res_connections (parseEraserFormat now random36 text))
      (length (res_containers (parseEraserFormat now random36 text))) = Some eraser
    /\ exportFlowchart (res_items (parseEraserFormat now random36 text))
         (res_containers (parseEraserFormat now random36 text))
         (res_connections (parseEraserFormat now random36 text))
         (length (res_containers (parseEraserFormat now random36 text)))
       = Some flowchart
    /\ (forall exportFormat,
          mermaidCode (res_items (parseEraserFormat now random36 text))
            (res_containers (parseEraserFormat now random36 text))
            (res_connections (parseEraserFormat now random36 text))
            exportFormat
            (length (res_containers (parseEraserFormat now random36 text)))
          = Some (text_of (if bool_decide (exportFormat = "eraser")
                           then eraser else flowchart)))
    /\ Forall (written (eraser_line (res_items (parseEraserFormat now random36 text))
                          (res_containers (parseEraserFormat now random36 text))))
              eraser
    /\ Forall (written (flowchart_line
                          (res_containers (parseEraserFormat now random36 text))))
              flowchart
    /\ (forall it, NodeLine it ∈ map tag eraser <->
                   it ∈ res_items (parseEraserFormat now random36 text))
    /\ (forall it, NodeLine it ∈ map tag flowchart <->
                   it ∈ res_items (parseEraserFormat now random36 text))
    /\ (forall it, StyleLine it ∈ map tag flowchart <->
                   it ∈ res_items (parseEraserFormat now random36 text))
    /\ (forall e, EdgeLine e ∈ map tag eraser <->
                  e ∈ res_connections (parseEraserFormat now random36 text))
    /\ (forall e, EdgeLine e ∈ map tag flowchart <->
                  e ∈ res_connections (parseEraserFormat now random36 text)).
Proof.
  set (r := parseEraserFormat now random36 text).
  assert (Hwf : well_formed (res_containers r)).
  { apply parsed_containers_well_formed. }
  assert (Hdecl : forall it, declared (res_items r) (res_containers r) it <->
                             it ∈ res_items r).
  { intros it. split; [by intros [? _]|]. intros Hin. split; [done|].
    pose proof (parse_lines_invariant now random36 (linesOf text) 0 initialState
                  invariant_initial) as Hinv.
    destruct (inv_item_parent _ Hinv it) as [Hp|(g & Hg & Hp)].
    - by apply list_elem_of_In.
    - left. by rewrite Hp.
    - right. exists g. split; [by apply list_elem_of_In|done]. }
  destruct (roots_terminate (res_items r) (res_containers r) Hwf
              (length (res_containers r)) (le_n _)) as [os HF].
  destruct (exportEraser_tag_list (res_items r) (res_containers r) (res_connections r)
              _ os HF) as (eraser & He & Hte).
  destruct (exportFlowchart_tag_list (res_items r) (res_containers r)
              (res_connections r) _ os HF) as (flowchart & Hf & Htf).
  exists eraser, flowchart. split; [done|]. split; [done|].
  split; [intros fmt; by apply mermaidCode_text_of|].
  split; [by eapply (exportEraser_lines (res_items r) (res_containers r) Hwf)|].
  split; [by eapply (exportFlowchart_lines (res_items r) (res_containers r) Hwf)|].
  rewrite Hte, Htf.
  split; [|split; [|split; [|split]]].
  - intros it. rewrite <- Hdecl. by eapply eraser_tags_NodeLine.
  - intros it. rewrite <- Hdecl. by eapply flowchart_tags_NodeLine.
  - intros it. by eapply flowchart_tags_StyleLine.
  - intros e. by eapply eraser_tags_EdgeLine.
  - intros e. by eapply flowchart_tags_EdgeLine.
Qed.

End EmitMoreLaws.

(** ** A shared Diagram exports to the same text *)

Module SharedExportLaws.
Import Js Compression Hierarchy Emitters CompressionLaws HierarchyLaws.

Lemma filter_map_agree {A : Type} (P Q : A -> bool) (f : A -> A) (l : list A) :
  (forall x, P (f x) = Q x) ->
  filter (fun x => P x) (map f l) = map f (filter (fun x => Q x) l).
Proof.
  intros Hag. induction l as [|a l IH]; [done|].
  cbn [map]. rewrite !filter_cons, (Hag a), IH.
  by destruct (decide (Q a)).
Qed.

Lemma parent_eq_normalize (p : option string) (id : string) :
  id <> "" -> bool_decide (absent_if_empty p = Some id) = bool_decide (p = Some id).
Proof.
  intros Hid. destruct p as [[|c r]|]; simpl; [|done|done].
  symmetry. apply bool_decide_eq_false_2. by intros [= <-].
Qed.

Lemma truthy_absent_if_empty (p : option string) : truthy (absent_if_empty p) = truthy p.
Proof. destruct p as [[|c r]|]; done. Qed.

Lemma nodeName_normalize it : nodeName (normalizeItem it) = nodeName it.
Proof.
  destruct it as [i n cn co ca x y p t]. unfold nodeName, normalizeItem. simpl.
  case_bool_decide as Hc.
  - subst cn. by destruct (truthy_string n).
  - destruct cn as [[|c r]|]; done.
Qed.

Lemma labelled_normalize c : labelled (normalizeConnection c) = labelled c.
Proof.
  destruct c as [i f t l]. unfold labelled, normalizeConnection. simpl.
  destruct l as [l|]; [|done].
  destruct (all_space l) eqn:Hs; [|done]. simpl.
  apply trim_empty_iff in Hs. rewrite Hs. simpl. by rewrite andb_false_r.
Qed.

Lemma text_eraserNode indent it :
  text (eraserNode indent (normalizeItem it)) = text (eraserNode indent it).
Proof. unfold eraserNode. cbn [text]. by rewrite nodeName_normalize. Qed.

Lemma text_flowchartNode indent it :
  text (flowchartNode indent (normalizeItem it)) = text (flowchartNode indent it).
Proof. unfold flowchartNode. cbn [text]. by rewrite nodeName_normalize. Qed.

Lemma text_eraserEdge c : text (eraserEdge (normalizeConnection c)) = text (eraserEdge c).
Proof. unfold eraserEdge. cbn [text]. by rewrite labelled_normalize. Qed.

Lemma text_flowchartEdge c :
  text (flowchartEdge (normalizeConnection c)) = text (flowchartEdge c).
Proof. unfold flowchartEdge. cbn [text]. by rewrite labelled_normalize. Qed.

Lemma text_flowchartStyle it :
  text (flowchartStyle (normalizeItem it)) = text (flowchartStyle it).
Proof. done. Qed.

(** The texts of a traversal of several Groups, when the traversals of
    the single Groups give the same texts. *)
Lemma mapM_texts {A : Type} (f g : A -> option (list Piece)) (h : A -> A) (l : list A) :
  (forall x, map text <$> f (h x) = map text <$> g x) ->
  (fun ps => map text (concat ps)) <$> mapM f (map h l)
  = (fun ps => map text (concat ps)) <$> mapM g l.
Proof.
  intros Hfg. induction l as [|a l IH]; [done|].
  cbn [map mapM]. pose proof (Hfg a) as Ha.
  destruct (f (h a)) as [x|], (g a) as [y|]; simpl in Ha; try done.
  cbn [mbind option_bind].
  destruct (mapM f (map h l)) as [xs|], (mapM g l) as [ys|]; simpl in IH; try done.
  simpl. injection Ha as Ha. injection IH as IH. by rewrite !map_app, Ha, IH.
Qed.

Section SameText.
Variables (boardItems : list ServiceItem) (containers : list ContainerItem)
          (connections : list Connection).
Hypothesis Hids : Forall (fun c => cont_id c <> "") containers.

Lemma itemsInContainer_normalize c :
  cont_id c <> "" ->
  itemsInContainer (map normalizeItem boardItems) (normalizeContainer c)
  = map normalizeItem (itemsInContainer boardItems c).
Proof.
  intros Hc. unfold itemsInContainer.
  apply (filter_map_agree
           (fun it => bool_decide (item_parentContainerId it
                                   = Some (cont_id (normalizeContainer c))))
           (fun it => bool_decide (item_parentContainerId it = Some (cont_id c)))).
  intros it. by apply parent_eq_normalize.
Qed.

Lemma childContainers_normalize c :
  cont_id c <> "" ->
  childContainers (map normalizeContainer containers) (normalizeContainer c)
  = map normalizeContainer (childContainers containers c).
Proof.
  intros Hc. unfold childContainers.
  apply (filter_map_agree
           (fun g => bool_decide (cont_parentContainerId g
                                  = Some (cont_id (normalizeContainer c))))
           (fun g => bool_decide (cont_parentContainerId g = Some (cont_id c)))).
  intros g. by apply parent_eq_normalize.
Qed.

Lemma itemsNotInContainer_normalize :
  itemsNotInContainer (map normalizeItem boardItems)
  = map normalizeItem (itemsNotInContainer boardItems).
Proof.
  unfold itemsNotInContainer.
  apply (filter_map_agree (fun it => negb (truthy (item_parentContainerId it)))
                          (fun it => negb (truthy (item_parentContainerId it)))).
  intros it. simpl. by rewrite truthy_absent_if_empty.
Qed.

Lemma rootContainers_normalize :
  rootContainers (map normalizeContainer containers)
  = map normalizeContainer (rootContainers containers).
Proof.
  unfold rootContainers.
  apply (filter_map_agree (fun g => negb (truthy (cont_parentContainerId g)))
                          (fun g => negb (truthy (cont_parentContainerId g)))).
  intros g. simpl. by rewrite truthy_absent_if_empty.
Qed.

Lemma find_container_normalize id :
  find_container (map normalizeContainer containers) id
  = normalizeContainer <$> find_container containers id.
Proof.
  unfold find_container. clear Hids. induction containers as [|c cs IH]; [done|].
  simpl. by destruct (bool_decide (cont_id c = id)).
Qed.

Lemma groupIcon_normalize c :
  cont_id c <> "" ->
  groupIcon (map normalizeItem boardItems) (normalizeContainer c) = groupIcon boardItems c.
Proof.
  intros Hc. unfold groupIcon. rewrite itemsInContainer_normalize by done.
  cbn [cont_name normalizeContainer]. by destruct (itemsInContainer boardItems c).
Qed.

Lemma found_id_nonempty id c : find_container containers id = Some c -> cont_id c <> "".
Proof.
  intros Hf. apply find_some in Hf as [Hin _].
  by apply (proj1 (Forall_forall _ _) Hids), list_elem_of_In.
Qed.

Lemma exportContainerRecursive_normalize fuel id depth :
  map text <$> exportContainerRecursive (map normalizeItem boardItems)
                 (map normalizeContainer containers) fuel id depth
  = map text <$> exportContainerRecursive boardItems containers fuel id depth.
Proof.
  revert id depth. induction fuel as [|fuel IH]; intros id depth; [done|].
  cbn [exportContainerRecursive]. rewrite find_container_normalize.
  destruct (find_container containers id) as [c|] eqn:Hf; [|done].
  pose proof (found_id_nonempty id c Hf) as Hc. cbn [fmap option_fmap option_map].
  rewrite childContainers_normalize by done.
  pose proof (mapM_texts
                (fun g => exportContainerRecursive (map normalizeItem boardItems)
                            (map normalizeContainer containers) fuel (cont_id g) (S depth))
                (fun g => exportContainerRecursive boardItems containers fuel
                            (cont_id g) (S depth))
                normalizeContainer (childContainers containers c)
                (fun g => IH (cont_id g) (S depth))) as Hch.
  destruct (mapM _ (map normalizeContainer _)) as [xs|],
           (mapM _ (childContainers containers c)) as [ys|]; simpl in Hch; try done.
  injection Hch as Hch. cbn [mbind option_bind fmap option_fmap option_map].
  rewrite groupIcon_normalize, itemsInContainer_normalize by done.
  f_equal. rewrite !map_app, Hch, !map_map. cbn [map text normalizeContainer cont_id cont_name].
  f_equal. f_equal. apply map_ext. intros. apply text_eraserNode.
Qed.

Lemma exportFlowchartContainerRecursive_normalize fuel id depth :
  map text <$> exportFlowchartContainerRecursive (map normalizeItem boardItems)
                 (map normalizeContainer containers) fuel id depth
  = map text <$> exportFlowchartContainerRecursive boardItems containers fuel id depth.
Proof.
  revert id depth. induction fuel as [|fuel IH]; intros id depth; [done|].
  cbn [exportFlowchartContainerRecursive]. rewrite find_container_normalize.
  destruct (find_container containers id) as [c|] eqn:Hf; [|done].
  pose proof (found_id_nonempty id c Hf) as Hc. cbn [fmap option_fmap option_map].
  rewrite childContainers_normalize by done.
  pose proof (mapM_texts
                (fun g => exportFlowchartContainerRecursive (map normalizeItem boardItems)
                            (map normalizeContainer containers) fuel (cont_id g) (S depth))
                (fun g => exportFlowchartContainerRecursive boardItems containers fuel
                            (cont_id g) (S depth))
                normalizeContainer (childContainers containers c)
                (fun g => IH (cont_id g) (S depth))) as Hch.
  destruct (mapM _ (map normalizeContainer _)) as [xs|],
           (mapM _ (childContainers containers c)) as [ys|]; simpl in Hch; try done.
  injection Hch as Hch. cbn [mbind option_bind fmap option_fmap option_map].
  rewrite itemsInContainer_normalize by done.
  f_equal. rewrite !map_app, Hch, !map_map. cbn [map text normalizeContainer cont_id cont_name].
  f_equal. f_equal. apply map_ext. intros. apply text_flowchartNode.
Qed.

Lemma exportEraser_normalize fuel :
  map text <$> exportEraser (map normalizeItem boardItems)
                 (map normalizeContainer containers)
                 (map normalizeConnection connections) fuel
  = map text <$> exportEraser boardItems containers connections fuel.
Proof.
  unfold exportEraser. rewrite rootContainers_normalize, itemsNotInContainer_normalize.
  pose proof (mapM_texts
                (fun g => code ← exportContainerRecursive (map normalizeItem boardItems)
                                   (map normalizeContainer containers) fuel (cont_id g) 0;
                          Some (code ++ [ {| tag := Other; text := nl |} ]))
                (fun g => code ← exportContainerRecursive boardItems containers fuel
                                   (cont_id g) 0;
                          Some (code ++ [ {| tag := Other; text := nl |} ]))
                normalizeContainer (rootContainers containers)) as Hch.
  lapply Hch; [clear Hch; intros Hch|].
  2:{ intros g. pose proof (exportContainerRecursive_normalize fuel (cont_id g) 0) as Hg.
      cbn [normalizeContainer cont_id].
      destruct (exportContainerRecursive (map _ _) _ _ _ _) as [x|],
               (exportContainerRecursive boardItems _ _ _ _) as [y|]; simpl in Hg; try done.
      injection Hg as Hg. simpl. by rewrite !map_app, Hg. }
  destruct (mapM _ (map normalizeContainer _)) as [xs|],
           (mapM _ (rootContainers containers)) as [ys|]; simpl in Hch; try done.
  injection Hch as Hch. cbn [mbind option_bind fmap option_fmap option_map]. f_equal.
  rewrite !map_app, Hch, !map_map. cbn [map text]. f_equal. f_equal.
  { apply map_ext. intros. apply text_eraserNode. }
  f_equal.
  { by destruct (itemsNotInContainer boardItems). }
  f_equal. destruct connections as [|e es]; [done|].
  rewrite !bool_decide_eq_false_2 by done. cbn [map text]. f_equal.
  rewrite !map_map. f_equal; [apply text_eraserEdge|].
  apply map_ext. intros. apply text_eraserEdge.
Qed.

Lemma exportFlowchart_normalize fuel :
  map text <$> exportFlowchart (map normalizeItem boardItems)
                 (map normalizeContainer containers)
                 (map normalizeConnection connections) fuel
  = map text <$> exportFlowchart boardItems containers connections fuel.
Proof.
  unfold exportFlowchart. rewrite rootContainers_normalize, itemsNotInContainer_normalize.
  pose proof (mapM_texts
                (fun g => exportFlowchartContainerRecursive (map normalizeItem boardItems)
                            (map normalizeContainer containers) fuel (cont_id g) 1)
                (fun g => exportFlowchartContainerRecursive boardItems containers fuel
                            (cont_id g) 1)
                normalizeContainer (rootContainers containers)
                (fun g => exportFlowchartContainerRecursive_normalize fuel (cont_id g) 1))
    as Hch.
  destruct (mapM _ (map normalizeContainer _)) as [xs|],
           (mapM _ (rootContainers containers)) as [ys|]; simpl in Hch; try done.
  injection Hch as Hch. cbn [mbind option_bind fmap option_fmap option_map]. f_equal.
  rewrite !map_app, Hch, !map_map. cbn [map text]. f_equal. f_equal.
  { apply map_ext. intros. apply text_flowchartNode. }
  f_equal. f_equal.
  { destruct connections as [|e es]; [done|].
    rewrite !bool_decide_eq_false_2 by done. cbn [map text]. f_equal.
    rewrite !map_map. f_equal; [apply text_flowchartEdge|].
    apply map_ext. intros. apply text_flowchartEdge. }
Qed.

End SameText.

Lemma mermaidCode_texts boardItems containers connections exportFormat fuel :
  mermaidCode boardItems containers connections exportFormat fuel
  = (fun ps => foldr String.append "" (map text ps))
      <$> (if bool_decide (exportFormat = "eraser")
           then exportEraser boardItems containers connections fuel
           else exportFlowchart boardItems containers connections fuel).
Proof.
  unfold mermaidCode. destruct (if bool_decide _ then _ else _) as [ps|]; [|done].
  simpl. f_equal. induction ps as [|p ps IH]; [done|]. simpl. by rewrite IH.
Qed.

(** X23. A Diagram that went through optimize and restore, as every
    Diagram opened from a share link has, exports to the same text in
    both formats, when no Group has the empty id: the defaults that the
    round trip fills in or drops are invisible to the emitters. *)
Theorem shared_diagram_exports_same (d : ArchitectureData) (exportFormat : string)
    (fuel : nat) :
  Forall (fun c => cont_id c <> "") (containers d) ->
  mermaidCode (boardItems (restoreDataFromOptimized (optimizeDataForCompression d)))
              (containers (restoreDataFromOptimized (optimizeDataForCompression d)))
              (connections (restoreDataFromOptimized (optimizeDataForCompression d)))
              exportFormat fuel
  = mermaidCode (boardItems d) (containers d) (connections d) exportFormat fuel.
Proof.
  intros Hids. rewrite restore_optimize_normalize, !mermaidCode_texts.
  cbn [normalize boardItems containers connections].
  pose proof (exportEraser_normalize (boardItems d) (containers d) (connections d)
                Hids fuel) as He.
  pose proof (exportFlowchart_normalize (boardItems d) (containers d) (connections d)
                Hids fuel) as Hf.
  case_bool_decide.
  - destruct (exportEraser (map _ _) _ _ _) as [x|],
             (exportEraser (boardItems d) _ _ _) as [y|]; simpl in He; try done.
    injection He as He. simpl. by rewrite He.
  - destruct (exportFlowchart (map _ _) _ _ _) as [x|],
             (exportFlowchart (boardItems d) _ _ _) as [y|]; simpl in Hf; try done.
    injection Hf as Hf. simpl. by rewrite Hf.
Qed.

(** A Diagram on which the round trip is not the identity: an override
    equal to the base name, an empty override, an empty parent and a
    blank label. *)
Definition loose_document : ArchitectureData :=
  {| version := "1.0";
     timestamp := 1700000000000;
     boardItems :=
       [ {| item_id := "ec2-1"; item_name := "EC2"; item_customName := Some "EC2";
            item_color := "#FF9900"; item_category := "Compute";
            item_x := 100; item_y := 100; item_parentContainerId := Some "a";
            item_type := "service" |};
         {| item_id := "user-1"; item_name := "User"; item_customName := Some "";
            item_color := "#4F46E5"; item_category := "Actors";
            item_x := 0; item_y := 0; item_parentContainerId := Some "";
            item_type := "service" |} ];
     containers := [chain_A];
     connections :=
       [ {| conn_id := "conn-1"; conn_from := "user-1"; conn_to := "ec2-1";
            conn_label := Some " " |} ];
     settings := None |}.

Lemma shared_diagram_exports_same_witness :
  restoreDataFromOptimized (optimizeDataForCompression loose_document) <> loose_document
  /\ mermaidCode
       (boardItems (restoreDataFromOptimized (optimizeDataForCompression loose_document)))
       (containers (restoreDataFromOptimized (optimizeDataForCompression loose_document)))
       (connections (restoreDataFromOptimized (optimizeDataForCompression loose_document)))
       "eraser" 1
     = mermaidCode (boardItems loose_document) (containers loose_document)
         (connections loose_document) "eraser" 1.
Proof.
  split; [by vm_compute|].
  apply (shared_diagram_exports_same loose_document "eraser" 1).
  refine (bool_decide_unpack _ _). vm_compute. exact I.
Defined.

End SharedExportLaws.

(** ** Editing labels *)

Module EditLaws.
Import Js Compression Hierarchy Emitters Board CompressionLaws EmitterLaws BoardLaws
       SharedExportLaws.

(** What [trim] returns has no white space at its start, so it is blank
    only when it is empty. *)
Lemma trim_blank_empty s : all_space (trim s) = true -> trim s = "".
Proof.
  unfold trim. destruct (trim_start s) as [|c r] eqn:Hs; [done|].
  apply trim_start_not_space in Hs. simpl.
  destruct (trim_end r); simpl; rewrite ?Hs; simpl; rewrite ?Hs; done.
Qed.

Lemma labelled_trimmed s :
  labelled {| conn_id := ""; conn_from := ""; conn_to := ""; conn_label := Some (trim s) |}
  = if bool_decide (trim s = "") then None else Some (trim s).
Proof.
  unfold labelled. cbn [conn_label]. case_bool_decide as He; [by rewrite He|].
  destruct (trim s) as [|c r] eqn:Ht; [done|]. simpl truthy_string at 1.
  rewrite andb_true_l. destruct (trim (String c r)) eqn:Htt; [|done].
  apply trim_empty_iff in Htt. rewrite <- Ht in Htt. apply trim_blank_empty in Htt.
  congruence.
Qed.

Lemma NoDup_fmap_elem {A B : Type} (f : A -> B) (l : list A) x y :
  NoDup (map f l) -> x ∈ l -> y ∈ l -> f x = f y -> x = y.
Proof.
  intros Hnd Hx Hy Hf.
  apply list_elem_of_lookup in Hx as [i Hi]. apply list_elem_of_lookup in Hy as [j Hj].
  assert (i = j) as ->.
  { apply (NoDup_lookup (map f l) i j (f x)); [done| |].
    - change (map f l) with (f <$> l). by rewrite list_lookup_fmap, Hi.
    - change (map f l) with (f <$> l). by rewrite list_lookup_fmap, Hj, Hf. }
  congruence.
Qed.

(** X24. The label of an Edge as the user submits it. After
    [handleConnectionLabelSubmit] every Edge with the edited id carries
    the trimmed text; that label is written by the emitters unless it is
    empty, and it is kept as it is by the optimize / restore round trip
    of a share link. The other Edges, and the order of all, are
    unchanged. *)
Theorem submitted_label_is_kept (now : Z) (st : AppState) (connectionId text : string) :
  map conn_id (app_connections (handleConnectionLabelSubmit now st connectionId text))
  = map conn_id (app_connections st)
  /\ (forall c,
        c ∈ app_connections (handleConnectionLabelSubmit now st connectionId text) ->
        conn_id c = connectionId ->
        conn_label c = Some (trim text)
        /\ labelled c = (if bool_decide (trim text = "") then None else Some (trim text))
        /\ restoreConnection (optimizeConnection c) = c)
  /\ (forall c,
        c ∈ app_connections (handleConnectionLabelSubmit now st connectionId text) ->
        conn_id c <> connectionId -> c ∈ app_connections st).
Proof.
  unfold handleConnectionLabelSubmit.
  set (saved := match List.find _ _ with Some _ => _ | None => st end).
  assert (Hs : app_connections saved = app_connections st).
  { subst saved. destruct (List.find _ _); [|done].
    case_bool_decide; [done|]. apply saveToHistory_collections. }
  cbn [withCollections app_connections]. rewrite Hs. clear Hs saved.
  split; [|split].
  - rewrite map_map. apply map_ext. intros c. by case_bool_decide.
  - intros c Hc Hid. apply list_elem_of_fmap in Hc as (c0 & -> & _).
    case_bool_decide as H0; [|done]. cbn [withLabel conn_label]. split; [done|].
    split.
    + rewrite <- labelled_trimmed. done.
    + rewrite restore_optimize_connection. unfold normalizeConnection, withLabel.
      cbn [conn_id conn_from conn_to conn_label]. f_equal.
      destruct (all_space (trim text)) eqn:Hsp; [|done].
      by rewrite (trim_blank_empty _ Hsp).
  - intros c Hc Hid. apply list_elem_of_fmap in Hc as (c0 & -> & Hc0).
    by case_bool_decide.
Qed.

(** X25. The name of a Node as the user submits it. On a board with
    unique Node ids, after [handleLabelSubmit] the Node with the edited
    id is shown, and exported, with the trimmed text, or with its base
    name when the text is blank: no Node gets an empty name by editing.
    The name is the same after the optimize / restore round trip of a
    share link. The other Nodes, and the order of all, are unchanged. *)
Theorem submitted_name_is_shown (now : Z) (st : AppState) (serviceId text : string) :
  NoDup (map item_id (app_boardItems st)) ->
  map item_id (app_boardItems (handleLabelSubmit now st serviceId text))
  = map item_id (app_boardItems st)
  /\ (forall it,
        it ∈ app_boardItems (handleLabelSubmit now st serviceId text) ->
        item_id it = serviceId ->
        nodeName it = (if truthy_string (trim text) then trim text else item_name it)
        /\ displayName it = nodeName it
        /\ nodeName (restoreItem (optimizeItem it)) = nodeName it)
  /\ (forall it,
        it ∈ app_boardItems (handleLabelSubmit now st serviceId text) ->
        item_id it <> serviceId -> it ∈ app_boardItems st).
Proof.
  intros Hnd. unfold handleLabelSubmit.
  destruct (List.find (fun item => bool_decide (item_id item = serviceId))
              (app_boardItems st)) as [cur|] eqn:Hfind.
  - set (saved := if bool_decide _ then st else saveToHistory now st).
    assert (Hs : app_boardItems saved = app_boardItems st).
    { subst saved. case_bool_decide; [done|]. apply saveToHistory_collections. }
    cbn [withCollections app_boardItems fmap option_fmap option_map]. rewrite Hs.
    clear Hs saved. apply find_some in Hfind as [Hcur Hcid].
    apply bool_decide_eq_true_1 in Hcid. apply list_elem_of_In in Hcur.
    split; [|split].
    + rewrite map_map. apply map_ext. intros it. by case_bool_decide.
    + intros it Hit Hid. apply list_elem_of_fmap in Hit as (it0 & -> & Hit0).
      case_bool_decide as H0; [|done].
      assert (it0 = cur) as ->.
      { apply (NoDup_fmap_elem item_id (app_boardItems st)); [done..|congruence]. }
      split; [|split; [done|]].
      * unfold nodeName. cbn [withItemCustomName item_customName item_name].
        destruct (truthy_string (trim text)) eqn:Ht; [by rewrite Ht|].
        by destruct (truthy_string (item_name cur)).
      * rewrite restore_optimize_item. apply nodeName_normalize.
    + intros it Hit Hid. apply list_elem_of_fmap in Hit as (it0 & -> & Hit0).
      by case_bool_decide.
  - cbn [withCollections app_boardItems fmap option_fmap option_map].
    assert (Hno : forall it, it ∈ app_boardItems st -> item_id it <> serviceId).
    { intros it Hit Hid. apply list_elem_of_In in Hit.
      apply (find_none _ _ Hfind) in Hit. apply bool_decide_eq_false_1 in Hit. done. }
    split; [|split].
    + rewrite map_map. apply map_ext. intros it. by case_bool_decide.
    + intros it Hit Hid. apply list_elem_of_fmap in Hit as (it0 & -> & Hit0).
      case_bool_decide as H0; [by destruct (Hno it0 Hit0)|]. by destruct (Hno it0 Hit0).
    + intros it Hit Hid. apply list_elem_of_fmap in Hit as (it0 & -> & Hit0).
      by case_bool_decide.
Qed.

Definition board_of (items : list ServiceItem) : AppState :=
  {| app_boardItems := items; app_containers := []; app_connections := [];
     app_undoHistory := []; app_isUndoing := false |}.

(** A blank text on the Node [ec2-1], shown as Web before: it is shown
    with its base name again. *)
Lemma submitted_name_is_shown_witness :
  NoDup (map item_id example_items)
  /\ forall it,
       it ∈ app_boardItems (handleLabelSubmit 0 (board_of example_items) "ec2-1" "  ") ->
       item_id it = "ec2-1" ->
       nodeName it = item_name it
       /\ displayName it = nodeName it
       /\ nodeName (restoreItem (optimizeItem it)) = nodeName it.
Proof.
  assert (Hnd : NoDup (map item_id example_items)).
  { refine (bool_decide_unpack _ _). vm_compute. exact I. }
  split; [exact Hnd|].
  exact (proj1 (proj2 (submitted_name_is_shown 0 (board_of example_items) "ec2-1" "  "
                         Hnd))).
Defined.

End EditLaws.
